(** * A text adventure: shallow embedding of Text_Adventure_Game.py

    The development follows the layout of the Python file: string helpers
    (the [str] methods the program calls), the classes [Item], [Enemy],
    [Room], [Player], and the engine [Game] with its command handlers and
    the combat loop.

    Modelling choices.
    - Python integers are unbounded: [Z].
    - Strings are sequences of 8-bit characters; the [str] methods are
      modelled on 7-bit ASCII text (white space and letter case as Python
      defines them there).  Outside ASCII Python knows more white space
      (U+0085, U+00A0, U+2000 and others) and more capitals than the model;
      model and program agree on the strings that satisfy [PyStr.isascii],
      and where a statement depends on how a typed line splits into tokens
      that is a hypothesis of it.
    - [Room] and [Enemy] objects are shared and mutated through several
      references, so they live in two stores addressed by allocation order;
      a reference is an index into its store.  [Item] objects are never
      mutated after construction and are kept by value.
    - The pseudo-random generator is an unbounded tape of draws, standard
      input a finite list of lines (reading past its end raises [EOFError]),
      standard output the list of chunks written so far.
    - The two loops take fuel; one unit of fuel is one execution of the loop
      body. *)

From Stdlib Require Import ZArith Ascii String DecimalString.
From Stdlib Require Import PrimFloat.
From stdpp Require Import base option list strings gmap.

Set Warnings "-inexact-float".

Local Open Scope Z_scope.

(** ** Python string methods, on ASCII text *)

Module PyStr.

(** [str.isspace] on one ASCII character: TAB, LF, VT, FF, CR, the four
    separators FS GS RS US, and the blank. *)
Definition isspace (c : ascii) : bool :=
  let n := N_of_ascii c in
  ((9 <=? n) && (n <=? 13) || (28 <=? n) && (n <=? 32))%N.

Definition lower_char (c : ascii) : ascii :=
  let n := N_of_ascii c in
  if ((65 <=? n) && (n <=? 90))%N then ascii_of_N (n + 32) else c.

(** [s.lower()] *)
Fixpoint lower (s : string) : string :=
  match s with
  | EmptyString => EmptyString
  | String c s' => String (lower_char c) (lower s')
  end.

(** [s.lstrip()] *)
Fixpoint lstrip (s : string) : string :=
  match s with
  | EmptyString => EmptyString
  | String c s' => if isspace c then lstrip s' else s
  end.

(** [s.rstrip()] *)
Fixpoint rstrip (s : string) : string :=
  match s with
  | EmptyString => EmptyString
  | String c s' =>
      match rstrip s' with
      | EmptyString => if isspace c then EmptyString else String c EmptyString
      | r => String c r
      end
  end.

(** [s.strip()] *)
Definition strip (s : string) : string := lstrip (rstrip s).

(** [s.split()]: the maximal runs of non-space characters, in order. *)
Fixpoint split (s : string) : list string :=
  match s with
  | EmptyString => []
  | String c s' =>
      if isspace c then split s'
      else
        match s' with
        | EmptyString => [String c EmptyString]
        | String c' _ =>
            if isspace c' then String c EmptyString :: split s'
            else
              match split s' with
              | w :: ws => String c w :: ws
              | [] => [String c EmptyString]
              end
        end
  end.

(** [s.startswith(p)] *)
Definition startswith (s p : string) : bool := String.prefix p s.

(** [sep.join(l)] *)
Definition join (sep : string) (l : list string) : string := String.concat sep l.

(** [str(n)] for an integer, as an f-string prints it. *)
Definition of_int (n : Z) : string := NilZero.string_of_int (Z.to_int n).

(** The line feed. *)
Definition nl : string := String (ascii_of_N 10) EmptyString.

(** [s.isascii()]: every character is below 128.  On such a string
    [isspace], [lower], [strip] and [split] above are Python's. *)
Fixpoint isascii (s : string) : bool :=
  match s with
  | EmptyString => true
  | String c s' => (N_of_ascii c <? 128)%N && isascii s'
  end.

End PyStr.

(** ** Python dictionaries that are iterated: insertion-ordered association lists *)

Module PyDict.

Definition t (V : Type) : Type := list (string * V).

(** [d.get(k)] / [k in d] *)
Fixpoint get {V} (k : string) (d : t V) : option V :=
  match d with
  | [] => None
  | (k', v) :: d' => if decide (k' = k) then Some v else get k d'
  end.

(** [d[k] = v]: overwrite in place, or append a new key. *)
Fixpoint set {V} (k : string) (v : V) (d : t V) : t V :=
  match d with
  | [] => [(k, v)]
  | (k', v') :: d' =>
      if decide (k' = k) then (k, v) :: d' else (k', v') :: set k v d'
  end.

(** [d.keys()] *)
Definition keys {V} (d : t V) : list string := fst <$> d.

End PyDict.

(** ** Game object definitions *)

(** A reference to a [Room] or an [Enemy] object: its index in the store. *)
Abbreviation ref := nat.

Module Item.

Record t : Type := mk {
  name : string;
  description : string;
  heal : Z;
  attack_bonus : Z
}.

Global Instance eq_dec : EqDecision t.
Proof. solve_decision. Defined.

(** [Item.__init__] *)
Definition init (name description : string) (heal attack_bonus : Z) : t :=
  mk (PyStr.lower name) description heal attack_bonus.

(** [Item.__str__] *)
Definition str (self : t) : string :=
  let parts := [name self] in
  let parts :=
    if decide (heal self = 0) then parts
    else parts ++ ["(heals " +:+ PyStr.of_int (heal self) +:+ ")"] in
  let parts :=
    if decide (attack_bonus self = 0) then parts
    else parts ++ ["(atk +" +:+ PyStr.of_int (attack_bonus self) +:+ ")"] in
  PyStr.join " " parts.

End Item.

Module Enemy.

Record t : Type := mk {
  name : string;
  hp : Z;
  attack : Z;
  description : string
}.

Global Instance eq_dec : EqDecision t.
Proof. solve_decision. Defined.

(** [Enemy.__init__] *)
Definition init (name : string) (hp attack : Z) (description : string) : t :=
  mk (PyStr.lower name) hp attack description.

Definition is_alive (self : t) : bool := bool_decide (0 < hp self).

(** [take_damage]: the object after [self.hp -= dmg]. *)
Definition take_damage (dmg : Z) (self : t) : t :=
  mk (name self) (hp self - dmg) (attack self) (description self).

(** [Enemy.__str__] *)
Definition str (self : t) : string :=
  name self +:+ " (HP: " +:+ PyStr.of_int (hp self) +:+ ", ATK: "
    +:+ PyStr.of_int (attack self) +:+ ")".

(** What a dangling reference reads: an object that is not alive. *)
Global Instance inhabited : Inhabited t := populate (mk EmptyString 0 0 EmptyString).

End Enemy.

Module Room.

Record t : Type := mk {
  name : string;
  description : string;
  items : list Item.t;
  enemies : list ref;
  exits : PyDict.t ref
}.

(** [Room.__init__] *)
Definition init (name description : string) : t := mk name description [] [] [].

Definition set_items (l : list Item.t) (self : t) : t :=
  mk (name self) (description self) l (enemies self) (exits self).

Definition add_item (item : Item.t) (self : t) : t :=
  set_items (items self ++ [item]) self.

Definition add_enemy (enemy : ref) (self : t) : t :=
  mk (name self) (description self) (items self) (enemies self ++ [enemy]) (exits self).

(** [connect]: one directed edge; the reverse edge is not created. *)
Definition connect (other_room : ref) (direction : string) (self : t) : t :=
  mk (name self) (description self) (items self) (enemies self)
     (PyDict.set (PyStr.lower direction) other_room (exits self)).

(** [get_description]; [es] is the store the enemy references point into. *)
Definition get_description (es : list Enemy.t) (self : t) : string :=
  let lines := ["You are in " +:+ name self +:+ "."; description self] in
  let lines :=
    match items self with
    | [] => lines
    | _ => lines ++ ["You see the following items: "
                       +:+ PyStr.join ", " (Item.name <$> items self)]
    end in
  let lines :=
    match enemies self with
    | [] => lines
    | _ =>
        let alive :=
          Enemy.name <$> filter (λ e, Enemy.is_alive e = true)
                                ((λ r, es !!! r) <$> enemies self) in
        match alive with
        | [] => lines
        | _ => lines ++ ["Enemies here: " +:+ PyStr.join ", " alive]
        end
    end in
  let lines :=
    match exits self with
    | [] => lines
    | _ => lines ++ ["Exits: " +:+ PyStr.join ", " (PyDict.keys (exits self))]
    end in
  PyStr.join PyStr.nl lines.

(** What a dangling reference reads: a room with nothing in it. *)
Global Instance inhabited : Inhabited t := populate (init EmptyString EmptyString).

End Room.

Module Player.

Record t : Type := mk {
  name : string;
  current_room : ref;
  hp : Z;
  base_attack : Z;
  inventory : list Item.t
}.

(** [Player.__init__] *)
Definition init (starting_room : ref) (name : string) : t :=
  mk name starting_room 30 5 [].

Definition set_current_room (r : ref) (self : t) : t :=
  mk (name self) r (hp self) (base_attack self) (inventory self).

Definition set_hp (h : Z) (self : t) : t :=
  mk (name self) (current_room self) h (base_attack self) (inventory self).

Definition set_inventory (l : list Item.t) (self : t) : t :=
  mk (name self) (current_room self) (hp self) (base_attack self) l.

Definition is_alive (self : t) : bool := bool_decide (0 < hp self).

(** [attack_value]: base + the attack bonuses of the items in inventory. *)
Definition attack_value (self : t) : Z :=
  let bonus := foldl Z.add 0 (Item.attack_bonus <$> inventory self) in
  base_attack self + bonus.

Definition add_item (item : Item.t) (self : t) : t :=
  set_inventory (inventory self ++ [item]) self.

(** [use_healing]: the player after using the first healing item, and that
    item, or [None]. *)
Definition use_healing (self : t) : t * option Item.t :=
  match list_find (λ it, 0 < Item.heal it) (inventory self) with
  | Some (i, it) =>
      (set_inventory (delete i (inventory self)) (set_hp (hp self + Item.heal it) self),
       Some it)
  | None => (self, None)
  end.

(** [Player.__str__] *)
Definition str (self : t) : string :=
  name self +:+ " (HP: " +:+ PyStr.of_int (hp self) +:+ ", ATK: "
    +:+ PyStr.of_int (attack_value self) +:+ ")".

End Player.

(** ** The environment: [random], standard input and output *)

Module Rng.

(** Two unbounded tapes of draws and the read positions.  [randint] reduces
    the next integer draw into the requested range, so every value of the
    range, and no other, can come out. *)
Record t : Type := mk {
  ints : nat → N;
  floats : nat → float;
  int_pos : nat;
  float_pos : nat
}.

(** [random.randint(a, b)] *)
Definition randint (a b : Z) (g : t) : Z * t :=
  (a + Z.of_N (ints g (int_pos g)) `mod` (b - a + 1),
   mk (ints g) (floats g) (S (int_pos g)) (float_pos g)).

(** [random.random()] *)
Definition random (g : t) : float * t :=
  (floats g (float_pos g),
   mk (ints g) (floats g) (int_pos g) (S (float_pos g))).

End Rng.

(** Everything reachable from the [Game] instance: the two object stores,
    the [rooms] dictionary, the player and the intro flag. *)
Record GameState : Type := mkGame {
  room_store : list Room.t;
  enemy_store : list Enemy.t;
  rooms : gmap string ref;
  player : Player.t;
  intro_shown : bool
}.

Record World : Type := mkWorld {
  game : GameState;
  rng : Rng.t;
  stdin : list string;
  stdout : list string
}.

Definition set_player (p : Player.t) (g : GameState) : GameState :=
  mkGame (room_store g) (enemy_store g) (rooms g) p (intro_shown g).

Definition set_room (r : ref) (x : Room.t) (g : GameState) : GameState :=
  mkGame (<[r := x]> (room_store g)) (enemy_store g) (rooms g) (player g) (intro_shown g).

Definition set_enemy (r : ref) (x : Enemy.t) (g : GameState) : GameState :=
  mkGame (room_store g) (<[r := x]> (enemy_store g)) (rooms g) (player g) (intro_shown g).

Definition set_intro_shown (b : bool) (g : GameState) : GameState :=
  mkGame (room_store g) (enemy_store g) (rooms g) (player g) b.

(** The object a reference points to.  A reference outside its store, which
    the program never holds, reads as a blank object, and an assignment
    through it ([set_room], [set_enemy]) writes nothing. *)
Definition room_at (g : GameState) (r : ref) : Room.t := room_store g !!! r.
Definition enemy_at (g : GameState) (r : ref) : Enemy.t := enemy_store g !!! r.

(** [self.player.current_room] as an object. *)
Definition current_room (g : GameState) : Room.t :=
  room_at g (Player.current_room (player g)).

(** ** The monad of the engine: state, exceptions, fuel *)

Inductive exn : Type := IndexError | EOFError.

Inductive result (A : Type) : Type :=
| Ok (a : A) (w : World)
| Raise (e : exn) (w : World)
| OutOfFuel.
Arguments Ok {A} a w.
Arguments Raise {A} e w.
Arguments OutOfFuel {A}.

Definition M (A : Type) : Type := World → result A.

Global Instance M_ret : MRet M := λ A a w, Ok a w.

Global Instance M_bind : MBind M :=
  λ A B k m w, match m w with
               | Ok a w' => k a w'
               | Raise e w' => Raise e w'
               | OutOfFuel => OutOfFuel
               end.

Definition raise {A} (e : exn) : M A := λ w, Raise e w.

Definition out_of_fuel {A} : M A := λ _, OutOfFuel.

Definition get_game : M GameState := λ w, Ok (game w) w.

Definition modify_game (f : GameState → GameState) : M unit :=
  λ w, Ok tt (mkWorld (f (game w)) (rng w) (stdin w) (stdout w)).

(** [print(s)]: one chunk on standard output, the line feed included. *)
Definition print (s : string) : M unit :=
  λ w, Ok tt (mkWorld (game w) (rng w) (stdin w) (stdout w ++ [s +:+ PyStr.nl])).

(** [input(prompt)]: writes the prompt, then reads one line. *)
Definition input (prompt : string) : M string :=
  λ w, let out := stdout w ++ [prompt] in
       match stdin w with
       | [] => Raise EOFError (mkWorld (game w) (rng w) [] out)
       | line :: rest => Ok line (mkWorld (game w) (rng w) rest out)
       end.

Definition randint (a b : Z) : M Z :=
  λ w, let '(n, g) := Rng.randint a b (rng w) in
       Ok n (mkWorld (game w) g (stdin w) (stdout w)).

Definition random : M float :=
  λ w, let '(u, g) := Rng.random (rng w) in
       Ok u (mkWorld (game w) g (stdin w) (stdout w)).

(** ** Game engine *)

(** How a combat round left the loop: the [return] after the enemy's defeat,
    the one after the player's death, the one after fleeing. *)
Inductive combat_exit : Type := PlayerWins | PlayerDies | PlayerFlees.

Module Game.

(** *** [create_world] *)

(** The references of the six rooms and the three enemies, in the order the
    constructor calls create them. *)
Definition foyer_ref : ref := 0%nat.
Definition hall_ref : ref := 1%nat.
Definition armory_ref : ref := 2%nat.
Definition kitchen_ref : ref := 3%nat.
Definition cellar_ref : ref := 4%nat.
Definition tower_ref : ref := 5%nat.
Definition rat_ref : ref := 0%nat.
Definition goblin_ref : ref := 1%nat.
Definition wraith_ref : ref := 2%nat.

Definition create_world : GameState :=
  (* Create rooms *)
  let foyer := Room.init "Foyer" "A small entrance hall. Dusty, with old portraits." in
  let hall := Room.init "Great Hall" "A wide hall with a long table. Shadows flicker." in
  let armory := Room.init "Armory" "Racks of old weapons; one looks usable." in
  let kitchen := Room.init "Kitchen" "A greasy kitchen with broken pots." in
  let cellar := Room.init "Cellar" "Damp and dark. You can hear something moving." in
  let tower := Room.init "Tower Top" "A windy top of the tower with a view of the land." in
  (* Connect rooms *)
  let foyer := Room.connect hall_ref "north" foyer in
  let hall := Room.connect foyer_ref "south" hall in
  let hall := Room.connect armory_ref "east" hall in
  let armory := Room.connect hall_ref "west" armory in
  let hall := Room.connect kitchen_ref "west" hall in
  let kitchen := Room.connect hall_ref "east" kitchen in
  let kitchen := Room.connect cellar_ref "down" kitchen in
  let cellar := Room.connect kitchen_ref "up" cellar in
  let hall := Room.connect tower_ref "up" hall in
  let tower := Room.connect hall_ref "down" tower in
  (* Items *)
  let potion := Item.init "Small Potion" "A red potion. Restores 10 HP." 10 0 in
  let big_potion := Item.init "Large Potion" "A larger potion. Restores 20 HP." 20 0 in
  let rusty_sword := Item.init "Rusty Sword" "An old rusty sword. Adds to attack." 0 3 in
  let gem := Item.init "Glowing Gem" "A strange gem. Maybe valuable?" 0 0 in
  (* Place items *)
  let foyer := Room.add_item potion foyer in
  let armory := Room.add_item rusty_sword armory in
  let kitchen := Room.add_item big_potion kitchen in
  let tower := Room.add_item gem tower in
  (* Enemies *)
  let rat := Enemy.init "Giant Rat" 8 2 "A big gnawing rat." in
  let goblin := Enemy.init "Goblin" 14 4 "Sneaky and mean." in
  let wraith := Enemy.init "Wraith" 25 7 "An eerie shadow-like thing guarding the top." in
  let cellar := Room.add_enemy rat_ref cellar in
  let hall := Room.add_enemy goblin_ref hall in
  let tower := Room.add_enemy wraith_ref tower in
  (* Register rooms; create player and set starting room *)
  mkGame [foyer; hall; armory; kitchen; cellar; tower]
         [rat; goblin; wraith]
         (list_to_map [("foyer", foyer_ref); ("hall", hall_ref);
                       ("armory", armory_ref); ("kitchen", kitchen_ref);
                       ("cellar", cellar_ref); ("tower", tower_ref)])
         (Player.init foyer_ref "Adventurer")
         false.

(** [Game.__init__] *)
Definition init : GameState := set_intro_shown false create_world.

(** *** Command handlers *)

Definition cmd_help : M unit :=
  print (PyStr.join PyStr.nl
    ["Commands:";
     "  go <direction>      Move to a room (north, south, east, west, up, down).";
     "  look                Show the current room description again.";
     "  take <item>         Pick up an item.";
     "  inventory           Show your items and stats.";
     "  use <item>          Use an item from inventory (e.g. potion).";
     "  fight <enemy>       Engage an enemy in the room.";
     "  help                Show this help text.";
     "  quit                Quit the game."]).

(** [for it in l: print(" -", it)] *)
Fixpoint print_items (l : list Item.t) : M unit :=
  match l with
  | [] => mret tt
  | it :: l' => print (" - " +:+ Item.str it);; print_items l'
  end.

Definition cmd_inventory : M unit :=
  g ← get_game;
  print (Player.str (player g));;
  match Player.inventory (player g) with
  | [] => print "Inventory is empty."
  | inv => print "Inventory:";; print_items inv
  end.

Definition cmd_go (direction : string) : M unit :=
  g ← get_game;
  let room := current_room g in
  match PyDict.get direction (Room.exits room) with
  | None => print "You can't go that way."
  | Some new_room =>
      modify_game (λ g, set_player (Player.set_current_room new_room (player g)) g);;
      print ("You go " +:+ direction +:+ " to the "
               +:+ Room.name (room_at g new_room) +:+ ".");;
      g ← get_game;
      print (Room.get_description (enemy_store g) (room_at g new_room))
  end.

Definition cmd_take (item_name : string) : M unit :=
  g ← get_game;
  let room := Player.current_room (player g) in
  let item_name := PyStr.lower item_name in
  match list_find (λ it, Item.name it = item_name) (Room.items (room_at g room)) with
  | Some (i, it) =>
      modify_game (λ g, set_player (Player.add_item it (player g)) g);;
      modify_game (λ g, set_room room
                          (Room.set_items (delete i (Room.items (room_at g room)))
                                          (room_at g room)) g);;
      print ("You took the " +:+ Item.name it +:+ ".")
  | None => print "No such item here."
  end.

Definition cmd_use (item_name : string) : M unit :=
  g ← get_game;
  let item_name := PyStr.lower item_name in
  match list_find (λ it, Item.name it = item_name) (Player.inventory (player g)) with
  | Some (i, it) =>
      if bool_decide (0 < Item.heal it) then
        modify_game (λ g, set_player
                            (Player.set_hp (Player.hp (player g) + Item.heal it) (player g)) g);;
        modify_game (λ g, set_player
                            (Player.set_inventory
                               (delete i (Player.inventory (player g))) (player g)) g);;
        g ← get_game;
        print ("You used " +:+ Item.name it +:+ " and restored "
                 +:+ PyStr.of_int (Item.heal it) +:+ " HP. Current HP: "
                 +:+ PyStr.of_int (Player.hp (player g)))
      else
        print ("You used " +:+ Item.name it +:+ ", but nothing notable happened.")
  | None => print "You don't have that item."
  end.

(** [find_enemy_in_room]: the first enemy of the current room that has the
    name and is alive, as a reference, or [None]. *)
Definition find_enemy_in_room (enemy_name : string) (g : GameState) : option ref :=
  let room := current_room g in
  let enemy_name := PyStr.lower enemy_name in
  snd <$> list_find (λ e, Enemy.name (enemy_at g e) = enemy_name
                          ∧ Enemy.is_alive (enemy_at g e) = true)
                    (Room.enemies room).

(** *** The dispatcher and the combat loop

    [handle_command] calls [cmd_fight], whose loop calls [handle_command]
    again for a [use] typed at the combat prompt.  The knot is tied on the
    fuel of the loop: the dispatcher and [cmd_fight] take the function they
    call as an argument. *)

Definition handle_command_with (cmd_fight : string → M unit) (cmd_line : string) : M unit :=
  let parts := PyStr.split cmd_line in
  match parts with
  | [] => raise IndexError
  | cmd :: args =>
      if decide (cmd = "help") then cmd_help
      else if decide (cmd = "look") then
        g ← get_game; print (Room.get_description (enemy_store g) (current_room g))
      else if decide (cmd = "inventory") then cmd_inventory
      else if decide (cmd = "go") then
        match args with
        | [] => print "Go where? Usage: go <direction>"
        | direction :: _ => cmd_go direction
        end
      else if decide (cmd = "take") then
        match args with
        | [] => print "Take what? Usage: take <item>"
        | _ => cmd_take (PyStr.join " " args)
        end
      else if decide (cmd = "fight") then
        match args with
        | [] => print "Fight whom? Usage: fight <enemy>"
        | _ => cmd_fight (PyStr.join " " args)
        end
      else if decide (cmd = "use") then
        match args with
        | [] => print "Use what? Usage: use <itemname>"
        | _ => cmd_use (PyStr.join " " args)
        end
      else print "Unknown command. Type 'help' for commands."
  end.

(** The prompt at the end of a round; [None] goes on to the next round. *)
Definition fight_prompt (handle_command : string → M unit) : M (option combat_exit) :=
  line ← input "Type 'c' to continue fighting, 'use <item>' to use an item, or 'flee' to run: ";
  let action := PyStr.lower (PyStr.strip line) in
  if decide (action = "flee") then
    modify_game (λ g, set_player
                        (Player.set_current_room
                           (default (Player.current_room (player g)) (rooms g !! "foyer"))
                           (player g)) g);;
    print "You flee back to the foyer to safety.";;
    g ← get_game;
    print (Room.get_description (enemy_store g) (current_room g));;
    mret (Some PlayerFlees)
  else if PyStr.startswith action "use " then
    handle_command action;;
    mret None
  else if decide (action = "c" ∨ action = EmptyString) then
    mret None
  else
    print "Unknown option; continuing the fight.";;
    mret None.

(** The round is written in the three steps the source marks by its
    comments, followed by the prompt. *)

(** "Player attack": the roll, the damage, the report. *)
Definition player_attack (enemy : ref) : M unit :=
  g ← get_game;
  roll ← randint 0 3;
  let player_atk := Player.attack_value (player g) + roll in
  let dmg_to_enemy := 1 `max` player_atk in
  modify_game (λ g, set_enemy enemy (Enemy.take_damage dmg_to_enemy (enemy_at g enemy)) g);;
  g ← get_game;
  print ("You hit the " +:+ Enemy.name (enemy_at g enemy) +:+ " for "
           +:+ PyStr.of_int dmg_to_enemy +:+ " damage. "
           +:+ Enemy.name (enemy_at g enemy) +:+ " HP is now "
           +:+ PyStr.of_int (0 `max` Enemy.hp (enemy_at g enemy)) +:+ ".").

(** The branch taken when the enemy is no longer alive: the report and the
    chance of a potion. *)
Definition enemy_defeated (enemy : ref) : M unit :=
  g ← get_game;
  print ("You defeated the " +:+ Enemy.name (enemy_at g enemy) +:+ "!");;
  u ← random;
  if (u <? 0.4)%float then
    let loot := Item.init "Small Potion" "A potion dropped by the enemy." 8 0 in
    modify_game (λ g, set_room (Player.current_room (player g))
                        (Room.add_item loot (current_room g)) g);;
    print ("The " +:+ Enemy.name (enemy_at g enemy) +:+ " dropped a Small Potion.")
  else mret tt.

(** "Enemy turn": the roll, the damage, the report. *)
Definition enemy_turn (enemy : ref) : M unit :=
  g ← get_game;
  roll ← randint 0 2;
  let enemy_atk := Enemy.attack (enemy_at g enemy) + roll in
  let dmg_to_player := 1 `max` enemy_atk in
  modify_game (λ g, set_player (Player.set_hp (Player.hp (player g) - dmg_to_player)
                                              (player g)) g);;
  g ← get_game;
  print ("The " +:+ Enemy.name (enemy_at g enemy) +:+ " hits you for "
           +:+ PyStr.of_int dmg_to_player +:+ ". Your HP is now "
           +:+ PyStr.of_int (0 `max` Player.hp (player g)) +:+ ".").

(** The body of the [while] loop of [cmd_fight]. *)
Definition fight_round (handle_command : string → M unit) (enemy : ref)
  : M (option combat_exit) :=
  player_attack enemy;;
  g ← get_game;
  if negb (Enemy.is_alive (enemy_at g enemy)) then
    enemy_defeated enemy;;
    mret (Some PlayerWins)
  else
    enemy_turn enemy;;
    g ← get_game;
    if negb (Player.is_alive (player g)) then
      print "You were slain in battle...";;
      mret (Some PlayerDies)
    else
      fight_prompt handle_command.

(** [cmd_fight], given its loop. *)
Definition cmd_fight_with (loop : ref → M (option combat_exit)) (enemy_name : string)
  : M unit :=
  g ← get_game;
  match find_enemy_in_room enemy_name g with
  | None => print "No such enemy here."
  | Some enemy =>
      print ("You engage the " +:+ Enemy.name (enemy_at g enemy) +:+ "!");;
      loop enemy;;
      mret tt
  end.

(** [while enemy.is_alive() and self.player.is_alive(): ...]; the result
    is the exit taken by the last round, [None] when the condition ended
    the loop.  One unit of fuel is one execution of the body. *)
Fixpoint fight_loop (fuel : nat) (enemy : ref) : M (option combat_exit) :=
  g ← get_game;
  if Enemy.is_alive (enemy_at g enemy) && Player.is_alive (player g) then
    match fuel with
    | O => out_of_fuel
    | S fuel' =>
        x ← fight_round (handle_command_with (cmd_fight_with (fight_loop fuel'))) enemy;
        match x with
        | Some out => mret (Some out)
        | None => fight_loop fuel' enemy
        end
    end
  else mret None.

Definition cmd_fight (fuel : nat) : string → M unit :=
  cmd_fight_with (fight_loop fuel).

Definition handle_command (fuel : nat) : string → M unit :=
  handle_command_with (cmd_fight fuel).

(** *** The main loop *)

(** The body of [while True]; [true] goes round again, [false] is [break]. *)
Definition start_body (fuel : nat) : M bool :=
  g ← get_game;
  if negb (Player.is_alive (player g)) then
    print "You have perished. Game over.";;
    mret false
  else
    line ← input (PyStr.nl +:+ "> ");
    let user := PyStr.strip line in
    if decide (user = EmptyString) then mret true
    else if decide (PyStr.lower user = "quit" ∨ PyStr.lower user = "exit") then
      print "Thanks for playing — goodbye!";;
      mret false
    else
      handle_command fuel (PyStr.lower user);;
      mret true.

Fixpoint start_loop (turns fuel : nat) : M unit :=
  match turns with
  | O => out_of_fuel
  | S turns' =>
      again ← start_body fuel;
      if again : bool then start_loop turns' fuel else mret tt
  end.

(** What [start] does before it enters the loop. *)
Definition start_intro : M unit :=
  g ← get_game;
  (if negb (intro_shown g) then
     print ("Welcome to the Text Adventure! Type 'help' for a list of commands."
              +:+ PyStr.nl);;
     modify_game (set_intro_shown true)
   else mret tt);;
  g ← get_game;
  print (Room.get_description (enemy_store g) (current_room g)).

Definition start (turns fuel : nat) : M unit :=
  start_intro;; start_loop turns fuel.

End Game.

(** The world a run starts from: a fresh [Game], some generator state, the
    lines that standard input will deliver, nothing printed yet. *)
Definition boot (g : Rng.t) (lines : list string) : World :=
  mkWorld Game.init g lines [].

(** * Properties *)

(** ** The string methods on sample lines *)

Example split_two_words :
  PyStr.split "  take   small potion " = ["take"; "small"; "potion"].
Proof. reflexivity. Qed.

Example strip_lower_line :
  PyStr.lower (PyStr.strip "  Use Small Potion  ") = "use small potion".
Proof. reflexivity. Qed.

Example of_int_negative : PyStr.of_int (-12) = "-12".
Proof. reflexivity. Qed.

(** ** Vocabulary of the statements *)

(** The world after the lines [msgs] were printed and nothing else happened. *)
Definition printed (msgs : list string) (w : World) : World :=
  mkWorld (game w) (rng w) (stdin w) (stdout w ++ ((λ s, s +:+ PyStr.nl) <$> msgs)).

(** The world whose game state is [g], with the environment of [w]. *)
Definition with_game (g : GameState) (w : World) : World :=
  mkWorld g (rng w) (stdin w) (stdout w).

(** The handlers are unfolded by name only. *)
Arguments Game.cmd_help : simpl never.
Arguments Game.cmd_inventory : simpl never.
Arguments Game.cmd_go : simpl never.
Arguments Game.cmd_take : simpl never.
Arguments Game.cmd_use : simpl never.
Arguments Game.handle_command_with : simpl never.
Arguments Game.fight_prompt : simpl never.
Arguments Game.player_attack : simpl never.
Arguments Game.enemy_defeated : simpl never.
Arguments Game.enemy_turn : simpl never.
Arguments Game.fight_round : simpl never.
Arguments Game.cmd_fight_with : simpl never.
Arguments Game.fight_loop : simpl never.

(** Unfolding the monad on a concrete program text. *)
Ltac run_m :=
  unfold mbind, M_bind, mret, M_ret, get_game, modify_game, print, raise; simpl.

Lemma app_cons_snoc {A} (l : list A) (x y : A) : (l ++ [x]) ++ [y] = l ++ [x; y].
Proof. by rewrite <- app_assoc. Qed.

(** ** Movement *)

(** A line of a room description that lists names: left out when there is
    nothing to list. *)
Definition listed (label : string) (names : list string) : list string :=
  match names with
  | [] => []
  | _ => [label +:+ PyStr.join ", " names]
  end.

(** The full description of the room [r] in the state [g], as the
    specification words it: the name, the description text, the items if
    there are any, the names of the enemies that are alive if there are
    any, the exit directions if there are any; one line each. *)
Definition full_description (g : GameState) (r : ref) : string :=
  let room := room_at g r in
  PyStr.join PyStr.nl
    (["You are in " +:+ Room.name room +:+ "."; Room.description room]
       ++ listed "You see the following items: " (Item.name <$> Room.items room)
       ++ listed "Enemies here: "
            (Enemy.name <$> filter (λ e, 0 < Enemy.hp e) (enemy_at g <$> Room.enemies room))
       ++ listed "Exits: " (PyDict.keys (Room.exits room))).

(** [get_description] builds that text. *)
Lemma get_description_full g r :
  Room.get_description (enemy_store g) (room_at g r) = full_description g r.
Proof.
  unfold Room.get_description, full_description, listed. cbn zeta.
  assert (Halive : filter (λ e, Enemy.is_alive e = true)
                          ((λ e, enemy_store g !!! e) <$> Room.enemies (room_at g r))
                   = filter (λ e, 0 < Enemy.hp e) (enemy_at g <$> Room.enemies (room_at g r))).
  { apply list_filter_iff. intros e. unfold Enemy.is_alive.
    by rewrite bool_decide_eq_true. }
  rewrite Halive.
  destruct (Room.items (room_at g r)) as [|it its];
    destruct (Room.enemies (room_at g r)) as [|e es];
    destruct (Room.exits (room_at g r)) as [|[k v] ks]; try reflexivity;
    destruct (Enemy.name <$> filter _ _); reflexivity.
Qed.

(** C9.  [go <direction>]: when the direction is not a key of the current
    room's exits, the failure message is printed and the world is otherwise
    the same; when it is, the player's current room becomes the mapped room
    and nothing else of the game state changes, and two chunks are
    printed: the move, and the full description of the room entered (its
    name, its text, its items, its enemies alive, its exits). *)
Theorem cmd_go_spec (direction : string) (w : World) :
  let g := game w in
  match PyDict.get direction (Room.exits (current_room g)) with
  | None =>
      Game.cmd_go direction w = Ok tt (printed ["You can't go that way."] w)
  | Some new_room =>
      let g' := set_player (Player.set_current_room new_room (player g)) g in
      Game.cmd_go direction w
      = Ok tt (printed ["You go " +:+ direction +:+ " to the "
                          +:+ Room.name (room_at g new_room) +:+ ".";
                        full_description g new_room]
                       (with_game g' w))
      ∧ Player.current_room (player g') = new_room
  end.
Proof.
  intros g. unfold Game.cmd_go. run_m. fold g.
  destruct (PyDict.get direction (Room.exits (current_room g))) as [new_room|]; [|done].
  split; [|done]. rewrite <- (get_description_full g new_room).
  unfold printed, with_game; simpl. by rewrite app_cons_snoc.
Qed.

(** From the foyer of a fresh game: [go north] enters the Great Hall and
    prints its four lines; [go west] is turned down. *)
Lemma cmd_go_spec_witness :
  Game.cmd_go "north" (boot (Rng.mk (λ _, 0%N) (λ _, 0%float) 0 0) [])
  = Ok tt (mkWorld
             (set_player (Player.set_current_room Game.hall_ref (player Game.init)) Game.init)
             (Rng.mk (λ _, 0%N) (λ _, 0%float) 0 0) []
             ["You go north to the Great Hall." +:+ PyStr.nl;
              "You are in Great Hall." +:+ PyStr.nl
                +:+ "A wide hall with a long table. Shadows flicker." +:+ PyStr.nl
                +:+ "Enemies here: goblin" +:+ PyStr.nl
                +:+ "Exits: south, east, west, up" +:+ PyStr.nl])
  ∧ Game.cmd_go "west" (boot (Rng.mk (λ _, 0%N) (λ _, 0%float) 0 0) [])
    = Ok tt (printed ["You can't go that way."] (boot (Rng.mk (λ _, 0%N) (λ _, 0%float) 0 0) [])).
Proof.
  split.
  - pose proof (cmd_go_spec "north" (boot (Rng.mk (λ _, 0%N) (λ _, 0%float) 0 0) [])) as Hgo.
    apply proj1 in Hgo. rewrite Hgo. vm_compute. reflexivity.
  - exact (cmd_go_spec "west" (boot (Rng.mk (λ _, 0%N) (λ _, 0%float) 0 0) [])).
Defined.

(** ** The dispatcher *)

(** The verbs [handle_command] has a branch for, and those of them that
    need an argument. *)
Definition handled_verbs : list string :=
  ["help"; "look"; "inventory"; "go"; "take"; "fight"; "use"].
Definition verbs_with_argument : list string := ["go"; "take"; "fight"; "use"].

(** The message the dispatcher prints when it turns a line down. *)
Definition rejection_message (cmd : string) : string :=
  if decide (cmd = "go") then "Go where? Usage: go <direction>"
  else if decide (cmd = "take") then "Take what? Usage: take <item>"
  else if decide (cmd = "fight") then "Fight whom? Usage: fight <enemy>"
  else if decide (cmd = "use") then "Use what? Usage: use <itemname>"
  else "Unknown command. Type 'help' for commands.".

(** C7.  An ASCII line whose first token is not a verb of the dispatcher,
    or is [go], [take], [fight] or [use] with nothing after it, makes
    [handle_command] return normally (no exception, whatever the fuel) in
    the world it started from with one more message printed: the usage line
    of the verb, or the unknown-command line. *)
Theorem handle_command_rejects (fuel : nat) (cmd_line cmd : string)
    (args : list string) (w : World) :
  PyStr.isascii cmd_line = true →
  PyStr.split cmd_line = cmd :: args →
  cmd ∉ handled_verbs ∨ (cmd ∈ verbs_with_argument ∧ args = []) →
  Game.handle_command fuel cmd_line w = Ok tt (printed [rejection_message cmd] w).
Proof.
  intros _ Hsplit Hcase.
  unfold Game.handle_command, Game.handle_command_with. rewrite Hsplit.
  unfold handled_verbs, verbs_with_argument, rejection_message in *.
  destruct Hcase as [Hnot | [Hverb ->]].
  - rewrite !not_elem_of_cons in Hnot.
    destruct Hnot as (? & ? & ? & ? & ? & ? & ? & _).
    by repeat (case_decide; [done|]).
  - rewrite !elem_of_cons in Hverb.
    destruct Hverb as [-> | [-> | [-> | [-> | Hnil]]]]; [done..|].
    by apply elem_of_nil in Hnil.
Qed.

Lemma handle_command_rejects_witness :
  PyStr.split "dance  wildly" = ["dance"; "wildly"]
  ∧ Game.handle_command 0 "dance  wildly" (boot (Rng.mk (λ _, 0%N) (λ _, 0%float) 0 0) [])
    = Ok tt (printed ["Unknown command. Type 'help' for commands."]
                     (boot (Rng.mk (λ _, 0%N) (λ _, 0%float) 0 0) [])).
Proof.
  split; [reflexivity|].
  apply (handle_command_rejects 0 "dance  wildly" "dance" ["wildly"]).
  - reflexivity.
  - reflexivity.
  - left. unfold handled_verbs. rewrite !not_elem_of_cons. 
    repeat split; try discriminate. apply not_elem_of_nil.
Defined.

(** ** Names and case *)

(** Two names match case-insensitively. *)
Definition same_name (a b : string) : Prop := PyStr.lower a = PyStr.lower b.

Global Instance same_name_dec a b : Decision (same_name a b).
Proof. unfold same_name. apply _. Defined.

(** The class invariant of [Item] and of [Enemy]: the constructor stores the
    name in lower case, and no method assigns it again. *)
Definition item_ok (it : Item.t) : Prop := PyStr.lower (Item.name it) = Item.name it.
Definition enemy_ok (e : Enemy.t) : Prop := PyStr.lower (Enemy.name e) = Enemy.name e.

Lemma lower_char_idemp c : PyStr.lower_char (PyStr.lower_char c) = PyStr.lower_char c.
Proof. by destruct c as [[] [] [] [] [] [] [] []]. Qed.

Lemma lower_idemp s : PyStr.lower (PyStr.lower s) = PyStr.lower s.
Proof. induction s as [|c s IH]; simpl; [done|]. by rewrite lower_char_idemp, IH. Qed.

Lemma item_init_ok name description heal attack_bonus :
  item_ok (Item.init name description heal attack_bonus).
Proof. apply lower_idemp. Qed.

Lemma enemy_init_ok name hp attack description :
  enemy_ok (Enemy.init name hp attack description).
Proof. apply lower_idemp. Qed.

(** On objects that satisfy the class invariant, the comparison the handlers
    make ([it.name == item_name.lower()]) is the case-insensitive match. *)
Lemma item_ok_match it given :
  item_ok it → Item.name it = PyStr.lower given ↔ same_name (Item.name it) given.
Proof. unfold item_ok, same_name. intros ->. done. Qed.

Lemma list_find_ext_on {A} (P Q : A → Prop)
    `{!∀ x, Decision (P x)} `{!∀ x, Decision (Q x)} (l : list A) :
  Forall (λ x, P x ↔ Q x) l → list_find P l = list_find Q l.
Proof.
  induction 1 as [|x l [HPQ HQP] _ IH]; simpl; [done|].
  rewrite IH. destruct (decide (P x)), (decide (Q x)); tauto || done.
Qed.

Lemma find_item_by_name (l : list Item.t) given :
  Forall item_ok l →
  list_find (λ it, Item.name it = PyStr.lower given) l
  = list_find (λ it, same_name (Item.name it) given) l.
Proof.
  intros Hok. apply list_find_ext_on.
  eapply Forall_impl; [exact Hok|]. intros it ?. by apply item_ok_match.
Qed.

(** ** Using an item *)

(** C4.  [use <name>] looks for the first inventory item whose name matches
    case-insensitively.  With heal value H > 0 the player's health becomes
    health + H (no cap), that one item leaves the inventory and nothing else
    changes; with heal value not above 0 the game state is unchanged (the
    item stays); with no match the failure line is printed and the game
    state is unchanged.  The inventory holds objects made by [Item]. *)
Theorem cmd_use_spec (item_name : string) (w : World) :
  let g := game w in
  let p := player g in
  Forall item_ok (Player.inventory p) →
  match list_find (λ it, same_name (Item.name it) item_name) (Player.inventory p) with
  | Some (i, it) =>
      if decide (0 < Item.heal it) then
        let p' := Player.set_inventory (delete i (Player.inventory p))
                    (Player.set_hp (Player.hp p + Item.heal it) p) in
        Game.cmd_use item_name w
        = Ok tt (printed ["You used " +:+ Item.name it +:+ " and restored "
                            +:+ PyStr.of_int (Item.heal it) +:+ " HP. Current HP: "
                            +:+ PyStr.of_int (Player.hp p + Item.heal it)]
                         (with_game (set_player p' g) w))
        ∧ Player.hp p' = Player.hp p + Item.heal it
        ∧ Player.inventory p' = take i (Player.inventory p) ++ drop (S i) (Player.inventory p)
        ∧ S (length (Player.inventory p')) = length (Player.inventory p)
      else
        Game.cmd_use item_name w
        = Ok tt (printed ["You used " +:+ Item.name it +:+ ", but nothing notable happened."] w)
  | None =>
      Game.cmd_use item_name w = Ok tt (printed ["You don't have that item."] w)
  end.
Proof.
  intros g p Hok. unfold Game.cmd_use. run_m. fold g p.
  rewrite (find_item_by_name _ _ Hok).
  destruct (list_find _ (Player.inventory p)) as [[i it]|] eqn:Hfind; [|done].
  apply list_find_Some in Hfind as (Hi & _ & _).
  destruct (decide (0 < Item.heal it)) as [Hpos|Hnpos].
  - rewrite bool_decide_eq_true_2 by done. simpl.
    split_and!; [done|done|apply delete_take_drop|].
    rewrite length_delete; [|by eauto].
    apply lookup_lt_Some in Hi. lia.
  - by rewrite bool_decide_eq_false_2 by done.
Qed.

Lemma cmd_use_spec_witness :
  ∃ w : World,
    Player.inventory (player (game w))
    = [Item.init "Glowing Gem" "A strange gem. Maybe valuable?" 0 0;
       Item.init "Small Potion" "A red potion. Restores 10 HP." 10 0]
    ∧ Player.hp (player (game w)) = 30
    ∧ ∃ w', Game.cmd_use "SMALL potion" w = Ok tt w'
            ∧ Player.hp (player (game w')) = 40
            ∧ Player.inventory (player (game w'))
              = [Item.init "Glowing Gem" "A strange gem. Maybe valuable?" 0 0].
Proof.
  set (inv := [Item.init "Glowing Gem" "A strange gem. Maybe valuable?" 0 0;
               Item.init "Small Potion" "A red potion. Restores 10 HP." 10 0]).
  set (w := with_game (set_player (Player.set_inventory inv (player Game.init)) Game.init)
                      (boot (Rng.mk (λ _, 0%N) (λ _, 0%float) 0 0) [])).
  exists w. split; [done|]. split; [done|].
  assert (Hok : Forall item_ok (Player.inventory (player (game w)))).
  { repeat constructor. }
  pose proof (cmd_use_spec "SMALL potion" w Hok) as H.
  simpl in H. destruct H as (H & _).
  eexists. split; [exact H|]. done.
Defined.

(** ** Stores and references *)

Lemma alive_enemy_in_store g e :
  Enemy.is_alive (enemy_at g e) = true → (e < length (enemy_store g))%nat.
Proof.
  intros Halive. unfold enemy_at in Halive.
  rewrite list_lookup_total_alt in Halive.
  destruct (enemy_store g !! e) as [x|] eqn:Hx; [by eapply lookup_lt_Some|done].
Qed.

Lemma enemy_at_set_enemy_eq g e x :
  (e < length (enemy_store g))%nat → enemy_at (set_enemy e x g) e = x.
Proof. intros. unfold enemy_at; simpl. by apply list_lookup_total_insert_eq. Qed.

Lemma enemy_at_set_enemy_ne g e e' x :
  e ≠ e' → enemy_at (set_enemy e x g) e' = enemy_at g e'.
Proof. intros. unfold enemy_at; simpl. by apply list_lookup_total_insert_ne. Qed.

(** ** The random generator *)

Lemma randint_range a b g : a ≤ b → a ≤ (Rng.randint a b g).1 ≤ b.
Proof.
  intros. simpl.
  pose proof (Z.mod_pos_bound (Z.of_N (Rng.ints g (Rng.int_pos g))) (b - a + 1)).
  lia.
Qed.

(** ** One round of combat *)

(** The sum of the attack bonuses of a list of items. *)
Fixpoint total_attack_bonus (l : list Item.t) : Z :=
  match l with
  | [] => 0
  | it :: l' => Item.attack_bonus it + total_attack_bonus l'
  end.

Lemma foldl_add_bonus (l : list Item.t) (acc : Z) :
  foldl Z.add acc (Item.attack_bonus <$> l) = acc + total_attack_bonus l.
Proof.
  revert acc. induction l as [|it l IH]; intros acc; simpl; [lia|].
  rewrite IH. lia.
Qed.

Lemma attack_value_sum p :
  Player.attack_value p = Player.base_attack p + total_attack_bonus (Player.inventory p).
Proof. unfold Player.attack_value. by rewrite foldl_add_bonus. Qed.

(** The rolls of a round that starts in [w], and the damage they give. *)
Definition player_roll (w : World) : Z := (Rng.randint 0 3 (rng w)).1.
Definition damage_to_enemy (w : World) : Z :=
  1 `max` (Player.attack_value (player (game w)) + player_roll w).
Definition enemy_roll (w : World) : Z := (Rng.randint 0 2 (rng w)).1.
Definition damage_to_player (enemy : ref) (w : World) : Z :=
  1 `max` (Enemy.attack (enemy_at (game w) enemy) + enemy_roll w).

(** What "Player attack" does to the world. *)
Lemma player_attack_run enemy w :
  ∃ w1, Game.player_attack enemy w = Ok tt w1
        ∧ game w1 = set_enemy enemy
                      (Enemy.take_damage (damage_to_enemy w) (enemy_at (game w) enemy))
                      (game w)
        ∧ rng w1 = (Rng.randint 0 3 (rng w)).2
        ∧ stdin w1 = stdin w
        ∧ ∃ msg, stdout w1 = stdout w ++ [msg].
Proof.
  unfold Game.player_attack, randint. run_m.
  eexists. split; [reflexivity|]. simpl. split_and!; try done. by eexists.
Qed.

(** What "Enemy turn" does to the world. *)
Lemma enemy_turn_run enemy w :
  ∃ w2, Game.enemy_turn enemy w = Ok tt w2
        ∧ game w2 = set_player
                      (Player.set_hp (Player.hp (player (game w)) - damage_to_player enemy w)
                                     (player (game w)))
                      (game w)
        ∧ rng w2 = (Rng.randint 0 2 (rng w)).2
        ∧ stdin w2 = stdin w
        ∧ ∃ msg, stdout w2 = stdout w ++ [msg].
Proof.
  unfold Game.enemy_turn, randint. run_m.
  eexists. split; [reflexivity|]. simpl. split_and!; try done. by eexists.
Qed.

(** The round is its steps in sequence, with the two tests between them. *)
Lemma fight_round_steps handle enemy w w1 :
  Game.player_attack enemy w = Ok tt w1 →
  Game.fight_round handle enemy w
  = if Enemy.is_alive (enemy_at (game w1) enemy) then
      match Game.enemy_turn enemy w1 with
      | Ok _ w2 =>
          if Player.is_alive (player (game w2)) then Game.fight_prompt handle w2
          else Ok (Some PlayerDies) (printed ["You were slain in battle..."] w2)
      | Raise e w2 => Raise e w2
      | OutOfFuel => OutOfFuel
      end
    else
      match Game.enemy_defeated enemy w1 with
      | Ok _ w' => Ok (Some PlayerWins) w'
      | Raise e w' => Raise e w'
      | OutOfFuel => OutOfFuel
      end.
Proof.
  intros H1. unfold Game.fight_round.
  unfold mbind at 1. unfold M_bind at 1. rewrite H1.
  unfold mbind at 1. unfold M_bind at 1. unfold get_game at 1.
  destruct (Enemy.is_alive (enemy_at (game w1) enemy)); cbn [negb].
  - unfold mbind at 1. unfold M_bind at 1.
    destruct (Game.enemy_turn enemy w1) as [[] w2| |]; [|done..].
    unfold mbind at 1. unfold M_bind at 1. unfold get_game at 1.
    by destruct (Player.is_alive (player (game w2))).
  - unfold mbind at 1. unfold M_bind at 1.
    by destruct (Game.enemy_defeated enemy w1).
Qed.

(** The draw that decides the drop when the enemy falls in [w], and the
    potion that may drop. *)
Definition drop_draw (w : World) : float := (Rng.random (rng w)).1.
Definition loot : Item.t := Item.init "Small Potion" "A potion dropped by the enemy." 8 0.

(** What the defeat branch does to the world. *)
Lemma enemy_defeated_run enemy w :
  ∃ w', Game.enemy_defeated enemy w = Ok tt w'
        ∧ game w' = (if (drop_draw w <? 0.4)%float
                     then set_room (Player.current_room (player (game w)))
                                   (Room.add_item loot (current_room (game w))) (game w)
                     else game w)
        ∧ rng w' = (Rng.random (rng w)).2
        ∧ stdin w' = stdin w.
Proof.
  unfold Game.enemy_defeated, random, drop_draw. run_m.
  destruct (Rng.floats (rng w) (Rng.float_pos (rng w)) <? 0.4)%float;
    eexists; (split; [reflexivity|done]).
Qed.

(** C1.  A round entered with both combatants alive.  The player's hit is
    max(1, base attack + the attack bonuses of the inventory + a roll of
    randint(0,3)), the roll lies in [0,3], the hit is at least 1, and the
    enemy's health drops by it while the player is untouched.  If the enemy
    is still alive, its hit is max(1, its attack + a roll of randint(0,2)),
    the roll lies in [0,2], the hit is at least 1, and the player's health
    drops by it while no enemy changes; the round then ends in the player's
    death or goes to the prompt.  If the enemy is not alive after the
    player's hit, the round ends with the player's victory and the player
    as before.  (The distribution of the rolls is the generator's.) *)
Theorem combat_round_damage (handle : string → M unit) (enemy : ref) (w : World) :
  let g := game w in
  Enemy.is_alive (enemy_at g enemy) = true →
  Player.is_alive (player g) = true →
  let roll_p := player_roll w in
  let dmg_to_enemy :=
    1 `max` (Player.base_attack (player g)
             + total_attack_bonus (Player.inventory (player g)) + roll_p) in
  0 ≤ roll_p ≤ 3 ∧ 1 ≤ dmg_to_enemy
  ∧ ∃ w1,
      Game.player_attack enemy w = Ok tt w1
      ∧ Enemy.hp (enemy_at (game w1) enemy) = Enemy.hp (enemy_at g enemy) - dmg_to_enemy
      ∧ player (game w1) = player g
      ∧ if Enemy.is_alive (enemy_at (game w1) enemy) then
          let roll_e := enemy_roll w1 in
          let dmg_to_player := 1 `max` (Enemy.attack (enemy_at g enemy) + roll_e) in
          0 ≤ roll_e ≤ 2 ∧ 1 ≤ dmg_to_player
          ∧ ∃ w2,
              Game.enemy_turn enemy w1 = Ok tt w2
              ∧ Player.hp (player (game w2)) = Player.hp (player g) - dmg_to_player
              ∧ enemy_store (game w2) = enemy_store (game w1)
              ∧ Game.fight_round handle enemy w
                = if Player.is_alive (player (game w2))
                  then Game.fight_prompt handle w2
                  else Ok (Some PlayerDies) (printed ["You were slain in battle..."] w2)
        else
          ∃ w', Game.fight_round handle enemy w = Ok (Some PlayerWins) w'
                ∧ player (game w') = player g
                ∧ enemy_store (game w') = enemy_store (game w1).
Proof.
  intros g Halive _ roll_p dmg_to_enemy.
  pose proof (alive_enemy_in_store _ _ Halive) as Hin.
  split; [by apply randint_range|]. split; [lia|].
  destruct (player_attack_run enemy w) as (w1 & Hrun1 & Hg1 & _).
  exists w1. split; [done|].
  assert (Hdmg : damage_to_enemy w = dmg_to_enemy).
  { unfold damage_to_enemy, dmg_to_enemy. by rewrite attack_value_sum. }
  rewrite Hdmg in Hg1.
  assert (Hat : enemy_at (game w1) enemy = Enemy.take_damage dmg_to_enemy (enemy_at g enemy)).
  { rewrite Hg1. by apply enemy_at_set_enemy_eq. }
  split; [by rewrite Hat|]. split; [by rewrite Hg1|].
  rewrite (fight_round_steps handle enemy w w1 Hrun1).
  destruct (Enemy.is_alive (enemy_at (game w1) enemy)).
  - intros roll_e dmg_to_player.
    split; [by apply randint_range|]. split; [lia|].
    destruct (enemy_turn_run enemy w1) as (w2 & Hrun2 & Hg2 & _).
    exists w2. rewrite Hrun2. split; [done|].
    unfold damage_to_player in Hg2. rewrite Hat in Hg2; simpl in Hg2.
    rewrite Hg2; simpl. by rewrite Hg1.
  - destruct (enemy_defeated_run enemy w1) as (w' & Hrun & Hg' & _).
    exists w'. rewrite Hrun. split; [done|].
    rewrite Hg'. destruct (drop_draw w1 <? 0.4)%float; simpl; by rewrite Hg1.
Qed.

Lemma combat_round_damage_witness :
  ∃ w : World,
    Enemy.hp (enemy_at (game w) Game.goblin_ref) = 14
    ∧ Player.hp (player (game w)) = 30
    ∧ player_roll w = 2
    ∧ ∃ w1, Game.player_attack Game.goblin_ref w = Ok tt w1
            ∧ Enemy.hp (enemy_at (game w1) Game.goblin_ref) = 14 - 7.
Proof.
  set (w := boot (Rng.mk (λ _, 2%N) (λ _, 0%float) 0 0) []).
  exists w. split; [done|]. split; [done|]. split; [done|].
  destruct (combat_round_damage (λ _, mret tt) Game.goblin_ref w eq_refl eq_refl)
    as (_ & _ & w1 & Hrun & Hhp & _).
  exists w1. split; [exact Hrun|exact Hhp].
Defined.

(** ** The loop of [cmd_fight] *)

(** One unfolding of the [while]: the body runs when both are alive, and
    the dispatcher it calls is [handle_command] itself. *)
Lemma fight_loop_unfold fuel enemy w :
  Game.fight_loop (S fuel) enemy w
  = if Enemy.is_alive (enemy_at (game w) enemy) && Player.is_alive (player (game w)) then
      match Game.fight_round (Game.handle_command fuel) enemy w with
      | Ok (Some out) w' => Ok (Some out) w'
      | Ok None w' => Game.fight_loop fuel enemy w'
      | Raise e w' => Raise e w'
      | OutOfFuel => OutOfFuel
      end
    else Ok None w.
Proof.
  unfold Game.fight_loop at 1; fold Game.fight_loop.
  unfold mbind at 1. unfold M_bind at 1. unfold get_game at 1.
  destruct (_ && _); [|done].
  unfold mbind at 1. unfold M_bind at 1.
  change (Game.handle_command_with (Game.cmd_fight_with (Game.fight_loop fuel)))
    with (Game.handle_command fuel).
  by destruct (Game.fight_round _ enemy w) as [[out|] w'| |].
Qed.

Lemma fight_loop_not_entered fuel enemy w :
  Enemy.is_alive (enemy_at (game w) enemy) && Player.is_alive (player (game w)) = false →
  Game.fight_loop fuel enemy w = Ok None w.
Proof.
  intros Hcond. destruct fuel as [|fuel]; [|by rewrite fight_loop_unfold, Hcond].
  unfold Game.fight_loop. unfold mbind, M_bind, get_game. by rewrite Hcond.
Qed.

(** A round that ends by a [return] ends the loop with it. *)
Lemma fight_loop_exit fuel enemy w out w' :
  Enemy.is_alive (enemy_at (game w) enemy) = true →
  Player.is_alive (player (game w)) = true →
  Game.fight_round (Game.handle_command fuel) enemy w = Ok (Some out) w' →
  Game.fight_loop (S fuel) enemy w = Ok (Some out) w'.
Proof. intros He Hp Hround. by rewrite fight_loop_unfold, He, Hp, Hround. Qed.

(** C8.  In a round in which the player's hit brings the enemy's health to
    0 or below, the loop returns at once with the player's victory: the
    enemy does not attack (the player is as before the round), no line is
    read, and the room store changes exactly when the draw of
    [random.random()] is below 0.4, by one potion of heal value 8 appended
    to the item list of the current room. *)
Theorem enemy_defeat_ends_combat (fuel : nat) (enemy : ref) (w w1 : World) :
  let g := game w in
  let cur := Player.current_room (player g) in
  Enemy.is_alive (enemy_at g enemy) = true →
  Player.is_alive (player g) = true →
  (cur < length (room_store g))%nat →
  Game.player_attack enemy w = Ok tt w1 →
  Enemy.hp (enemy_at (game w1) enemy) ≤ 0 →
  ∃ w', Game.fight_loop (S fuel) enemy w = Ok (Some PlayerWins) w'
        ∧ player (game w') = player g
        ∧ enemy_store (game w') = enemy_store (game w1)
        ∧ stdin w' = stdin w
        ∧ Item.heal loot = 8
        ∧ if (drop_draw w1 <? 0.4)%float then
            room_store (game w') = <[cur := Room.add_item loot (current_room g)]> (room_store g)
            ∧ Room.items (current_room (game w')) = Room.items (current_room g) ++ [loot]
          else room_store (game w') = room_store g.
Proof.
  intros g cur He Hp Hcur Hrun1 Hdead.
  destruct (player_attack_run enemy w) as (w1' & Hrun1' & Hg1 & _ & Hin1 & _).
  assert (w1' = w1) as -> by congruence.
  destruct (enemy_defeated_run enemy w1) as (w' & Hrun & Hg' & _ & Hin').
  exists w'. split.
  { apply fight_loop_exit; [done..|].
    rewrite (fight_round_steps _ enemy w w1 Hrun1).
    unfold Enemy.is_alive at 1. rewrite bool_decide_eq_false_2 by lia.
    by rewrite Hrun. }
  rewrite Hg', Hin', Hin1.
  destruct (drop_draw w1 <? 0.4)%float; rewrite Hg1; simpl; [|done].
  split_and!; try done.
  unfold current_room, room_at; simpl. fold cur.
  by rewrite list_lookup_total_insert_eq.
Qed.

Lemma enemy_defeat_ends_combat_witness :
  ∃ w w1 w' : World,
    Enemy.hp (enemy_at (game w) Game.rat_ref) = 1
    ∧ Game.player_attack Game.rat_ref w = Ok tt w1
    ∧ (drop_draw w1 <? 0.4)%float = true
    ∧ Game.fight_loop 1 Game.rat_ref w = Ok (Some PlayerWins) w'
    ∧ Room.items (current_room (game w')) = Room.items (current_room (game w)) ++ [loot].
Proof.
  set (g := set_enemy Game.rat_ref (Enemy.init "Giant Rat" 1 2 "A big gnawing rat.")
              (set_player (Player.set_current_room Game.cellar_ref (player Game.init))
                          Game.init)).
  set (w := mkWorld g (Rng.mk (λ _, 0%N) (λ _, 0.25%float) 0 0) [] []).
  destruct (player_attack_run Game.rat_ref w) as (w1 & Hrun1 & Hg1 & Hrng1 & _).
  assert (Hdead : Enemy.hp (enemy_at (game w1) Game.rat_ref) ≤ 0).
  { rewrite Hg1. vm_compute. discriminate. }
  assert (Hcur : (Player.current_room (player (game w)) < length (room_store (game w)))%nat).
  { vm_compute. lia. }
  destruct (enemy_defeat_ends_combat 0 Game.rat_ref w w1 eq_refl eq_refl Hcur Hrun1 Hdead)
    as (w' & Hloop & _ & _ & _ & _ & Hdrop).
  assert (Hdraw : (drop_draw w1 <? 0.4)%float = true).
  { unfold drop_draw. rewrite Hrng1. reflexivity. }
  rewrite Hdraw in Hdrop.
  exists w, w1, w'. split_and!; [done|done|done|done|apply Hdrop].
Defined.

(** ** The line typed at the combat prompt *)

(** The last character of a string exists and is not white space. *)
Fixpoint ends_in_word (s : string) : bool :=
  match s with
  | EmptyString => false
  | String c EmptyString => negb (PyStr.isspace c)
  | String _ s' => ends_in_word s'
  end.

Lemma isspace_lower_char c : PyStr.isspace (PyStr.lower_char c) = PyStr.isspace c.
Proof. by destruct c as [[] [] [] [] [] [] [] []]. Qed.

Lemma ends_in_word_lower s : ends_in_word (PyStr.lower s) = ends_in_word s.
Proof.
  induction s as [|c s IH]; [done|].
  destruct s as [|c' s]; simpl in *; [by rewrite isspace_lower_char|done].
Qed.

Lemma rstrip_ends_in_word s :
  PyStr.rstrip s = EmptyString ∨ ends_in_word (PyStr.rstrip s) = true.
Proof.
  induction s as [|c s IH]; simpl; [by left|].
  destruct (PyStr.rstrip s) as [|c' r] eqn:Hr.
  - destruct (PyStr.isspace c) eqn:Hc; [by left|right]. simpl. by rewrite Hc.
  - right. by destruct IH.
Qed.

Lemma lstrip_ends_in_word s :
  ends_in_word s = true → ends_in_word (PyStr.lstrip s) = true.
Proof.
  induction s as [|c s IH]; [done|]. intros Hs. simpl.
  destruct (PyStr.isspace c) eqn:Hc; [|done].
  apply IH. destruct s; simpl in *; [|done]. by rewrite Hc in Hs.
Qed.

Lemma strip_ends_in_word s :
  PyStr.strip s = EmptyString ∨ ends_in_word (PyStr.strip s) = true.
Proof.
  unfold PyStr.strip. destruct (rstrip_ends_in_word s) as [-> | H]; [by left|].
  right. by apply lstrip_ends_in_word.
Qed.

Lemma split_ends_in_word s : ends_in_word s = true → PyStr.split s ≠ [].
Proof.
  induction s as [|c s IH]; [done|]. intros Hs. simpl.
  destruct s as [|c' s].
  - simpl in Hs. by destruct (PyStr.isspace c).
  - specialize (IH Hs). destruct (PyStr.isspace c); [done|].
    destruct (PyStr.isspace c'); [done|]. by destruct (PyStr.split (String c' s)).
Qed.

Lemma startswith_use action :
  PyStr.startswith action "use " = true →
  ∃ rest, action = String "u" (String "s" (String "e" (String " " rest))).
Proof.
  unfold PyStr.startswith. intros H%String.prefix_correct.
  destruct action as [|c1 [|c2 [|c3 [|c4 rest]]]]; simpl in H; try done.
  exists rest. by simplify_eq.
Qed.

(** A stripped, lowered line that starts with "use " splits into the verb
    [use] and at least one more token. *)
Lemma split_use_line line :
  PyStr.startswith (PyStr.lower (PyStr.strip line)) "use " = true →
  ∃ arg args, PyStr.split (PyStr.lower (PyStr.strip line)) = "use" :: arg :: args.
Proof.
  intros Hstart.
  pose proof (strip_ends_in_word line) as Hend.
  rewrite <- (ends_in_word_lower (PyStr.strip line)) in Hend.
  destruct (startswith_use _ Hstart) as (rest & Haction).
  rewrite Haction in *.
  destruct Hend as [Hempty | Hend].
  { destruct (PyStr.strip line); simpl in Haction; [done|]. simpl in Hempty. done. }
  assert (Hrest : ends_in_word rest = true).
  { simpl in Hend. by destruct rest. }
  apply split_ends_in_word in Hrest.
  change (PyStr.split (String "u" (String "s" (String "e" (String " " rest)))))
    with ("use" :: PyStr.split rest).
  destruct (PyStr.split rest) as [|arg args]; [done|]. by exists arg, args.
Qed.

(** So the dispatcher, called from the prompt, runs [cmd_use]. *)
Lemma handle_command_from_prompt (cmd_fight : string → M unit) line :
  PyStr.startswith (PyStr.lower (PyStr.strip line)) "use " = true →
  ∃ item_name,
    Game.handle_command_with cmd_fight (PyStr.lower (PyStr.strip line))
    = Game.cmd_use item_name.
Proof.
  intros (arg & args & Hsplit)%split_use_line.
  exists (PyStr.join " " (arg :: args)).
  unfold Game.handle_command_with. by rewrite Hsplit.
Qed.

(** ** What no operation changes *)

(** [frame g g']: from [g] to [g'] the [rooms] dictionary, the size of the
    two stores, every room's name, description, enemy list and exits, and
    every enemy's name, attack and description are the same; no enemy's
    health is higher; an enemy with health 0 or below is the same object
    state. *)
Record frame (g g' : GameState) : Prop := mkFrame {
  frame_rooms : rooms g' = rooms g;
  frame_room_count : length (room_store g') = length (room_store g);
  frame_enemy_count : length (enemy_store g') = length (enemy_store g);
  frame_room : ∀ r,
    Room.name (room_at g' r) = Room.name (room_at g r)
    ∧ Room.description (room_at g' r) = Room.description (room_at g r)
    ∧ Room.enemies (room_at g' r) = Room.enemies (room_at g r)
    ∧ Room.exits (room_at g' r) = Room.exits (room_at g r);
  frame_enemy : ∀ e,
    Enemy.name (enemy_at g' e) = Enemy.name (enemy_at g e)
    ∧ Enemy.attack (enemy_at g' e) = Enemy.attack (enemy_at g e)
    ∧ Enemy.description (enemy_at g' e) = Enemy.description (enemy_at g e)
    ∧ Enemy.hp (enemy_at g' e) ≤ Enemy.hp (enemy_at g e)
    ∧ (Enemy.hp (enemy_at g e) ≤ 0 → enemy_at g' e = enemy_at g e)
}.

Lemma frame_refl g : frame g g.
Proof. split; intros; try split_and!; done || lia. Qed.

Lemma frame_trans g1 g2 g3 : frame g1 g2 → frame g2 g3 → frame g1 g3.
Proof.
  intros [Hr1 Hc1 He1 Hroom1 Hen1] [Hr2 Hc2 He2 Hroom2 Hen2].
  split.
  - by rewrite Hr2.
  - by rewrite Hc2.
  - by rewrite He2.
  - intros r. destruct (Hroom1 r) as (?&?&?&?), (Hroom2 r) as (?&?&?&?).
    split_and!; congruence.
  - intros e. destruct (Hen1 e) as (?&?&?&?&Hd1), (Hen2 e) as (?&?&?&?&Hd2).
    split_and!; [congruence..|lia|].
    intros Hdead. rewrite <- (Hd1 Hdead). apply Hd2. rewrite (Hd1 Hdead). done.
Qed.

Lemma room_at_set_room g r x r' :
  room_at (set_room r x g) r'
  = if decide (r' = r ∧ (r < length (room_store g))%nat) then x else room_at g r'.
Proof.
  unfold room_at; simpl. case_decide as H.
  - destruct H as [-> ?]. by apply list_lookup_total_insert_eq.
  - destruct (decide (r' = r)) as [->|]; [|by apply list_lookup_total_insert_ne].
    rewrite list_insert_ge; [done|]. lia.
Qed.

Lemma enemy_at_set_enemy g e x e' :
  enemy_at (set_enemy e x g) e'
  = if decide (e' = e ∧ (e < length (enemy_store g))%nat) then x else enemy_at g e'.
Proof.
  unfold enemy_at; simpl. case_decide as H.
  - destruct H as [-> ?]. by apply list_lookup_total_insert_eq.
  - destruct (decide (e' = e)) as [->|]; [|by apply list_lookup_total_insert_ne].
    rewrite list_insert_ge; [done|]. lia.
Qed.

Lemma frame_set_player g p : frame g (set_player p g).
Proof. split; intros; try split_and!; done || lia. Qed.

(** Changing a room's items only. *)
Lemma frame_set_items g r l : frame g (set_room r (Room.set_items l (room_at g r)) g).
Proof.
  split; simpl; [done|by rewrite length_insert|done| |intros; split_and!; done || lia].
  intros r'. rewrite room_at_set_room. by case_decide as H; [destruct H as [-> _]|].
Qed.

(** Damaging an enemy that is alive. *)
Lemma frame_damage g e d :
  Enemy.is_alive (enemy_at g e) = true → 0 ≤ d →
  frame g (set_enemy e (Enemy.take_damage d (enemy_at g e)) g).
Proof.
  intros Halive Hd. apply bool_decide_eq_true in Halive.
  split; simpl; [done|done|by rewrite length_insert|done|].
  intros e'. rewrite enemy_at_set_enemy.
  case_decide as H; [destruct H as [-> _]; simpl|]; split_and!; done || lia.
Qed.

(** ** The invariant of the game state *)

(** A room is in order: its items are [Item] objects with pairwise different
    names, it has at most one enemy, and while an enemy in it is alive no
    item in it bears the name of the potion enemies drop. *)
Definition room_ok (g : GameState) (r : Room.t) : Prop :=
  Forall item_ok (Room.items r)
  ∧ NoDup (Item.name <$> Room.items r)
  ∧ (length (Room.enemies r) ≤ 1)%nat
  ∧ ((∃ e, e ∈ Room.enemies r ∧ Enemy.is_alive (enemy_at g e) = true) →
     Item.name loot ∉ Item.name <$> Room.items r).

Definition invariant (g : GameState) : Prop :=
  Forall item_ok (Player.inventory (player g))
  ∧ Forall enemy_ok (enemy_store g)
  ∧ Forall (room_ok g) (room_store g).

Lemma room_ok_mono g g' r :
  (∀ e, Enemy.is_alive (enemy_at g' e) = true → Enemy.is_alive (enemy_at g e) = true) →
  room_ok g r → room_ok g' r.
Proof.
  intros Hmono (Hitems & Hnodup & Hlen & Hpotion). split_and!; [done..|].
  intros (e & He & Halive). apply Hpotion. exists e. eauto.
Qed.

Lemma invariant_room_at g r : invariant g → room_ok g (room_at g r).
Proof.
  intros (_ & _ & Hrooms). unfold room_at. rewrite list_lookup_total_alt.
  destruct (room_store g !! r) as [x|] eqn:Hx; simpl.
  - by eapply Forall_lookup_1.
  - split_and!; [constructor|constructor|simpl; lia|].
    intros (e & He & _). by apply elem_of_nil in He.
Qed.

Lemma invariant_enemy_at g e : invariant g → enemy_ok (enemy_at g e).
Proof.
  intros (_ & Henemies & _). unfold enemy_at. rewrite list_lookup_total_alt.
  destruct (enemy_store g !! e) as [x|] eqn:Hx; simpl; [|done].
  by eapply Forall_lookup_1.
Qed.

Lemma invariant_set_player g p :
  invariant g → Forall item_ok (Player.inventory p) → invariant (set_player p g).
Proof. intros (_ & Henemies & Hrooms) Hinv. by split_and!. Qed.

Lemma invariant_damage g e d :
  invariant g → 0 ≤ d →
  invariant (set_enemy e (Enemy.take_damage d (enemy_at g e)) g).
Proof.
  intros Hinv Hd. pose proof (invariant_enemy_at g e Hinv) as Hname.
  destruct Hinv as (Hitems & Henemies & Hrooms).
  split_and!; simpl; [done|by apply Forall_insert|].
  eapply Forall_impl; [exact Hrooms|]. intros r. apply room_ok_mono.
  intros e'. rewrite enemy_at_set_enemy. case_decide as H; [|done].
  destruct H as [-> _]. unfold Enemy.is_alive; simpl.
  rewrite !bool_decide_eq_true. lia.
Qed.

(** The game state after the [i]-th item [it] of the current room was taken. *)
Definition after_take (g : GameState) (i : nat) (it : Item.t) : GameState :=
  let cur := Player.current_room (player g) in
  set_room cur
    (Room.set_items (delete i (Room.items (room_at g cur))) (room_at g cur))
    (set_player (Player.add_item it (player g)) g).

Lemma invariant_take g i it :
  invariant g →
  Room.items (current_room g) !! i = Some it →
  invariant (after_take g i it).
Proof.
  intros Hinv Hi. pose proof (invariant_room_at g (Player.current_room (player g)) Hinv)
    as (Hitems & Hnodup & Hlen & Hpotion).
  destruct Hinv as (Hinventory & Henemies & Hrooms).
  unfold after_take, current_room in *.
  split_and!; simpl.
  - apply Forall_app_2; [done|]. constructor; [|done]. by eapply Forall_lookup_1.
  - done.
  - apply Forall_insert; [done|].
    split_and!; simpl; [by apply Forall_delete| |done|].
    + rewrite list_fmap_delete. eapply sublist_NoDup; [done|apply sublist_delete].
    + intros Halive Hin. apply Hpotion; [done|].
      rewrite list_fmap_delete in Hin. by eapply list_elem_of_delete_inv.
Qed.

(** The game state after the potion dropped in the current room. *)
Definition after_drop (g : GameState) : GameState :=
  set_room (Player.current_room (player g)) (Room.add_item loot (current_room g)) g.

Lemma invariant_drop g :
  invariant g →
  (∀ e, e ∈ Room.enemies (current_room g) → Enemy.is_alive (enemy_at g e) = false) →
  Item.name loot ∉ Item.name <$> Room.items (current_room g) →
  invariant (after_drop g).
Proof.
  intros Hinv Hdead Hfresh.
  pose proof (invariant_room_at g (Player.current_room (player g)) Hinv)
    as (Hitems & Hnodup & Hlen & _).
  destruct Hinv as (Hinventory & Henemies & Hrooms).
  unfold after_drop, current_room in *.
  split_and!; simpl; [done..|].
  apply Forall_insert; [done|].
  split_and!; simpl; [| |done|].
  - apply Forall_app_2; [done|]. constructor; [apply item_init_ok|done].
  - rewrite fmap_app. apply NoDup_app. split_and!; [done| |apply NoDup_singleton].
    intros x Hx ->%list_elem_of_singleton. done.
  - intros (e & He & Halive). specialize (Hdead e He).
    unfold enemy_at in *; simpl in *. congruence.
Qed.

(** ** What each handler does to the game state *)

Lemma set_player_same g : set_player (player g) g = g.
Proof. by destruct g. Qed.

(** [p'] is [p] after items were used: same room, health not lower, the
    inventory a sublist of what it was. *)
Definition player_used (p p' : Player.t) : Prop :=
  Player.current_room p' = Player.current_room p
  ∧ Player.hp p ≤ Player.hp p'
  ∧ Player.inventory p' `sublist_of` Player.inventory p.

Lemma player_used_refl p : player_used p p.
Proof. split_and!; [done|lia|done]. Qed.

Lemma cmd_use_run item_name w :
  ∃ w' p', Game.cmd_use item_name w = Ok tt w'
           ∧ game w' = set_player p' (game w)
           ∧ player_used (player (game w)) p'
           ∧ rng w' = rng w
           ∧ stdin w' = stdin w.
Proof.
  unfold Game.cmd_use. run_m.
  destruct (list_find _ _) as [[i it]|] eqn:Hfind.
  - destruct (bool_decide (0 < Item.heal it)) eqn:Hheal; simpl.
    + apply bool_decide_eq_true in Hheal.
      eexists _, _. split; [reflexivity|]. simpl. split; [done|]. split; [|done].
      split_and!; simpl; [done|lia|apply sublist_delete].
    + eexists _, (player (game w)). split; [reflexivity|]. simpl.
      rewrite set_player_same. split_and!; done || apply player_used_refl.
  - eexists _, (player (game w)). split; [reflexivity|]. simpl.
    rewrite set_player_same. split_and!; done || apply player_used_refl.
Qed.

(** The prompt of a round, with the dispatcher of the game behind it: it
    reads one line; it changes the player only; it leaves the room the same
    unless the answer is [flee]; at the end of input it raises [EOFError]. *)
Lemma fight_prompt_run fuel w :
  match Game.fight_prompt (Game.handle_command fuel) w with
  | Ok out w' =>
      (∃ line, stdin w = line :: stdin w')
      ∧ (out = None ∨ out = Some PlayerFlees)
      ∧ ∃ p', game w' = set_player p' (game w)
              ∧ Player.hp (player (game w)) ≤ Player.hp p'
              ∧ Player.inventory p' `sublist_of` Player.inventory (player (game w))
              ∧ (out = None → Player.current_room p' = Player.current_room (player (game w)))
              ∧ (out = Some PlayerFlees →
                 Player.current_room p'
                 = default (Player.current_room (player (game w))) (rooms (game w) !! "foyer"))
  | Raise e w' => e = EOFError ∧ stdin w = [] ∧ game w' = game w
  | OutOfFuel => False
  end.
Proof.
  unfold Game.fight_prompt, input.
  unfold mbind at 1. unfold M_bind at 1.
  destruct (stdin w) as [|line rest] eqn:Hin; [done|].
  set (w0 := mkWorld _ _ _ _).
  destruct (decide (_ = "flee")) as [Hflee|Hflee].
  { run_m. split; [by eexists|]. split; [by right|].
    eexists. split; [reflexivity|]. simpl. split_and!; [lia|done|done|done]. }
  destruct (PyStr.startswith _ "use ") eqn:Huse.
  { destruct (handle_command_from_prompt (Game.cmd_fight fuel) line Huse)
      as (item_name & Hhandle).
    unfold Game.handle_command. rewrite Hhandle.
    destruct (cmd_use_run item_name w0) as (w' & p' & Hrun & Hg' & (?&?&?) & _ & Hin').
    unfold mbind at 1. unfold M_bind at 1. rewrite Hrun. run_m.
    split; [exists line; by rewrite Hin'|]. split; [by left|].
    exists p'. by rewrite Hg'. }
  assert (Hsame : ∃ p', game w0 = set_player p' (game w)
            ∧ Player.hp (player (game w)) ≤ Player.hp p'
            ∧ Player.inventory p' `sublist_of` Player.inventory (player (game w))
            ∧ ((None : option combat_exit) = None →
               Player.current_room p' = Player.current_room (player (game w)))
            ∧ ((None : option combat_exit) = Some PlayerFlees →
               Player.current_room p'
               = default (Player.current_room (player (game w))) (rooms (game w) !! "foyer"))).
  { exists (player (game w)). simpl. rewrite set_player_same.
    split_and!; [done|lia|done|done|done]. }
  destruct (decide (_ ∨ _)); run_m; (split; [by eexists|]); (split; [by left|]); done.
Qed.

(** The game state after a round: the enemy took [d], the player became
    [p'], and the potion dropped or not. *)
Definition round_result (g : GameState) (enemy : ref) (d : Z) (p' : Player.t)
    (drop : bool) : GameState :=
  let g1 := set_player p' (set_enemy enemy (Enemy.take_damage d (enemy_at g enemy)) g) in
  if drop then after_drop g1 else g1.

(** A round of the game, started with the enemy alive. *)
Lemma fight_round_run fuel enemy w :
  let g := game w in
  Enemy.is_alive (enemy_at g enemy) = true →
  match Game.fight_round (Game.handle_command fuel) enemy w with
  | Ok out w' =>
      ∃ d p' drop,
        1 ≤ d
        ∧ game w' = round_result g enemy d p' drop
        ∧ Player.inventory p' `sublist_of` Player.inventory (player g)
        ∧ (stdin w' = stdin w ∨ ∃ line, stdin w = line :: stdin w')
        ∧ match out with
          | Some PlayerWins => drop = true ∨ drop = false
          | _ => drop = false
          end
        ∧ match out with
          | Some PlayerWins => Enemy.hp (enemy_at g enemy) - d ≤ 0 ∧ p' = player g
          | Some PlayerDies => Player.hp p' ≤ 0
          | Some PlayerFlees =>
              Player.current_room p'
              = default (Player.current_room (player g)) (rooms g !! "foyer")
          | None => Player.current_room p' = Player.current_room (player g)
                    ∧ 0 < Enemy.hp (enemy_at g enemy) - d
                    ∧ 0 < Player.hp p'
          end
  | Raise e w' => e = EOFError ∧ stdin w = [] ∧ 2 ≤ Enemy.hp (enemy_at g enemy)
  | OutOfFuel => False
  end.
Proof.
  intros g Halive. pose proof (alive_enemy_in_store _ _ Halive) as Hin.
  destruct (player_attack_run enemy w) as (w1 & Hrun1 & Hg1 & _ & Hin1 & _).
  fold g in Hg1. set (d := damage_to_enemy w) in *.
  assert (Hd : 1 ≤ d) by (unfold d, damage_to_enemy; lia).
  assert (Hat : enemy_at (game w1) enemy = Enemy.take_damage d (enemy_at g enemy)).
  { rewrite Hg1. by apply enemy_at_set_enemy_eq. }
  rewrite (fight_round_steps _ enemy w w1 Hrun1).
  destruct (Enemy.is_alive (enemy_at (game w1) enemy)) eqn:He1.
  - apply bool_decide_eq_true in He1. rewrite Hat in He1; simpl in He1.
    destruct (enemy_turn_run enemy w1) as (w2 & Hrun2 & Hg2 & _ & Hin2 & _).
    rewrite Hrun2.
    destruct (Player.is_alive (player (game w2))) eqn:Hp2.
    + apply bool_decide_eq_true in Hp2.
      pose proof (fight_prompt_run fuel w2) as Hprompt.
      destruct (Game.fight_prompt _ w2) as [out w'|ex w'|]; [| |done].
      * destruct Hprompt as ((line & Hline) & Hout & p' & Hg' & Hhp & Hsub & Hroom & Hflee).
        exists d, p', false. split; [done|]. split.
        { rewrite Hg', Hg2, Hg1. done. }
        rewrite Hg2, Hg1 in Hsub, Hroom, Hflee; simpl in Hsub, Hroom, Hflee.
        split; [done|]. split; [right; exists line; congruence|].
        destruct Hout as [-> | ->]; (split; [done|]); [|by apply Hflee].
        split_and!; [by apply Hroom|lia|lia].
      * destruct Hprompt as (-> & Hnil & _). split; [done|]. split; [congruence|lia].
    + apply bool_decide_eq_false in Hp2.
      exists d, (player (game w2)), false. split; [done|]. split.
      { simpl. rewrite Hg2, Hg1. done. }
      rewrite Hg2, Hg1. simpl. split_and!; try done; [left; congruence|].
      rewrite Hg2, Hg1 in Hp2. simpl in Hp2. lia.
  - apply bool_decide_eq_false in He1. rewrite Hat in He1; simpl in He1.
    destruct (enemy_defeated_run enemy w1) as (w' & Hrun & Hg' & _ & Hin').
    rewrite Hrun. exists d, (player g), (drop_draw w1 <? 0.4)%float.
    split; [done|]. split.
    { rewrite Hg', Hg1. unfold round_result, after_drop, current_room. simpl.
      fold g. by destruct g. }
    split; [done|]. split; [left; congruence|].
    split; [by destruct (_ <? _)%float; [left|right]|]. split; [lia|done].
Qed.

Lemma frame_round_result g enemy d p' drop :
  Enemy.is_alive (enemy_at g enemy) = true → 1 ≤ d →
  frame g (round_result g enemy d p' drop).
Proof.
  intros Halive Hd. unfold round_result.
  set (g1 := set_player p' _).
  assert (frame g g1) as Hg1.
  { apply (frame_trans _ (set_enemy enemy (Enemy.take_damage d (enemy_at g enemy)) g));
      [apply frame_damage; [done|lia]|apply frame_set_player]. }
  destruct drop; [|done].
  eapply frame_trans; [exact Hg1|]. apply frame_set_items.
Qed.

Lemma Forall_sublist_of {A} (P : A → Prop) (l k : list A) :
  l `sublist_of` k → Forall P k → Forall P l.
Proof.
  intros Hsub%sublist_subseteq. rewrite !Forall_forall. intros Hk x Hx. apply Hk, Hsub, Hx.
Qed.

Lemma invariant_round_result g enemy d p' drop :
  invariant g →
  Enemy.is_alive (enemy_at g enemy) = true →
  enemy ∈ Room.enemies (current_room g) →
  1 ≤ d →
  Player.inventory p' `sublist_of` Player.inventory (player g) →
  (drop = true → Enemy.hp (enemy_at g enemy) - d ≤ 0 ∧ p' = player g) →
  invariant (round_result g enemy d p' drop).
Proof.
  intros Hinv Halive Hhere Hd Hsub Hdrop. unfold round_result.
  set (g1 := set_player p' _).
  assert (invariant g1) as Hinv1.
  { apply invariant_set_player; [apply invariant_damage; [done|lia]|].
    eapply Forall_sublist_of; [exact Hsub|]. by destruct Hinv. }
  destruct drop; [|done].
  destruct (Hdrop eq_refl) as [Hdead ->].
  pose proof (alive_enemy_in_store _ _ Halive) as Hin.
  pose proof (invariant_room_at g (Player.current_room (player g)) Hinv)
    as (_ & _ & Hlen & Hpotion).
  fold (current_room g) in Hlen, Hpotion.
  assert (Hroom : current_room g1 = current_room g) by done.
  apply invariant_drop; [done| |].
  - rewrite Hroom. intros e He.
    assert (e = enemy) as ->.
    { destruct (Room.enemies (current_room g)) as [|e0 [|e1 l]]; simpl in Hlen; [|..|lia].
      - by apply elem_of_nil in He.
      - apply list_elem_of_singleton in He, Hhere. congruence. }
    unfold g1. change (enemy_at (set_player ?p ?h) ?x) with (enemy_at h x).
    rewrite enemy_at_set_enemy_eq by done.
    unfold Enemy.is_alive; simpl. apply bool_decide_eq_false. lia.
  - rewrite Hroom. apply Hpotion. by exists enemy.
Qed.

(** ** The whole fight *)

(** The loop, for every amount of fuel.  When it returns: the frame holds,
    the invariant is kept when the enemy is one of the current room, and
    a loop entered with both alive ended by one of the three exits, each
    with its reason.  It raises only [EOFError], and only when the lines of
    standard input were fewer than the enemy's health minus one.  It runs
    out of fuel only when the fuel was less than the enemy's health. *)
Lemma fight_loop_run fuel enemy w :
  let g := game w in
  match Game.fight_loop fuel enemy w with
  | Ok out w' =>
      frame g (game w')
      ∧ (invariant g → enemy ∈ Room.enemies (current_room g) → invariant (game w'))
      ∧ match out with
        | Some PlayerWins => Enemy.hp (enemy_at (game w') enemy) ≤ 0
        | Some PlayerDies => Player.hp (player (game w')) ≤ 0
        | Some PlayerFlees =>
            Player.current_room (player (game w'))
            = default (Player.current_room (player g)) (rooms g !! "foyer")
        | None =>
            Enemy.is_alive (enemy_at g enemy) && Player.is_alive (player g) = false
            ∧ w' = w
        end
  | Raise e w' =>
      e = EOFError ∧ (S (length (stdin w)) < Z.to_nat (Enemy.hp (enemy_at g enemy)))%nat
  | OutOfFuel => (fuel < Z.to_nat (Enemy.hp (enemy_at g enemy)))%nat
  end.
Proof.
  revert w. induction fuel as [|fuel IH]; intros w g.
  { destruct (Enemy.is_alive (enemy_at g enemy) && Player.is_alive (player g)) eqn:Hcond.
    - unfold Game.fight_loop, mbind, M_bind, get_game. fold g. rewrite Hcond.
      apply andb_true_iff in Hcond as [He%bool_decide_eq_true _]. simpl. lia.
    - rewrite fight_loop_not_entered by done.
      split_and!; [apply frame_refl|done|done|done]. }
  rewrite fight_loop_unfold. fold g.
  destruct (Enemy.is_alive (enemy_at g enemy) && Player.is_alive (player g)) eqn:Hcond;
    [|split_and!; [apply frame_refl|done|done|done]].
  apply andb_true_iff in Hcond as [He Hp].
  pose proof (fight_round_run fuel enemy w He) as Hround. fold g in Hround.
  pose proof (alive_enemy_in_store _ _ He) as Hin.
  apply bool_decide_eq_true in He as Hhp.
  destruct (Game.fight_round _ enemy w) as [out w1|ex w1|]; [| |done].
  2:{ destruct Hround as (-> & Hnil & Hhp2). split; [done|]. rewrite Hnil. simpl. lia. }
  destruct Hround as (d & p' & drop & Hd & Hg1 & Hsub & Hstdin & Hdrop & Hout).
  assert (Hframe1 : frame g (game w1)).
  { rewrite Hg1. by apply frame_round_result. }
  assert (Hinv1 : invariant g → enemy ∈ Room.enemies (current_room g) → invariant (game w1)).
  { intros Hinv Hhere. rewrite Hg1. apply invariant_round_result; try done.
    intros ->. destruct out as [[]|]; try done. }
  assert (Hat1 : drop = false →
                 enemy_at (game w1) enemy = Enemy.take_damage d (enemy_at g enemy)
                 ∧ player (game w1) = p').
  { intros ->. rewrite Hg1. unfold round_result.
    change (enemy_at (set_player ?p ?h) ?x) with (enemy_at h x).
    by rewrite enemy_at_set_enemy_eq. }
  destruct out as [out|].
  { split; [done|]. split; [done|].
    destruct out.
    - destruct Hout as [Hdead ->].
      assert (enemy_at (game w1) enemy = Enemy.take_damage d (enemy_at g enemy)) as ->.
      { rewrite Hg1. unfold round_result, after_drop.
        destruct drop; unfold enemy_at; simpl; by rewrite list_lookup_total_insert_eq. }
      simpl. lia.
    - destruct (Hat1 Hdrop) as [_ ->]. done.
    - destruct (Hat1 Hdrop) as [_ ->]. done. }
  destruct Hout as (Hroom & Halive1 & Hp1).
  destruct (Hat1 Hdrop) as [Hat Hpl].
  specialize (IH w1). simpl in IH.
  assert (Hhp1 : Enemy.hp (enemy_at (game w1) enemy) = Enemy.hp (enemy_at g enemy) - d).
  { by rewrite Hat. }
  destruct (Game.fight_loop fuel enemy w1) as [out w'|ex w'|].
  - destruct IH as (Hframe & Hinv & Hout).
    split; [by eapply frame_trans|]. split.
    { intros Hi Hhere. apply Hinv; [by apply Hinv1|].
      unfold current_room. rewrite Hpl, Hroom.
      destruct (frame_room _ _ Hframe1 (Player.current_room (player g))) as (_ & _ & -> & _).
      exact Hhere. }
    destruct out as [[]|]; try done.
    + rewrite Hout, Hpl, Hroom. by rewrite (frame_rooms _ _ Hframe1).
    + destruct Hout as [Hcond _]. exfalso.
      apply andb_false_iff in Hcond as [Hc|Hc]; apply bool_decide_eq_false in Hc.
      * rewrite Hhp1 in Hc. lia.
      * rewrite Hpl in Hc. lia.
  - destruct IH as (-> & Hlen). split; [done|].
    rewrite Hhp1 in Hlen.
    destruct Hstdin as [Heq | (line & Heq)]; [rewrite Heq in Hlen|rewrite Heq; simpl]; lia.
  - rewrite Hhp1 in IH. lia.
Qed.

(** ** Every command keeps the frame and the invariant *)

Definition sound_step (g g' : GameState) : Prop :=
  frame g g' ∧ (invariant g → invariant g').

Lemma sound_step_refl g : sound_step g g.
Proof. split; [apply frame_refl|done]. Qed.

(** A handler that returns does so in a state related to the one it
    started in. *)
Definition keeps {A} (m : M A) : Prop :=
  ∀ w, match m w with
       | Ok _ w' => sound_step (game w) (game w')
       | _ => True
       end.

(** A handler that only prints. *)
Definition prints_only (m : M unit) : Prop :=
  ∀ w, ∃ out, m w = Ok tt (mkWorld (game w) (rng w) (stdin w) (stdout w ++ out)).

Lemma prints_only_print s : prints_only (print s).
Proof. intros w. by eexists. Qed.

Lemma prints_only_seq (m k : M unit) :
  prints_only m → prints_only k → prints_only (m;; k).
Proof.
  intros Hm Hk w. destruct (Hm w) as (out1 & H1).
  unfold mbind, M_bind. rewrite H1.
  destruct (Hk (mkWorld (game w) (rng w) (stdin w) (stdout w ++ out1))) as (out2 & H2).
  rewrite H2. simpl. exists (out1 ++ out2). by rewrite app_assoc.
Qed.

Lemma prints_only_get (k : GameState → M unit) :
  (∀ g, prints_only (k g)) → prints_only (g ← get_game; k g).
Proof. intros Hk w. unfold mbind, M_bind, get_game. apply Hk. Qed.

Lemma prints_only_items l : prints_only (Game.print_items l).
Proof.
  induction l as [|it l IH]; simpl.
  - intros w. exists []. unfold mret, M_ret. by rewrite app_nil_r; destruct w.
  - apply prints_only_seq; [apply prints_only_print|done].
Qed.

Lemma prints_only_help : prints_only Game.cmd_help.
Proof. apply prints_only_print. Qed.

Lemma prints_only_inventory : prints_only Game.cmd_inventory.
Proof.
  unfold Game.cmd_inventory. apply prints_only_get. intros g.
  apply prints_only_seq; [apply prints_only_print|].
  destruct (Player.inventory (player g)); [apply prints_only_print|].
  apply prints_only_seq; [apply prints_only_print|apply prints_only_items].
Qed.

Lemma prints_only_keeps m : prints_only m → keeps m.
Proof. intros Hm w. destruct (Hm w) as (out & ->). apply sound_step_refl. Qed.

Lemma keeps_go direction : keeps (Game.cmd_go direction).
Proof.
  intros w. unfold Game.cmd_go. run_m.
  destruct (PyDict.get direction _) as [new_room|]; [|apply sound_step_refl].
  split; [apply frame_set_player|].
  intros Hinv. apply invariant_set_player; [done|]. by destruct Hinv.
Qed.

Lemma cmd_take_run item_name w :
  let g := game w in
  match list_find (λ it, Item.name it = PyStr.lower item_name)
                  (Room.items (current_room g)) with
  | Some (i, it) =>
      Game.cmd_take item_name w
      = Ok tt (printed ["You took the " +:+ Item.name it +:+ "."]
                       (with_game (after_take g i it) w))
  | None => Game.cmd_take item_name w = Ok tt (printed ["No such item here."] w)
  end.
Proof.
  intros g. unfold Game.cmd_take. run_m. fold g.
  change (room_at g (Player.current_room (player g))) with (current_room g).
  by destruct (list_find _ _) as [[i it]|].
Qed.

Lemma frame_take g i it : frame g (after_take g i it).
Proof.
  unfold after_take.
  apply (frame_trans _ (set_player (Player.add_item it (player g)) g));
    [apply frame_set_player|].
  apply (frame_set_items (set_player (Player.add_item it (player g)) g)).
Qed.

Lemma keeps_take item_name : keeps (Game.cmd_take item_name).
Proof.
  intros w. pose proof (cmd_take_run item_name w) as Htake. simpl in Htake.
  destruct (list_find _ _) as [[i it]|] eqn:Hfind; rewrite Htake; simpl.
  - apply list_find_Some in Hfind as (Hi & _).
    split; [apply frame_take|]. intros Hinv. by apply invariant_take.
  - apply sound_step_refl.
Qed.

Lemma keeps_use item_name : keeps (Game.cmd_use item_name).
Proof.
  intros w. destruct (cmd_use_run item_name w) as (w' & p' & -> & -> & (_ & _ & Hsub) & _).
  split; [apply frame_set_player|].
  intros Hinv. apply invariant_set_player; [done|].
  eapply Forall_sublist_of; [exact Hsub|]. by destruct Hinv.
Qed.

(** The enemy [find_enemy_in_room] returns is an enemy of the current room,
    has the name that was asked for, and is alive. *)
Lemma find_enemy_in_room_Some enemy_name g enemy :
  Game.find_enemy_in_room enemy_name g = Some enemy →
  enemy ∈ Room.enemies (current_room g)
  ∧ Enemy.name (enemy_at g enemy) = PyStr.lower enemy_name
  ∧ Enemy.is_alive (enemy_at g enemy) = true.
Proof.
  unfold Game.find_enemy_in_room.
  intros ([i e] & Hfind & ->)%fmap_Some. simpl.
  apply list_find_Some in Hfind as (Hi & [Hname Halive] & _).
  split; [by eapply list_elem_of_lookup_2|done].
Qed.

Lemma keeps_fight fuel enemy_name : keeps (Game.cmd_fight fuel enemy_name).
Proof.
  intros w. unfold Game.cmd_fight, Game.cmd_fight_with.
  unfold mbind at 1. unfold M_bind at 1. unfold get_game at 1.
  destruct (Game.find_enemy_in_room enemy_name (game w)) as [enemy|] eqn:Hfind;
    [|apply sound_step_refl].
  apply find_enemy_in_room_Some in Hfind as (Hhere & _ & Halive).
  run_m. set (w0 := mkWorld _ _ _ _).
  pose proof (fight_loop_run fuel enemy w0) as Hloop. simpl in Hloop.
  destruct (Game.fight_loop fuel enemy w0) as [out w'| |]; [|done..].
  destruct Hloop as (Hframe & Hinv & _). split; [done|]. intros Hi. by apply Hinv.
Qed.

Lemma keeps_handle_command fuel cmd_line : keeps (Game.handle_command fuel cmd_line).
Proof.
  unfold Game.handle_command, Game.handle_command_with.
  destruct (PyStr.split cmd_line) as [|cmd args]; [done|].
  repeat case_decide.
  - apply prints_only_keeps, prints_only_help.
  - apply prints_only_keeps, prints_only_get. intros g. apply prints_only_print.
  - apply prints_only_keeps, prints_only_inventory.
  - destruct args; [apply prints_only_keeps, prints_only_print|apply keeps_go].
  - destruct args; [apply prints_only_keeps, prints_only_print|apply keeps_take].
  - destruct args; [apply prints_only_keeps, prints_only_print|apply keeps_fight].
  - destruct args; [apply prints_only_keeps, prints_only_print|apply keeps_use].
  - apply prints_only_keeps, prints_only_print.
Qed.

(** ** Reachable game states *)

Lemma keeps_bind {A B} (m : M A) (k : A → M B) :
  keeps m → (∀ a, keeps (k a)) → keeps (m ≫= k).
Proof.
  intros Hm Hk w. unfold mbind, M_bind. specialize (Hm w).
  destruct (m w) as [a w1| |]; [|done..].
  specialize (Hk a w1). destruct (k a w1) as [b w2| |]; [|done..].
  destruct Hm as [Hf1 Hi1], Hk as [Hf2 Hi2].
  split; [by eapply frame_trans|auto].
Qed.

Lemma keeps_ret {A} (a : A) : keeps (mret a).
Proof. intros w. apply sound_step_refl. Qed.

Lemma keeps_print s : keeps (print s).
Proof. apply prints_only_keeps, prints_only_print. Qed.

Lemma keeps_input prompt : keeps (input prompt).
Proof. intros w. unfold input. destruct (stdin w); [done|apply sound_step_refl]. Qed.

Lemma keeps_get {A} (k : GameState → M A) : (∀ g, keeps (k g)) → keeps (get_game ≫= k).
Proof. intros Hk. apply keeps_bind; [|done]. intros w. apply sound_step_refl. Qed.

Lemma keeps_start_body fuel : keeps (Game.start_body fuel).
Proof.
  unfold Game.start_body. apply keeps_get. intros g.
  destruct (negb _).
  { apply keeps_bind; [apply keeps_print|intros; apply keeps_ret]. }
  apply keeps_bind; [apply keeps_input|]. intros line.
  repeat case_decide; [apply keeps_ret| |].
  - apply keeps_bind; [apply keeps_print|intros; apply keeps_ret].
  - apply keeps_bind; [apply keeps_handle_command|intros; apply keeps_ret].
Qed.

Lemma keeps_start_intro : keeps Game.start_intro.
Proof.
  unfold Game.start_intro. apply keeps_get. intros g.
  apply keeps_bind; [|intros; apply keeps_get; intros; apply keeps_print].
  destruct (negb _); [|apply keeps_ret].
  apply keeps_bind; [apply keeps_print|]. intros _ w. simpl.
  split; [|done]. split; intros; try split_and!; done || lia.
Qed.

(** The game states of a run, whatever the input, the generator and the
    fuel: the one [Game()] builds; every state in which [start] is after its
    introduction or after an execution of the body of its loop; and, inside
    a fight, every state at the head of the loop of [cmd_fight], that is,
    after a round against an alive enemy of the current room that went on
    to the next iteration. *)
Inductive reachable : GameState → Prop :=
| reachable_init : reachable Game.init
| reachable_intro w w' :
    reachable (game w) → Game.start_intro w = Ok tt w' → reachable (game w')
| reachable_turn fuel w again w' :
    reachable (game w) → Game.start_body fuel w = Ok again w' → reachable (game w')
| reachable_round fuel enemy w w' :
    reachable (game w) →
    enemy ∈ Room.enemies (current_room (game w)) →
    Enemy.is_alive (enemy_at (game w) enemy) = true →
    Game.fight_round (Game.handle_command fuel) enemy w = Ok None w' →
    reachable (game w').

Lemma invariant_init : invariant Game.init.
Proof.
  split_and!; [constructor|repeat constructor|].
  repeat apply Forall_cons_2; [..|constructor];
    (split_and!; simpl;
     [repeat constructor
     |first [apply NoDup_nil_2 | apply NoDup_singleton]
     |lia
     |intros (e & He & Halive)]);
    try (by apply elem_of_nil in He);
    rewrite ?not_elem_of_cons; repeat split; discriminate || apply not_elem_of_nil.
Qed.

Lemma reachable_sound g : reachable g → frame Game.init g ∧ invariant g.
Proof.
  induction 1 as [|w w' _ [Hf Hi] Hrun|fuel w again w' _ [Hf Hi] Hrun
                  |fuel enemy w w' _ [Hf Hi] Hhere Halive Hrun].
  - split; [apply frame_refl|apply invariant_init].
  - pose proof (keeps_start_intro w) as Hk. rewrite Hrun in Hk.
    destruct Hk as [Hf' Hi']. split; [by eapply frame_trans|auto].
  - pose proof (keeps_start_body fuel w) as Hk. rewrite Hrun in Hk.
    destruct Hk as [Hf' Hi']. split; [by eapply frame_trans|auto].
  - pose proof (fight_round_run fuel enemy w Halive) as Hround. rewrite Hrun in Hround.
    destruct Hround as (d & p' & drop & Hd & -> & Hsub & _ & -> & _).
    split.
    + eapply frame_trans; [exact Hf|]. by apply frame_round_result.
    + by apply invariant_round_result.
Qed.

(** ** Taking an item *)

Lemma NoDup_delete_lookup {A} (l : list A) i x :
  NoDup l → l !! i = Some x → x ∉ delete i l.
Proof.
  intros Hnd Hi. rewrite delete_take_drop.
  rewrite <- (take_drop_middle l i x Hi) in Hnd.
  apply NoDup_app in Hnd as (_ & Hdisj & Hnd).
  apply NoDup_cons in Hnd as [Hnotin _].
  intros [Hin|Hin]%elem_of_app; [|done].
  apply (Hdisj x Hin). by left.
Qed.

Lemma room_with_items_in_store g r i it :
  Room.items (room_at g r) !! i = Some it → (r < length (room_store g))%nat.
Proof.
  unfold room_at. rewrite list_lookup_total_alt. intros Hi.
  destruct (room_store g !! r) as [x|] eqn:Hx; [by eapply lookup_lt_Some|done].
Qed.

(** C3.  [take <name>] in a reachable state.  If an item of the current room
    matches the name case-insensitively, the first such item [it], at index
    [i], is removed from the room's list and appended to the inventory and
    nothing else changes; afterwards [it] is in the inventory and not in the
    room, no item of that name is left in the room, and taking the same
    name again prints the failure line and changes nothing.  If no item
    matches, the failure line is printed and nothing changes. *)
Theorem cmd_take_spec (item_name : string) (w : World) :
  let g := game w in
  reachable g →
  match list_find (λ it, same_name (Item.name it) item_name)
                  (Room.items (current_room g)) with
  | Some (i, it) =>
      let g' := after_take g i it in
      let w' := printed ["You took the " +:+ Item.name it +:+ "."] (with_game g' w) in
      Game.cmd_take item_name w = Ok tt w'
      ∧ Room.items (current_room g') = delete i (Room.items (current_room g))
      ∧ Player.inventory (player g') = Player.inventory (player g) ++ [it]
      ∧ (it ∈ Player.inventory (player g'))
      ∧ (it ∉ Room.items (current_room g'))
      ∧ (∀ it', it' ∈ Room.items (current_room g') → ¬ same_name (Item.name it') item_name)
      ∧ (∀ r, r ≠ Player.current_room (player g) → room_at g' r = room_at g r)
      ∧ enemy_store g' = enemy_store g
      ∧ Game.cmd_take item_name w' = Ok tt (printed ["No such item here."] w')
  | None => Game.cmd_take item_name w = Ok tt (printed ["No such item here."] w)
  end.
Proof.
  intros g Hreach. apply reachable_sound in Hreach as [_ Hinv].
  pose proof (invariant_room_at g (Player.current_room (player g)) Hinv)
    as (Hitems & Hnodup & _).
  fold (current_room g) in Hitems, Hnodup.
  pose proof (cmd_take_run item_name w) as Hrun. simpl in Hrun. fold g in Hrun.
  rewrite (find_item_by_name _ _ Hitems) in Hrun.
  destruct (list_find _ _) as [[i it]|] eqn:Hfind; [|done].
  intros g' w'. split; [done|].
  apply list_find_Some in Hfind as (Hi & Hname & _).
  pose proof (room_with_items_in_store _ _ _ _ Hi) as Hcur.
  assert (Hroom' : Room.items (current_room g') = delete i (Room.items (current_room g))).
  { unfold g', after_take, current_room. simpl. rewrite room_at_set_room. simpl.
    by rewrite decide_True. }
  assert (Hleft : ∀ it', it' ∈ Room.items (current_room g') →
                         ¬ same_name (Item.name it') item_name).
  { rewrite Hroom'. intros it' Hin' Hsame.
    assert (Item.name it' = Item.name it) as Heq.
    { apply item_ok_match in Hsame, Hname; [congruence| |].
      - by eapply Forall_lookup_1.
      - eapply Forall_forall; [exact Hitems|]. by eapply list_elem_of_delete_inv. }
    apply (NoDup_delete_lookup (Item.name <$> Room.items (current_room g)) i (Item.name it)).
    - done.
    - by rewrite list_lookup_fmap, Hi.
    - rewrite <- list_fmap_delete, <- Heq. by apply list_elem_of_fmap_2. }
  split_and!; [done|done|set_solver| |done| |done|].
  - intros Hin. by apply (Hleft it Hin).
  - intros r Hr. unfold g', after_take. rewrite room_at_set_room.
    by rewrite decide_False by tauto.
  - pose proof (cmd_take_run item_name w') as Hrun'. simpl in Hrun'.
    fold g' in Hrun'.
    destruct (list_find _ (Room.items (current_room g'))) as [[j it']|] eqn:Hfind'; [|done].
    apply list_find_Some in Hfind' as (Hj & Hname' & _). exfalso.
    apply (Hleft it'); [by eapply list_elem_of_lookup_2|].
    unfold same_name. rewrite Hname'. by rewrite lower_idemp.
Qed.

Lemma cmd_take_spec_witness :
  ∃ w w' : World,
    Room.items (current_room (game w))
    = [Item.init "Small Potion" "A red potion. Restores 10 HP." 10 0]
    ∧ Game.cmd_take "Small POTION" w = Ok tt w'
    ∧ Room.items (current_room (game w')) = []
    ∧ Player.inventory (player (game w'))
      = [Item.init "Small Potion" "A red potion. Restores 10 HP." 10 0]
    ∧ Game.cmd_take "Small POTION" w' = Ok tt (printed ["No such item here."] w').
Proof.
  set (w := boot (Rng.mk (λ _, 0%N) (λ _, 0%float) 0 0) []).
  pose proof (cmd_take_spec "Small POTION" w reachable_init) as H.
  simpl in H. destruct H as (Hrun & Hroom & Hinv & _ & _ & _ & _ & _ & Hagain).
  eexists w, _. split; [done|]. split; [exact Hrun|].
  split; [exact Hroom|]. split; [exact Hinv|exact Hagain].
Defined.

(** ** Runs of the main loop *)

(** The world after [n] executions of the body of the main loop (fewer if
    one of them does not return). *)
Fixpoint run_turns (fuel n : nat) (w : World) : World :=
  match n with
  | O => w
  | S n' =>
      match Game.start_body fuel w with
      | Ok _ w' => run_turns fuel n' w'
      | _ => w
      end
  end.

Lemma reachable_run_turns fuel n w :
  reachable (game w) → reachable (game (run_turns fuel n w)).
Proof.
  revert w. induction n as [|n IH]; intros w Hw; simpl; [done|].
  destruct (Game.start_body fuel w) as [again w'| |] eqn:Hbody; [|done..].
  apply IH. by eapply reachable_turn.
Qed.

(** ** Dead enemies *)

(** The room without the enemies that are not alive. *)
Definition without_dead (es : list Enemy.t) (r : Room.t) : Room.t :=
  Room.mk (Room.name r) (Room.description r) (Room.items r)
          (filter (λ e, Enemy.is_alive (es !!! e) = true) (Room.enemies r))
          (Room.exits r).

Lemma filter_fmap_filter {A B} (f : A → B) (P : B → Prop) (Q : A → Prop)
    `{!∀ y, Decision (P y)} `{!∀ x, Decision (Q x)} (l : list A) :
  (∀ x, Q x ↔ P (f x)) →
  filter P (f <$> filter Q l) = filter P (f <$> l).
Proof.
  intros HQ. induction l as [|x l IH]; [done|].
  rewrite (filter_cons Q), (fmap_cons f x l).
  destruct (decide (Q x)) as [Hx|Hx].
  - rewrite fmap_cons, !filter_cons_True by by apply HQ. by rewrite IH.
  - rewrite filter_cons_False; [done|]. by rewrite <- HQ.
Qed.

Lemma filter_fmap_nil {A B} (f : A → B) (P : B → Prop) (Q : A → Prop)
    `{!∀ y, Decision (P y)} `{!∀ x, Decision (Q x)} (l : list A) :
  (∀ x, Q x ↔ P (f x)) →
  filter Q l = [] → filter P (f <$> l) = [].
Proof.
  intros HQ. induction l as [|x l IH]; [done|].
  rewrite (filter_cons Q), (fmap_cons f x l).
  destruct (decide (Q x)) as [Hx|Hx]; [done|].
  intros Hl. rewrite filter_cons_False; [by apply IH|]. by rewrite <- HQ.
Qed.

Lemma get_description_without_dead es r :
  Room.get_description es r = Room.get_description es (without_dead es r).
Proof.
  unfold Room.get_description, without_dead.
  cbn [Room.name Room.description Room.items Room.enemies Room.exits].
  rewrite filter_fmap_filter by done.
  destruct (Room.enemies r) as [|e l] eqn:Hen; [done|].
  destruct (filter _ (e :: l)) eqn:Hf; [|done].
  by rewrite (filter_fmap_nil (λ r, es !!! r) (λ x, Enemy.is_alive x = true) _ _
                (λ x, reflexivity _) Hf).
Qed.

(** From [g] to [g'] no enemy gained health, the enemies that were not
    alive are untouched, and every room lists the same enemies. *)
Definition enemies_kept (g g' : GameState) : Prop :=
  (∀ e, Enemy.hp (enemy_at g' e) ≤ Enemy.hp (enemy_at g e))
  ∧ (∀ e, Enemy.hp (enemy_at g e) ≤ 0 → enemy_at g' e = enemy_at g e)
  ∧ (∀ r, Room.enemies (room_at g' r) = Room.enemies (room_at g r)).

Lemma frame_enemies_kept g g' : frame g g' → enemies_kept g g'.
Proof.
  intros Hframe. split_and!.
  - intros e. by destruct (frame_enemy _ _ Hframe e) as (_ & _ & _ & ? & _).
  - intros e. by destruct (frame_enemy _ _ Hframe e) as (_ & _ & _ & _ & ?).
  - intros r. by destruct (frame_room _ _ Hframe r) as (_ & _ & ? & _).
Qed.

(** C5.  In a reachable state: a command, and a turn of the main loop,
    that returns leaves every enemy with health 0 or below exactly as it
    was, raises no enemy's health, and leaves every room's enemy list as it
    was; the enemy [fight] selects has health above 0; the description of a
    room is the description of the room without its dead enemies; and
    [fight <name>], when every enemy of the current room that matches the
    name case-insensitively has health 0 or below, prints the failure line
    and changes nothing. *)
Theorem dead_enemy_spec (fuel : nat) (cmd_line enemy_name : string) (w : World) :
  let g := game w in
  reachable g →
  (∀ w', Game.handle_command fuel cmd_line w = Ok tt w' → enemies_kept g (game w'))
  ∧ (∀ again w', Game.start_body fuel w = Ok again w' → enemies_kept g (game w'))
  ∧ (∀ e, Game.find_enemy_in_room enemy_name g = Some e → 0 < Enemy.hp (enemy_at g e))
  ∧ (∀ r, Room.get_description (enemy_store g) (room_at g r)
          = Room.get_description (enemy_store g) (without_dead (enemy_store g) (room_at g r)))
  ∧ ((∀ e, e ∈ Room.enemies (current_room g) →
           same_name (Enemy.name (enemy_at g e)) enemy_name →
           Enemy.hp (enemy_at g e) ≤ 0) →
     Game.cmd_fight fuel enemy_name w = Ok tt (printed ["No such enemy here."] w)).
Proof.
  intros g Hreach. apply reachable_sound in Hreach as [_ Hinv].
  split_and!.
  - intros w' Hrun. pose proof (keeps_handle_command fuel cmd_line w) as Hk.
    rewrite Hrun in Hk. apply frame_enemies_kept, Hk.
  - intros again w' Hrun. pose proof (keeps_start_body fuel w) as Hk.
    rewrite Hrun in Hk. apply frame_enemies_kept, Hk.
  - intros e (_ & _ & Halive)%find_enemy_in_room_Some.
    by apply bool_decide_eq_true in Halive.
  - intros r. apply get_description_without_dead.
  - intros Hdead. unfold Game.cmd_fight, Game.cmd_fight_with. run_m. fold g.
    destruct (Game.find_enemy_in_room enemy_name g) as [e|] eqn:Hfind; [|done].
    apply find_enemy_in_room_Some in Hfind as (Hhere & Hname & Halive).
    apply bool_decide_eq_true in Halive.
    assert (Enemy.hp (enemy_at g e) ≤ 0); [|lia].
    apply Hdead; [done|]. unfold same_name.
    rewrite Hname. by rewrite lower_idemp.
Qed.

(** A sample run: every integer draw is 3, every float draw 0.25; the
    player takes the potion of the foyer, goes north, kills the goblin in
    two rounds, and takes the potion it dropped. *)
Definition sample_rng : Rng.t := Rng.mk (λ _, 3%N) (λ _, 0.25%float) 0 0.

Definition sample_run (turns : nat) : World :=
  run_turns 14 turns
    (boot sample_rng
          ["take small potion"; "go north"; "fight goblin"; "c"; "take small potion"]).

Lemma sample_run_reachable turns : reachable (game (sample_run turns)).
Proof. apply reachable_run_turns, reachable_init. Qed.

(** Taking the potion of the foyer and using it: health 30 + 10, and the
    inventory is empty again. *)
Example foyer_potion_scenario :
  Player.hp (player (game (run_turns 0 2
     (boot sample_rng ["take small potion"; "use small potion"])))) = 40
  ∧ Player.inventory (player (game (run_turns 0 2
     (boot sample_rng ["take small potion"; "use small potion"])))) = [].
Proof. split; vm_compute; reflexivity. Qed.

Lemma dead_enemy_spec_witness :
  Enemy.hp (enemy_at (game (sample_run 3)) Game.goblin_ref) = -2
  ∧ Room.enemies (current_room (game (sample_run 3))) = [Game.goblin_ref]
  ∧ Game.cmd_fight 5 "Goblin" (sample_run 3)
    = Ok tt (printed ["No such enemy here."] (sample_run 3)).
Proof.
  assert (Hhp : Enemy.hp (enemy_at (game (sample_run 3)) Game.goblin_ref) = -2).
  { vm_compute. reflexivity. }
  assert (Hen : Room.enemies (current_room (game (sample_run 3))) = [Game.goblin_ref]).
  { vm_compute. reflexivity. }
  split; [exact Hhp|]. split; [exact Hen|].
  destruct (dead_enemy_spec 5 "look" "Goblin" (sample_run 3) (sample_run_reachable 3))
    as (_ & _ & _ & _ & Hfight).
  apply Hfight. intros e He _. rewrite Hen in He.
  apply list_elem_of_singleton in He. rewrite He, Hhp. lia.
Defined.

(** ** The safe room *)

(** In every reachable state the key "foyer" of [rooms] is the foyer, so
    the room a fleeing player lands in is the foyer. *)
Lemma reachable_foyer g : reachable g → rooms g !! "foyer" = Some Game.foyer_ref.
Proof.
  intros [Hframe _]%reachable_sound. by rewrite (frame_rooms _ _ Hframe).
Qed.

(** ** Fleeing *)

(** The prompt, answered with [flee]. *)
Lemma fight_prompt_flee handle w line rest :
  stdin w = line :: rest →
  PyStr.lower (PyStr.strip line) = "flee" →
  ∃ w', Game.fight_prompt handle w = Ok (Some PlayerFlees) w'
        ∧ game w' = set_player
                      (Player.set_current_room
                         (default (Player.current_room (player (game w)))
                                  (rooms (game w) !! "foyer"))
                         (player (game w)))
                      (game w)
        ∧ rng w' = rng w
        ∧ stdin w' = rest.
Proof.
  intros Hin Hflee. unfold Game.fight_prompt, input. run_m.
  rewrite Hin, Hflee. simpl. by eexists.
Qed.

(** C2.  A round of a fight, begun in a reachable state, reaches the prompt
    in the world [w2] (after the player's hit and the enemy's hit, both
    combatants alive) and the line read there is [flee], in any letter case
    and with blanks around it.  Then the loop returns at once; the game
    state is that of [w2] with the player's current room replaced by the
    foyer, whatever room the fight was in; the player's health and every
    enemy's are those of [w2], and only that one line was read. *)
Theorem flee_ends_combat (fuel : nat) (enemy : ref) (w w1 w2 : World)
    (line : string) (rest : list string) :
  reachable (game w) →
  Enemy.is_alive (enemy_at (game w) enemy) = true →
  Player.is_alive (player (game w)) = true →
  Game.player_attack enemy w = Ok tt w1 →
  Enemy.is_alive (enemy_at (game w1) enemy) = true →
  Game.enemy_turn enemy w1 = Ok tt w2 →
  Player.is_alive (player (game w2)) = true →
  stdin w2 = line :: rest →
  PyStr.lower (PyStr.strip line) = "flee" →
  ∃ w', Game.fight_loop (S fuel) enemy w = Ok (Some PlayerFlees) w'
        ∧ game w' = set_player (Player.set_current_room Game.foyer_ref (player (game w2)))
                               (game w2)
        ∧ Player.current_room (player (game w')) = Game.foyer_ref
        ∧ Player.hp (player (game w')) = Player.hp (player (game w2))
        ∧ enemy_store (game w') = enemy_store (game w2)
        ∧ stdin w' = rest.
Proof.
  intros Hreach He Hp Hrun1 He1 Hrun2 Hp2 Hin Hflee.
  assert (Hfoyer : rooms (game w2) !! "foyer" = Some Game.foyer_ref).
  { destruct (player_attack_run enemy w) as (w1' & Hrun1' & Hg1 & _).
    assert (w1' = w1) as -> by congruence.
    destruct (enemy_turn_run enemy w1) as (w2' & Hrun2' & Hg2 & _).
    assert (w2' = w2) as -> by congruence.
    rewrite Hg2, Hg1. simpl. by apply reachable_foyer. }
  destruct (fight_prompt_flee (Game.handle_command fuel) w2 line rest Hin Hflee)
    as (w' & Hprompt & Hg' & _ & Hin').
  rewrite Hfoyer in Hg'; simpl in Hg'.
  exists w'. split.
  { apply fight_loop_exit; [done..|].
    by rewrite (fight_round_steps _ enemy w w1 Hrun1), He1, Hrun2, Hp2. }
  by rewrite Hg'.
Qed.

Lemma flee_ends_combat_witness :
  ∃ w w' : World,
    Player.current_room (player (game w)) = Game.hall_ref
    ∧ stdin w = ["  FLEE "]
    ∧ Game.fight_loop 1 Game.goblin_ref w = Ok (Some PlayerFlees) w'
    ∧ Player.current_room (player (game w')) = Game.foyer_ref
    ∧ Player.hp (player (game w')) = 26
    ∧ Enemy.hp (enemy_at (game w') Game.goblin_ref) = 6.
Proof.
  set (w := mkWorld (game (sample_run 2)) sample_rng ["  FLEE "] []).
  assert (Hreach : reachable (game w)) by apply sample_run_reachable.
  destruct (player_attack_run Game.goblin_ref w) as (w1 & Hrun1 & Hg1 & Hrng1 & Hin1 & _).
  destruct (enemy_turn_run Game.goblin_ref w1) as (w2 & Hrun2 & Hg2 & _ & Hin2 & _).
  unfold damage_to_player, enemy_roll in Hg2. rewrite Hrng1, Hg1 in Hg2.
  assert (He : Enemy.is_alive (enemy_at (game w) Game.goblin_ref) = true).
  { vm_compute. reflexivity. }
  assert (Hp : Player.is_alive (player (game w)) = true).
  { vm_compute. reflexivity. }
  assert (He1 : Enemy.is_alive (enemy_at (game w1) Game.goblin_ref) = true).
  { rewrite Hg1. vm_compute. reflexivity. }
  assert (Hp2 : Player.is_alive (player (game w2)) = true).
  { rewrite Hg2. vm_compute. reflexivity. }
  assert (Hin : stdin w2 = ["  FLEE "]).
  { rewrite Hin2, Hin1. reflexivity. }
  destruct (flee_ends_combat 0 Game.goblin_ref w w1 w2 "  FLEE " []
              Hreach He Hp Hrun1 He1 Hrun2 Hp2 Hin eq_refl)
    as (w' & Hloop & Hg' & Hroom & Hhp & Hes & _).
  exists w, w'. split_and!; [vm_compute; reflexivity|done|exact Hloop|exact Hroom| |].
  - rewrite Hhp, Hg2. vm_compute. reflexivity.
  - unfold enemy_at. rewrite Hes, Hg2. vm_compute. reflexivity.
Defined.

(** ** Names of items *)

(** The items of a list have pairwise different names, letter case ignored. *)
Definition unique_names (l : list Item.t) : Prop :=
  NoDup (PyStr.lower <$> (Item.name <$> l)).

Lemma lower_names_ok (l : list Item.t) :
  Forall item_ok l → PyStr.lower <$> (Item.name <$> l) = Item.name <$> l.
Proof.
  induction 1 as [|it l Hit _ IH]; [done|].
  rewrite !fmap_cons. unfold item_ok in Hit. by rewrite Hit, IH.
Qed.

(** C6, as stated, fails: after the sample run the inventory holds two
    items named "small potion" (the one of the foyer and the goblin's). *)
Lemma inventory_names_repeat :
  ¬ (∀ g, reachable g →
          unique_names (Player.inventory (player g))
          ∧ ∀ r, unique_names (Room.items (room_at g r))).
Proof.
  intros Hclaim.
  destruct (Hclaim (game (sample_run 4)) (sample_run_reachable 4)) as [Hinv _].
  assert (Hnames : PyStr.lower <$> (Item.name <$> Player.inventory (player (game (sample_run 4))))
                   = ["small potion"; "small potion"]).
  { vm_compute. reflexivity. }
  unfold unique_names in Hinv. rewrite Hnames in Hinv.
  apply NoDup_cons in Hinv as [Hnotin _]. apply Hnotin. by left.
Qed.

(** C6, amended.  In every reachable game state the items of each room have
    pairwise different names, letter case ignored.  (The inventory is left
    out: it can hold several items of one name.) *)
Theorem room_item_names_unique (g : GameState) (r : ref) :
  reachable g → unique_names (Room.items (room_at g r)).
Proof.
  intros [_ Hinv]%reachable_sound.
  destruct (invariant_room_at g r Hinv) as (Hitems & Hnodup & _).
  unfold unique_names. by rewrite lower_names_ok.
Qed.

Lemma room_item_names_unique_witness :
  Item.name <$> Room.items (room_at (game (sample_run 3)) Game.hall_ref) = ["small potion"]
  ∧ unique_names (Room.items (room_at (game (sample_run 3)) Game.hall_ref)).
Proof.
  split; [vm_compute; reflexivity|].
  apply (room_item_names_unique (game (sample_run 3)) Game.hall_ref).
  apply sample_run_reachable.
Defined.

(** ** Termination of combat *)

(** A round lowers the health of its enemy by at least 1. *)
Lemma fight_round_lowers fuel enemy w out w' :
  Enemy.is_alive (enemy_at (game w) enemy) = true →
  Game.fight_round (Game.handle_command fuel) enemy w = Ok out w' →
  Enemy.hp (enemy_at (game w') enemy) ≤ Enemy.hp (enemy_at (game w) enemy) - 1.
Proof.
  intros Halive Hrun. pose proof (fight_round_run fuel enemy w Halive) as Hround.
  rewrite Hrun in Hround.
  destruct Hround as (d & p' & drop & Hd & -> & _).
  pose proof (alive_enemy_in_store _ _ Halive) as Hin.
  assert (enemy_at (round_result (game w) enemy d p' drop) enemy
          = Enemy.take_damage d (enemy_at (game w) enemy)) as ->.
  { unfold round_result, after_drop.
    destruct drop; unfold enemy_at; simpl; by rewrite list_lookup_total_insert_eq. }
  simpl. lia.
Qed.

(** C10.  One unit of fuel is one iteration of the loop of [cmd_fight].
    Every iteration lowers the enemy's health by at least 1, whatever line
    is typed at its prompt.  So a loop entered with both combatants alive
    and with fuel for as many iterations as the enemy has health does not
    run out of it: it returns, and then by one of its three exits, the
    player's victory (the enemy's health is 0 or below), the player's
    death (the player's health is 0 or below) or the flight (the player is
    in the room registered as "foyer").  The only other way out is the
    [EOFError] of [input] when standard input ends before the fight does. *)
Theorem combat_terminates (fuel : nat) (enemy : ref) (w : World) :
  let g := game w in
  let hp0 := Enemy.hp (enemy_at g enemy) in
  Enemy.is_alive (enemy_at g enemy) = true →
  Player.is_alive (player g) = true →
  (Z.to_nat hp0 ≤ fuel)%nat →
  (∀ n w1 out w2,
     Enemy.is_alive (enemy_at (game w1) enemy) = true →
     Game.fight_round (Game.handle_command n) enemy w1 = Ok out w2 →
     Enemy.hp (enemy_at (game w2) enemy) ≤ Enemy.hp (enemy_at (game w1) enemy) - 1)
  ∧ match Game.fight_loop fuel enemy w with
    | Ok out w' =>
        (out = Some PlayerWins ∧ Enemy.hp (enemy_at (game w') enemy) ≤ 0)
        ∨ (out = Some PlayerDies ∧ Player.hp (player (game w')) ≤ 0)
        ∨ (out = Some PlayerFlees
           ∧ Player.current_room (player (game w'))
             = default (Player.current_room (player g)) (rooms g !! "foyer"))
    | Raise e w' => e = EOFError ∧ (S (length (stdin w)) < Z.to_nat hp0)%nat
    | OutOfFuel => False
    end.
Proof.
  intros g hp0 He Hp Hfuel. split.
  { intros n w1 out w2. apply fight_round_lowers. }
  pose proof (fight_loop_run fuel enemy w) as Hloop. simpl in Hloop.
  fold g in Hloop. fold hp0 in Hloop.
  destruct (Game.fight_loop fuel enemy w) as [out w'|ex w'|]; [|done|lia].
  destruct Hloop as (_ & _ & Hout).
  destruct out as [[]|]; [by left|by right; left|by right; right|].
  destruct Hout as [Hcond _]. by rewrite He, Hp in Hcond.
Qed.

Lemma combat_terminates_witness :
  ∃ w : World,
    Enemy.hp (enemy_at (game w) Game.goblin_ref) = 14
    ∧ stdin w = replicate 13 "c"
    ∧ ∃ w', Game.fight_loop 14 Game.goblin_ref w = Ok (Some PlayerWins) w'
            ∧ Enemy.hp (enemy_at (game w') Game.goblin_ref) ≤ 0.
Proof.
  set (w := mkWorld (game (sample_run 2)) sample_rng (replicate 13 "c") []).
  exists w. split; [vm_compute; reflexivity|]. split; [reflexivity|].
  assert (He : Enemy.is_alive (enemy_at (game w) Game.goblin_ref) = true).
  { vm_compute. reflexivity. }
  assert (Hp : Player.is_alive (player (game w)) = true).
  { vm_compute. reflexivity. }
  assert (Hfuel : (Z.to_nat (Enemy.hp (enemy_at (game w) Game.goblin_ref)) ≤ 14)%nat).
  { vm_compute. lia. }
  destruct (combat_terminates 14 Game.goblin_ref w He Hp Hfuel) as [_ Hloop].
  assert (Hwin : ∃ w', Game.fight_loop 14 Game.goblin_ref w = Ok (Some PlayerWins) w').
  { vm_compute. eexists. reflexivity. }
  destruct Hwin as (w' & Hrun). rewrite Hrun in Hloop.
  exists w'. split; [exact Hrun|].
  destruct Hloop as [[_ Hhp] | [[Hout _] | [Hout _]]]; [exact Hhp|discriminate..].
Defined.

(** * Further properties *)

(** ** Exits: assignment and lookup *)

Lemma dict_get_set_eq {V} (k : string) (v : V) (d : PyDict.t V) :
  PyDict.get k (PyDict.set k v d) = Some v.
Proof.
  induction d as [|[k' v'] d IH]; simpl; [by rewrite decide_True|].
  destruct (decide (k' = k)) as [->|Hne]; simpl.
  - by rewrite decide_True.
  - by rewrite decide_False.
Qed.

Lemma dict_get_set_ne {V} (k k' : string) (v : V) (d : PyDict.t V) :
  k ≠ k' → PyDict.get k' (PyDict.set k v d) = PyDict.get k' d.
Proof.
  intros Hne. induction d as [|[k0 v0] d IH]; simpl; [by rewrite decide_False|].
  destruct (decide (k0 = k)) as [->|Hne0]; simpl.
  - by rewrite !decide_False.
  - by rewrite IH.
Qed.

Lemma dict_keys_set {V} (k : string) (v : V) (d : PyDict.t V) :
  PyDict.keys (PyDict.set k v d)
  = if decide (k ∈ PyDict.keys d) then PyDict.keys d else PyDict.keys d ++ [k].
Proof.
  unfold PyDict.keys. induction d as [|[k0 v0] d IH]; [done|].
  simpl PyDict.set. rewrite (fmap_cons fst (k0, v0) d). simpl fst.
  destruct (decide (k0 = k)) as [->|Hne].
  - rewrite fmap_cons. simpl fst. rewrite decide_True; [done|]. by left.
  - rewrite fmap_cons, IH. simpl fst.
    destruct (decide (k ∈ fst <$> d)) as [Hin|Hnotin].
    + rewrite decide_True; [done|]. by right.
    + rewrite decide_False; [done|].
      intros [Heq|Hin]%elem_of_cons; [by subst|done].
Qed.

(** X1.  [connect] is a dictionary assignment under the lower-cased
    direction: afterwards that direction leads to the room connected,
    every other direction leads where it led before, the directions there
    were keep their order, a new direction comes last, and a direction that
    was there already (in any letter case of the argument) is overwritten,
    not listed twice.  The other fields of the room are untouched. *)
Theorem connect_lookup (other_room : ref) (direction : string) (self : Room.t) :
  let key := PyStr.lower direction in
  let self' := Room.connect other_room direction self in
  PyDict.get key (Room.exits self') = Some other_room
  ∧ (∀ k, k ≠ key → PyDict.get k (Room.exits self') = PyDict.get k (Room.exits self))
  ∧ PyDict.keys (Room.exits self')
    = (if decide (key ∈ PyDict.keys (Room.exits self))
       then PyDict.keys (Room.exits self)
       else PyDict.keys (Room.exits self) ++ [key])
  ∧ (NoDup (PyDict.keys (Room.exits self)) → NoDup (PyDict.keys (Room.exits self')))
  ∧ Room.items self' = Room.items self
  ∧ Room.enemies self' = Room.enemies self.
Proof.
  intros key self'. unfold self', Room.connect. simpl. fold key.
  split_and!; [apply dict_get_set_eq| |apply dict_keys_set| |done|done].
  - intros k Hk. by apply dict_get_set_ne.
  - intros Hnd. rewrite dict_keys_set. case_decide as Hin; [done|].
    apply NoDup_app. split_and!; [done| |apply NoDup_singleton].
    intros x Hx ->%list_elem_of_singleton. done.
Qed.

(** ** The whole effect of a fight *)

(** [p'] is [p] but for room, health and inventory, and the inventory is a
    sublist of what it was. *)
Definition player_kept (p p' : Player.t) : Prop :=
  Player.name p' = Player.name p
  ∧ Player.base_attack p' = Player.base_attack p
  ∧ Player.inventory p' `sublist_of` Player.inventory p.

Lemma player_kept_refl p : player_kept p p.
Proof. by split_and!. Qed.

Lemma player_kept_trans p1 p2 p3 : player_kept p1 p2 → player_kept p2 p3 → player_kept p1 p3.
Proof.
  intros (?&?&?) (?&?&?). split_and!; [congruence..|by etrans].
Qed.

Lemma cmd_use_effect item_name w :
  ∃ w' p', Game.cmd_use item_name w = Ok tt w'
           ∧ game w' = set_player p' (game w)
           ∧ player_kept (player (game w)) p'
           ∧ Player.current_room p' = Player.current_room (player (game w))
           ∧ Player.hp (player (game w)) ≤ Player.hp p'
           ∧ rng w' = rng w
           ∧ stdin w' = stdin w.
Proof.
  unfold Game.cmd_use. run_m.
  destruct (list_find _ _) as [[i it]|] eqn:Hfind.
  - destruct (bool_decide (0 < Item.heal it)) eqn:Hheal; simpl.
    + apply bool_decide_eq_true in Hheal.
      eexists _, _. split; [reflexivity|]. simpl. split; [done|].
      split_and!; simpl; try done; [|lia].
      split_and!; simpl; [done|done|apply sublist_delete].
    + eexists _, (player (game w)). split; [reflexivity|]. simpl.
      rewrite set_player_same. split_and!; done || lia || apply player_kept_refl.
  - eexists _, (player (game w)). split; [reflexivity|]. simpl.
    rewrite set_player_same. split_and!; done || lia || apply player_kept_refl.
Qed.

(** The prompt, in full: one line is read, the generator is not used, and
    of the game state only the player changes; an answer other than [flee]
    leaves the player in the room, and [flee] changes the room only. *)
Lemma fight_prompt_effect fuel w :
  let p := player (game w) in
  match Game.fight_prompt (Game.handle_command fuel) w with
  | Ok out w' =>
      ∃ line p',
        stdin w = line :: stdin w'
        ∧ rng w' = rng w
        ∧ game w' = set_player p' (game w)
        ∧ player_kept p p'
        ∧ match out with
          | None => Player.current_room p' = Player.current_room p
                    ∧ Player.hp p ≤ Player.hp p'
          | Some PlayerFlees =>
              p' = Player.set_current_room
                     (default (Player.current_room p) (rooms (game w) !! "foyer")) p
          | Some _ => False
          end
  | Raise e w' => e = EOFError ∧ stdin w = [] ∧ game w' = game w
  | OutOfFuel => False
  end.
Proof.
  intros p. unfold Game.fight_prompt, input.
  unfold mbind at 1. unfold M_bind at 1.
  destruct (stdin w) as [|line rest] eqn:Hin; [done|].
  set (w0 := mkWorld _ _ _ _).
  destruct (decide (_ = "flee")) as [Hflee|Hflee].
  { run_m. exists line. eexists. split_and!; try reflexivity. by split_and!. }
  destruct (PyStr.startswith _ "use ") eqn:Huse.
  { destruct (handle_command_from_prompt (Game.cmd_fight fuel) line Huse)
      as (item_name & Hhandle).
    unfold Game.handle_command. rewrite Hhandle.
    destruct (cmd_use_effect item_name w0)
      as (w' & p' & Hrun & Hg' & Hkept & Hroom & Hhp & Hrng & Hin').
    unfold mbind at 1. unfold M_bind at 1. rewrite Hrun. run_m.
    exists line, p'. rewrite Hin', Hrng, Hg'. by split_and!. }
  assert (Hsame : ∃ line' p', line :: rest = line' :: stdin w0
            ∧ rng w0 = rng w
            ∧ game w0 = set_player p' (game w)
            ∧ player_kept p p'
            ∧ Player.current_room p' = Player.current_room p
            ∧ Player.hp p ≤ Player.hp p').
  { exists line, p. unfold p. simpl. rewrite set_player_same.
    split_and!; done || lia || apply player_kept_refl. }
  destruct (decide (_ ∨ _)); run_m; exact Hsame.
Qed.

(** A round of the game, in full. *)
Lemma fight_round_effect fuel enemy w :
  let g := game w in
  let p := player g in
  Enemy.is_alive (enemy_at g enemy) = true →
  match Game.fight_round (Game.handle_command fuel) enemy w with
  | Ok out w' =>
      ∃ p' drop,
        let d := damage_to_enemy w in
        game w' = round_result g enemy d p' drop
        ∧ player_kept p p'
        ∧ match out with
          | Some PlayerWins => Enemy.hp (enemy_at g enemy) - d ≤ 0 ∧ p' = p
          | Some PlayerDies =>
              drop = false ∧ 0 < Enemy.hp (enemy_at g enemy) - d
              ∧ Player.hp p' ≤ 0
              ∧ p' = Player.set_hp (Player.hp p') p
          | Some PlayerFlees =>
              drop = false ∧ 0 < Enemy.hp (enemy_at g enemy) - d
              ∧ 0 < Player.hp p'
              ∧ Player.current_room p'
                = default (Player.current_room p) (rooms g !! "foyer")
          | None =>
              drop = false ∧ 0 < Enemy.hp (enemy_at g enemy) - d
              ∧ 0 < Player.hp p'
              ∧ Player.current_room p' = Player.current_room p
          end
  | Raise e w' => e = EOFError
  | OutOfFuel => False
  end.
Proof.
  intros g p Halive. pose proof (alive_enemy_in_store _ _ Halive) as Hin.
  destruct (player_attack_run enemy w) as (w1 & Hrun1 & Hg1 & _ & Hin1 & _).
  fold g in Hg1. set (d := damage_to_enemy w) in *.
  assert (Hat : enemy_at (game w1) enemy = Enemy.take_damage d (enemy_at g enemy)).
  { rewrite Hg1. by apply enemy_at_set_enemy_eq. }
  rewrite (fight_round_steps _ enemy w w1 Hrun1).
  destruct (Enemy.is_alive (enemy_at (game w1) enemy)) eqn:He1.
  - apply bool_decide_eq_true in He1. rewrite Hat in He1; simpl in He1.
    destruct (enemy_turn_run enemy w1) as (w2 & Hrun2 & Hg2 & _ & Hin2 & _).
    rewrite Hrun2.
    destruct (Player.is_alive (player (game w2))) eqn:Hp2.
    + apply bool_decide_eq_true in Hp2.
      pose proof (fight_prompt_effect fuel w2) as Hprompt. simpl in Hprompt.
      destruct (Game.fight_prompt _ w2) as [out w'|ex w'|]; [| |done].
      2:{ by destruct Hprompt as (-> & _). }
      destruct Hprompt as (line & p' & _ & _ & Hg' & Hkept & Hout).
      rewrite Hg2, Hg1 in Hkept, Hout, Hp2; simpl in Hkept, Hout, Hp2.
      exists p', false. split; [by rewrite Hg', Hg2, Hg1|].
      split; [done|].
      destruct out as [[]|]; try done.
      * subst p'. simpl. split_and!; [done|lia|lia|done].
      * destruct Hout as [Hroom Hhp]. split_and!; [done|lia|lia|done].
    + apply bool_decide_eq_false in Hp2.
      exists (player (game w2)), false. split; [by simpl; rewrite Hg2, Hg1|].
      rewrite Hg2, Hg1 in Hp2 |- *. simpl in Hp2 |- *.
      split; [by split_and!|]. split_and!; [done|lia|lia|done].
  - apply bool_decide_eq_false in He1. rewrite Hat in He1; simpl in He1.
    destruct (enemy_defeated_run enemy w1) as (w' & Hrun & Hg' & _ & Hin').
    rewrite Hrun. exists p, (drop_draw w1 <? 0.4)%float.
    split.
    { rewrite Hg', Hg1. unfold round_result, after_drop, current_room. simpl.
      fold g. by destruct g. }
    split; [apply player_kept_refl|]. split; [lia|done].
Qed.

Lemma take_damage_twice d1 d2 x :
  Enemy.take_damage d2 (Enemy.take_damage d1 x) = Enemy.take_damage (d1 + d2) x.
Proof. unfold Enemy.take_damage. simpl. f_equal. lia. Qed.

(** A round that goes on, followed by the rest of the fight, adds up. *)
Lemma round_result_compose g enemy d1 p1 d2 p2 drop :
  (enemy < length (enemy_store g))%nat →
  round_result (round_result g enemy d1 p1 false) enemy d2 p2 drop
  = round_result g enemy (d1 + d2) p2 drop.
Proof.
  intros Hin. unfold round_result at 2. cbn match.
  unfold round_result. cbn zeta.
  change (enemy_at (set_player ?p ?h) ?x) with (enemy_at h x).
  rewrite enemy_at_set_enemy_eq by done. rewrite take_damage_twice.
  assert (set_player p2
            (set_enemy enemy (Enemy.take_damage (d1 + d2) (enemy_at g enemy))
               (set_player p1
                  (set_enemy enemy (Enemy.take_damage d1 (enemy_at g enemy)) g)))
          = set_player p2
              (set_enemy enemy (Enemy.take_damage (d1 + d2) (enemy_at g enemy)) g)) as ->.
  { unfold set_player, set_enemy. simpl. by rewrite list_insert_insert_eq. }
  done.
Qed.

(** The whole loop.  It returns without a round only when one of the two is
    not alive at its head.  Otherwise the game state it returns is the
    initial one with the enemy's health lowered by the total damage [D],
    the player replaced, and the potion dropped or not; the player kept
    name and base attack and gained no item; the player left the room only
    by fleeing. *)
Lemma fight_loop_effect fuel enemy w :
  let g := game w in
  let p := player g in
  match Game.fight_loop fuel enemy w with
  | Ok None w' =>
      w' = w ∧ Enemy.is_alive (enemy_at g enemy) && Player.is_alive p = false
  | Ok (Some out) w' =>
      ∃ D p' drop,
        1 ≤ D
        ∧ game w' = round_result g enemy D p' drop
        ∧ player_kept p p'
        ∧ match out with
          | PlayerWins =>
              Enemy.hp (enemy_at g enemy) - D ≤ 0
              ∧ Player.current_room p' = Player.current_room p
          | PlayerDies =>
              drop = false ∧ 0 < Enemy.hp (enemy_at g enemy) - D
              ∧ Player.hp p' ≤ 0
              ∧ Player.current_room p' = Player.current_room p
          | PlayerFlees =>
              drop = false ∧ 0 < Enemy.hp (enemy_at g enemy) - D
              ∧ 0 < Player.hp p'
              ∧ Player.current_room p'
                = default (Player.current_room p) (rooms g !! "foyer")
          end
  | _ => True
  end.
Proof.
  revert w. induction fuel as [|fuel IH]; intros w g p.
  { destruct (Enemy.is_alive (enemy_at g enemy) && Player.is_alive p) eqn:Hcond.
    - unfold Game.fight_loop, mbind, M_bind, get_game. fold g p. by rewrite Hcond.
    - by rewrite fight_loop_not_entered. }
  rewrite fight_loop_unfold. fold g p.
  destruct (Enemy.is_alive (enemy_at g enemy) && Player.is_alive p) eqn:Hcond; [|done].
  apply andb_true_iff in Hcond as [He Hp].
  pose proof (fight_round_effect fuel enemy w He) as Hround. fold g p in Hround.
  pose proof (alive_enemy_in_store _ _ He) as Hin.
  assert (Hd : 1 ≤ damage_to_enemy w) by (unfold damage_to_enemy; lia).
  destruct (Game.fight_round _ enemy w) as [out w1|ex w1|]; [|done..].
  destruct Hround as (p1 & drop1 & Hg1 & Hkept1 & Hout1). cbn zeta in Hg1, Hout1.
  set (d := damage_to_enemy w) in *.
  destruct out as [out|].
  { exists d, p1, drop1. split; [done|]. split; [done|]. split; [done|].
    destruct out.
    - destruct Hout1 as [? ->]. done.
    - destruct Hout1 as (? & ? & ? & Hp1). split_and!; try done. by rewrite Hp1.
    - done. }
  destruct Hout1 as (-> & He1 & Hp1 & Hroom1).
  specialize (IH w1). cbn zeta in IH.
  assert (Hat1 : enemy_at (game w1) enemy = Enemy.take_damage d (enemy_at g enemy)).
  { rewrite Hg1. unfold round_result.
    change (enemy_at (set_player ?q ?h) ?x) with (enemy_at h x).
    by rewrite enemy_at_set_enemy_eq. }
  assert (Hpl1 : player (game w1) = p1) by by rewrite Hg1.
  assert (Hrooms1 : rooms (game w1) = rooms g) by by rewrite Hg1.
  destruct (Game.fight_loop fuel enemy w1) as [[out|] w'| |]; [| |done..].
  - destruct IH as (D & p2 & drop & HD & Hg' & Hkept2 & Hout).
    rewrite Hat1, Hpl1, Hrooms1 in Hout. simpl in Hout.
    exists (d + D), p2, drop. split; [lia|]. split.
    { rewrite Hg', Hg1. by apply round_result_compose. }
    split; [rewrite Hpl1 in Hkept2; by eapply player_kept_trans|].
    destruct out.
    + destruct Hout as [? ?]. split; [lia|congruence].
    + destruct Hout as (? & ? & ? & ?). split_and!; [done|lia|done|congruence].
    + destruct Hout as (? & ? & ? & ?). split_and!; [done|lia|done|congruence].
  - destruct IH as [_ Hcond]. exfalso.
    rewrite Hat1, Hpl1 in Hcond.
    apply andb_false_iff in Hcond as [Hc|Hc]; apply bool_decide_eq_false in Hc;
      simpl in Hc; lia.
Qed.

(** ** Commands, one handler at a time *)

(** A command that returns either left the game state alone (it printed
    only) or was one call of [cmd_go], [cmd_take], [cmd_fight] or
    [cmd_use]. *)
Lemma handle_command_cases fuel cmd_line w w' :
  Game.handle_command fuel cmd_line w = Ok tt w' →
  game w' = game w
  ∨ (∃ direction, Game.cmd_go direction w = Ok tt w')
  ∨ (∃ item_name, Game.cmd_take item_name w = Ok tt w')
  ∨ (∃ enemy_name, Game.cmd_fight fuel enemy_name w = Ok tt w')
  ∨ (∃ item_name, Game.cmd_use item_name w = Ok tt w').
Proof.
  assert (Hprints : ∀ m : M unit, prints_only m → m w = Ok tt w' → game w' = game w).
  { intros m Hm Hrun. destruct (Hm w) as (out & Hout).
    rewrite Hout in Hrun. by simplify_eq. }
  unfold Game.handle_command, Game.handle_command_with.
  destruct (PyStr.split cmd_line) as [|cmd args]; [done|].
  repeat case_decide.
  - intros ?%(Hprints _ prints_only_help). by left.
  - intros Hrun. left. revert Hrun. apply Hprints, prints_only_get.
    intros g. apply prints_only_print.
  - intros ?%(Hprints _ prints_only_inventory). by left.
  - destruct args; [intros ?%(Hprints _ (prints_only_print _)); by left|].
    intros Hrun. right; left. by eexists.
  - destruct args; [intros ?%(Hprints _ (prints_only_print _)); by left|].
    intros Hrun. right; right; left. by eexists.
  - destruct args; [intros ?%(Hprints _ (prints_only_print _)); by left|].
    intros Hrun. right; right; right; left. by eexists.
  - destruct args; [intros ?%(Hprints _ (prints_only_print _)); by left|].
    intros Hrun. right; right; right; right. by eexists.
  - intros ?%(Hprints _ (prints_only_print _)). by left.
Qed.

(** An execution of the body of the main loop that returns either left the
    game state alone or ran one command on it. *)
Lemma start_body_cases fuel w again w' :
  Game.start_body fuel w = Ok again w' →
  game w' = game w
  ∨ ∃ cmd_line w0, game w0 = game w
                   ∧ Game.handle_command fuel cmd_line w0 = Ok tt w'.
Proof.
  unfold Game.start_body.
  unfold mbind at 1. unfold M_bind at 1. unfold get_game at 1.
  destruct (negb _).
  { run_m. intros ?. simplify_eq. by left. }
  unfold mbind at 1. unfold M_bind at 1. unfold input.
  destruct (stdin w) as [|line rest]; [done|].
  set (w0 := mkWorld _ _ _ _).
  repeat case_decide.
  - run_m. intros ?. simplify_eq. by left.
  - run_m. intros ?. simplify_eq. by left.
  - unfold mbind, M_bind.
    destruct (Game.handle_command fuel _ w0) as [[] w1| |] eqn:Hrun; [|done..].
    unfold mret, M_ret. intros ?. simplify_eq. right.
    by exists (PyStr.lower (PyStr.strip line)), w0.
Qed.

Lemma start_intro_game w w' :
  Game.start_intro w = Ok tt w' →
  game w' = game w ∨ game w' = set_intro_shown true (game w).
Proof.
  unfold Game.start_intro. run_m.
  destruct (negb _); simpl; intros ?; simplify_eq; [by right|by left].
Qed.

(** What [cmd_fight] does, as a game state: nothing when no alive enemy of
    the room has the name; otherwise the result of the loop on that enemy. *)
Lemma cmd_fight_cases fuel enemy_name w w' :
  Game.cmd_fight fuel enemy_name w = Ok tt w' →
  game w' = game w
  ∨ ∃ enemy w0 out,
      Game.find_enemy_in_room enemy_name (game w) = Some enemy
      ∧ game w0 = game w ∧ rng w0 = rng w ∧ stdin w0 = stdin w
      ∧ Game.fight_loop fuel enemy w0 = Ok out w'.
Proof.
  unfold Game.cmd_fight, Game.cmd_fight_with.
  unfold mbind at 1. unfold M_bind at 1. unfold get_game at 1.
  destruct (Game.find_enemy_in_room enemy_name (game w)) as [enemy|] eqn:Hfind.
  - unfold mbind at 1. unfold M_bind at 1. unfold print at 1.
    set (w0 := mkWorld _ _ _ _).
    unfold mbind, M_bind.
    destruct (Game.fight_loop fuel enemy w0) as [out w1| |] eqn:Hloop; [|done..].
    unfold mret, M_ret. intros ?. simplify_eq. right. by exists enemy, w0, out.
  - run_m. intros ?. simplify_eq. by left.
Qed.

Lemma round_result_enemy_ne g enemy D p' drop e :
  e ≠ enemy → enemy_at (round_result g enemy D p' drop) e = enemy_at g e.
Proof.
  intros Hne. unfold round_result, after_drop.
  destruct drop; unfold enemy_at; simpl; by rewrite list_lookup_total_insert_ne.
Qed.

Lemma round_result_room g enemy D p' drop r :
  room_at (round_result g enemy D p' drop) r
  = if drop && bool_decide (r = Player.current_room p'
                            ∧ (Player.current_room p' < length (room_store g))%nat)
    then Room.add_item loot (room_at g r)
    else room_at g r.
Proof.
  unfold round_result. destruct drop; [|done]. cbn [andb].
  unfold after_drop. rewrite room_at_set_room. simpl.
  case_decide as H.
  - rewrite bool_decide_eq_true_2 by done. by destruct H as [-> _].
  - by rewrite bool_decide_eq_false_2.
Qed.

(** X2.  What a [fight] command that returns can have changed.  Only the
    enemy that [find_enemy_in_room] selects; no room but the room of the
    fight, and that one at most by the dropped potion appended to its
    items; of the player not the name, not the base attack, and the
    inventory only by losing items; the player's room only to the room
    registered as "foyer".  The [rooms] dictionary, the intro flag and the
    sizes of the stores stay. *)
Theorem cmd_fight_effect (fuel : nat) (enemy_name : string) (w w' : World) :
  Game.cmd_fight fuel enemy_name w = Ok tt w' →
  let g := game w in
  let g' := game w' in
  let cur := Player.current_room (player g) in
  (∀ e, Game.find_enemy_in_room enemy_name g ≠ Some e → enemy_at g' e = enemy_at g e)
  ∧ (∀ r, r ≠ cur → room_at g' r = room_at g r)
  ∧ (room_at g' cur = room_at g cur
     ∨ room_at g' cur = Room.add_item loot (room_at g cur))
  ∧ player_kept (player g) (player g')
  ∧ (Player.current_room (player g') = cur
     ∨ Player.current_room (player g') = default cur (rooms g !! "foyer"))
  ∧ rooms g' = rooms g
  ∧ intro_shown g' = intro_shown g
  ∧ length (room_store g') = length (room_store g)
  ∧ length (enemy_store g') = length (enemy_store g).
Proof.
  intros Hrun g g' cur.
  assert (Hsame : g' = g →
    (∀ e, Game.find_enemy_in_room enemy_name g ≠ Some e → enemy_at g' e = enemy_at g e)
    ∧ (∀ r, r ≠ cur → room_at g' r = room_at g r)
    ∧ (room_at g' cur = room_at g cur
       ∨ room_at g' cur = Room.add_item loot (room_at g cur))
    ∧ player_kept (player g) (player g')
    ∧ (Player.current_room (player g') = cur
       ∨ Player.current_room (player g') = default cur (rooms g !! "foyer"))
    ∧ rooms g' = rooms g
    ∧ intro_shown g' = intro_shown g
    ∧ length (room_store g') = length (room_store g)
    ∧ length (enemy_store g') = length (enemy_store g)).
  { intros ->. split_and!; first [done | by left | apply player_kept_refl]. }
  apply cmd_fight_cases in Hrun as [Hg | (enemy & w0 & out & Hfind & Hg0 & _ & _ & Hloop)];
    [by apply Hsame|].
  pose proof (fight_loop_effect fuel enemy w0) as Heff. rewrite Hloop in Heff.
  cbn zeta in Heff. rewrite Hg0 in Heff. fold g in Heff.
  destruct out as [out|]; [|destruct Heff as [-> _]; by apply Hsame].
  destruct Heff as (D & p' & drop & _ & Hg' & Hkept & Hout).
  fold g' in Hg'.
  assert (Hdrop : drop = true → Player.current_room p' = cur).
  { intros ->. destruct out; [by destruct Hout|by destruct Hout..]. }
  assert (Hp' : player g' = p').
  { rewrite Hg'. unfold round_result, after_drop. by destruct drop. }
  split_and!.
  - intros e He. rewrite Hg'. apply round_result_enemy_ne. intros ->. by apply He.
  - intros r Hr. rewrite Hg', round_result_room.
    destruct drop; [|done]. rewrite (Hdrop eq_refl). simpl.
    rewrite bool_decide_eq_false_2; [done|]. tauto.
  - rewrite Hg', round_result_room. destruct (_ && _); [by right|by left].
  - by rewrite Hp'.
  - rewrite Hp'. destruct out.
    + left. by destruct Hout.
    + left. by destruct Hout as (_ & _ & _ & ?).
    + right. by destruct Hout as (_ & _ & _ & ?).
  - rewrite Hg'. unfold round_result, after_drop. by destruct drop.
  - rewrite Hg'. unfold round_result, after_drop. by destruct drop.
  - rewrite Hg'. unfold round_result, after_drop.
    destruct drop; simpl; by rewrite ?length_insert.
  - rewrite Hg'. unfold round_result, after_drop.
    destruct drop; simpl; by rewrite ?length_insert.
Qed.

Lemma cmd_fight_effect_witness :
  ∃ w' : World,
    Game.cmd_fight 14 "Goblin" (mkWorld (game (sample_run 2)) sample_rng ["c"] [])
    = Ok tt w'
    ∧ (∀ e, e ≠ Game.goblin_ref →
            enemy_at (game w') e = enemy_at (game (sample_run 2)) e)
    ∧ (∀ r, r ≠ Game.hall_ref → room_at (game w') r = room_at (game (sample_run 2)) r).
Proof.
  set (w := mkWorld (game (sample_run 2)) sample_rng ["c"] []).
  assert (Hrun : ∃ w', Game.cmd_fight 14 "Goblin" w = Ok tt w').
  { vm_compute. eexists. reflexivity. }
  destruct Hrun as (w' & Hrun). exists w'. split; [exact Hrun|].
  destruct (cmd_fight_effect 14 "Goblin" w w' Hrun) as (Henemies & Hrooms & _).
  split.
  - intros e He. apply Henemies.
    assert (Game.find_enemy_in_room "Goblin" (game w) = Some Game.goblin_ref) as ->.
    { vm_compute. reflexivity. }
    congruence.
  - intros r Hr. apply Hrooms.
    assert (Player.current_room (player (game w)) = Game.hall_ref) as ->.
    { vm_compute. reflexivity. }
    done.
Defined.

(** ** Where the player is *)

Lemma cmd_go_room direction w w' :
  Game.cmd_go direction w = Ok tt w' →
  (PyDict.get direction (Room.exits (current_room (game w))) = None ∧ game w' = game w)
  ∨ PyDict.get direction (Room.exits (current_room (game w)))
    = Some (Player.current_room (player (game w'))).
Proof.
  unfold Game.cmd_go. run_m.
  destruct (PyDict.get direction _) as [new_room|]; intros ?; simplify_eq; [by right|by left].
Qed.

Lemma cmd_take_room item_name w w' :
  Game.cmd_take item_name w = Ok tt w' →
  Player.current_room (player (game w')) = Player.current_room (player (game w)).
Proof.
  intros Hrun. pose proof (cmd_take_run item_name w) as Htake. cbn zeta in Htake.
  destruct (list_find _ _) as [[i it]|]; rewrite Htake in Hrun; by simplify_eq.
Qed.

Lemma cmd_use_room item_name w w' :
  Game.cmd_use item_name w = Ok tt w' →
  Player.current_room (player (game w')) = Player.current_room (player (game w)).
Proof.
  intros Hrun. destruct (cmd_use_effect item_name w) as (w1 & p' & Hrun' & Hg & _ & Hroom & _).
  rewrite Hrun' in Hrun. simplify_eq. by rewrite Hg.
Qed.

Lemma cmd_fight_room fuel enemy_name w w' :
  Game.cmd_fight fuel enemy_name w = Ok tt w' →
  Player.current_room (player (game w')) = Player.current_room (player (game w))
  ∨ Player.current_room (player (game w'))
    = default (Player.current_room (player (game w))) (rooms (game w) !! "foyer").
Proof.
  intros [Hg | (enemy & w0 & out & _ & Hg0 & _ & _ & Hloop)]%cmd_fight_cases;
    [left; by rewrite Hg|].
  pose proof (fight_loop_effect fuel enemy w0) as Heff. rewrite Hloop in Heff.
  cbn zeta in Heff. rewrite Hg0 in Heff.
  destruct out as [out|]; [|destruct Heff as [-> _]; left; by rewrite Hg0].
  destruct Heff as (D & p' & drop & _ & Hg' & _ & Hout).
  assert (Hp' : player (game w') = p').
  { rewrite Hg'. unfold round_result, after_drop. by destruct drop. }
  rewrite Hp'. destruct out.
  - left. by destruct Hout.
  - left. by destruct Hout as (_ & _ & _ & ?).
  - right. by destruct Hout as (_ & _ & _ & ?).
Qed.

(** The lines still to be read are ASCII text. *)
Definition ascii_input (w : World) : Prop :=
  Forall (λ line, PyStr.isascii line = true) (stdin w).

(** X3.  A command that returns leaves the player in the room, with two
    exceptions: [go <direction>] along an exit of the current room puts the
    player in the room that exit leads to, and a [fight] can end in the
    room registered as "foyer".  No other verb moves the player.  The
    command line and the lines a fight reads are ASCII text. *)
Theorem player_moves_by_go_or_flee (fuel : nat) (cmd_line : string) (w w' : World) :
  PyStr.isascii cmd_line = true →
  ascii_input w →
  Game.handle_command fuel cmd_line w = Ok tt w' →
  let g := game w in
  let here := Player.current_room (player g) in
  let there := Player.current_room (player (game w')) in
  there = here
  ∨ (∃ direction rest,
       PyStr.split cmd_line = "go" :: direction :: rest
       ∧ PyDict.get direction (Room.exits (current_room g)) = Some there)
  ∨ (∃ arg args,
       PyStr.split cmd_line = "fight" :: arg :: args
       ∧ there = default here (rooms g !! "foyer")).
Proof.
  intros _ _ Hrun g here there.
  assert (Hprints : ∀ m : M unit, prints_only m → m w = Ok tt w' → there = here).
  { intros m Hm Hm'. destruct (Hm w) as (out & Hout).
    rewrite Hout in Hm'. unfold there, here, g. by simplify_eq. }
  revert Hrun. unfold Game.handle_command, Game.handle_command_with.
  destruct (PyStr.split cmd_line) as [|cmd args]; [done|].
  repeat case_decide; subst.
  - intros ?%(Hprints _ prints_only_help). by left.
  - intros Hrun. left. revert Hrun. apply Hprints, prints_only_get.
    intros g0. apply prints_only_print.
  - intros ?%(Hprints _ prints_only_inventory). by left.
  - destruct args as [|direction rest];
      [intros ?%(Hprints _ (prints_only_print _)); by left|].
    intros [[_ Hg] | Hgo]%cmd_go_room.
    + left. unfold there, here, g. by rewrite Hg.
    + right; left. by exists direction, rest.
  - destruct args; [intros ?%(Hprints _ (prints_only_print _)); by left|].
    intros ?%cmd_take_room. by left.
  - destruct args as [|arg args];
      [intros ?%(Hprints _ (prints_only_print _)); by left|].
    intros [Hroom | Hroom]%cmd_fight_room; [by left|].
    right; right. by exists arg, args.
  - destruct args; [intros ?%(Hprints _ (prints_only_print _)); by left|].
    intros ?%cmd_use_room. by left.
  - intros ?%(Hprints _ (prints_only_print _)). by left.
Qed.

Lemma player_moves_by_go_or_flee_witness :
  ∃ w' : World,
    Game.handle_command 0 "go  north" (boot sample_rng []) = Ok tt w'
    ∧ Player.current_room (player (game w')) = Game.hall_ref.
Proof.
  set (w := boot sample_rng []).
  assert (Hrun : ∃ w', Game.handle_command 0 "go  north" w = Ok tt w').
  { vm_compute. eexists. reflexivity. }
  destruct Hrun as (w' & Hrun). exists w'. split; [exact Hrun|].
  destruct (player_moves_by_go_or_flee 0 "go  north" w w' eq_refl (Forall_nil_2 _) Hrun)
    as [Hstay | [(direction & rest & Hsplit & Hexit) | (arg & args & Hsplit & _)]].
  - exfalso. revert Hrun Hstay. vm_compute. intros ? ?. simplify_eq.
  - assert (direction = "north") as -> by (vm_compute in Hsplit; by simplify_eq).
    vm_compute in Hexit. by simplify_eq.
  - vm_compute in Hsplit. by simplify_eq.
Defined.

(** ** References always point into the stores *)

Lemma dict_get_Some {V} (k : string) (v : V) (d : PyDict.t V) :
  PyDict.get k d = Some v → (k, v) ∈ d.
Proof.
  induction d as [|[k' v'] d IH]; simpl; [done|].
  case_decide as Hk; [|intros ?%IH; by right].
  intros ?. simplify_eq. by left.
Qed.

(** Every reference held in the game state is an index of its store. *)
Definition refs_ok (g : GameState) : Prop :=
  (Player.current_room (player g) < length (room_store g))%nat
  ∧ (∀ r direction r', PyDict.get direction (Room.exits (room_at g r)) = Some r' →
                       (r' < length (room_store g))%nat)
  ∧ (∀ r e, e ∈ Room.enemies (room_at g r) → (e < length (enemy_store g))%nat)
  ∧ (∀ key r, rooms g !! key = Some r → (r < length (room_store g))%nat).

(** The exits of the world [create_world] builds, room by room. *)
Lemma init_exits r direction r' :
  PyDict.get direction (Room.exits (room_at Game.init r)) = Some r' →
  (r, direction, r')
  ∈ [(Game.foyer_ref, "north", Game.hall_ref);
     (Game.hall_ref, "south", Game.foyer_ref);
     (Game.hall_ref, "east", Game.armory_ref);
     (Game.hall_ref, "west", Game.kitchen_ref);
     (Game.hall_ref, "up", Game.tower_ref);
     (Game.armory_ref, "west", Game.hall_ref);
     (Game.kitchen_ref, "east", Game.hall_ref);
     (Game.kitchen_ref, "down", Game.cellar_ref);
     (Game.cellar_ref, "up", Game.kitchen_ref);
     (Game.tower_ref, "down", Game.hall_ref)].
Proof.
  intros Hget%dict_get_Some.
  destruct r as [|[|[|[|[|[|r]]]]]]; vm_compute in Hget;
    repeat (apply elem_of_cons in Hget as [Hget|Hget]; [simplify_eq|]);
    try (by apply elem_of_nil in Hget);
    rewrite !elem_of_cons; tauto.
Qed.

Lemma static_refs_ok g :
  frame Game.init g →
  (∀ r direction r', PyDict.get direction (Room.exits (room_at g r)) = Some r' →
                     (r' < length (room_store g))%nat)
  ∧ (∀ r e, e ∈ Room.enemies (room_at g r) → (e < length (enemy_store g))%nat)
  ∧ (∀ key r, rooms g !! key = Some r → (r < length (room_store g))%nat).
Proof.
  intros Hframe.
  rewrite (frame_room_count _ _ Hframe), (frame_enemy_count _ _ Hframe),
    (frame_rooms _ _ Hframe).
  split_and!.
  - intros r direction r' Hget.
    destruct (frame_room _ _ Hframe r) as (_ & _ & _ & Hexits).
    rewrite Hexits in Hget. apply init_exits in Hget.
    repeat (apply elem_of_cons in Hget as [Hget|Hget]; [simplify_eq; vm_compute; lia|]).
    by apply elem_of_nil in Hget.
  - intros r e He.
    destruct (frame_room _ _ Hframe r) as (_ & _ & Henemies & _).
    rewrite Henemies in He.
    destruct r as [|[|[|[|[|[|r]]]]]]; vm_compute in He;
      repeat (apply elem_of_cons in He as [He|He]; [simplify_eq; vm_compute; lia|]);
      by apply elem_of_nil in He.
  - intros key r Hkey. apply elem_of_list_to_map_2 in Hkey.
    repeat (apply elem_of_cons in Hkey as [Hkey|Hkey]; [simplify_eq; vm_compute; lia|]).
    by apply elem_of_nil in Hkey.
Qed.

(** The weak form of where a command can put the player. *)
Lemma handle_command_room fuel cmd_line w w' :
  Game.handle_command fuel cmd_line w = Ok tt w' →
  let g := game w in
  let here := Player.current_room (player g) in
  let there := Player.current_room (player (game w')) in
  there = here
  ∨ (∃ direction, PyDict.get direction (Room.exits (current_room g)) = Some there)
  ∨ there = default here (rooms g !! "foyer").
Proof.
  intros [Hg | [(d & Hgo) | [(n & Htake) | [(n & Hfight) | (n & Huse)]]]]%handle_command_cases;
    cbn zeta.
  - left. by rewrite Hg.
  - apply cmd_go_room in Hgo as [[_ Hg] | Hgo]; [left; by rewrite Hg|].
    right; left. by exists d.
  - left. by eapply cmd_take_room.
  - apply cmd_fight_room in Hfight as [?|?]; [by left|by right; right].
  - left. by eapply cmd_use_room.
Qed.

Lemma reachable_here g :
  reachable g → (Player.current_room (player g) < length (room_store g))%nat.
Proof.
  intros Hreach. pose proof Hreach as Hsound.
  induction Hreach as [|w w' Hreach IH Hrun|fuel w again w' Hreach IH Hrun
                        |fuel enemy w w' Hreach IH Hhere Halive Hrun].
  - vm_compute. lia.
  - specialize (IH Hreach).
    apply start_intro_game in Hrun as [-> | ->]; [done|exact IH].
  - specialize (IH Hreach).
    apply reachable_sound in Hreach as [Hframe _].
    destruct (static_refs_ok _ Hframe) as (Hexits & _ & Hrooms).
    apply reachable_sound in Hsound as [Hframe' _].
    rewrite (frame_room_count _ _ Hframe').
    rewrite (frame_room_count _ _ Hframe) in IH, Hexits, Hrooms.
    apply start_body_cases in Hrun as [-> | (cmd_line & w0 & Hg0 & Hrun)]; [done|].
    apply handle_command_room in Hrun. cbn zeta in Hrun. rewrite Hg0 in Hrun.
    destruct Hrun as [-> | [(d & Hgo) | ->]]; [done|by eapply Hexits|].
    destruct (rooms (game w) !! "foyer") as [r|] eqn:Hfoyer; simpl; [|done].
    by eapply Hrooms.
  - specialize (IH Hreach).
    pose proof (fight_round_effect fuel enemy w Halive) as Hround.
    rewrite Hrun in Hround.
    destruct Hround as (p' & drop & Hg' & _ & -> & _ & _ & Hroom).
    rewrite Hg'. unfold round_result. simpl. by rewrite Hroom.
Qed.

(** X4.  In every reachable game state no reference dangles: the player's
    current room is a room of the store, every exit of every room leads to
    a room of the store, every enemy listed in a room is in the enemy
    store, and so is every room registered in [rooms]. *)
Theorem reachable_refs_ok (g : GameState) : reachable g → refs_ok g.
Proof.
  intros Hreach. split; [by apply reachable_here|].
  apply static_refs_ok. by apply reachable_sound in Hreach as [? _].
Qed.

Lemma reachable_refs_ok_witness :
  Player.current_room (player (game (sample_run 3))) = Game.hall_ref
  ∧ refs_ok (game (sample_run 3)).
Proof.
  split; [vm_compute; reflexivity|].
  apply (reachable_refs_ok (game (sample_run 3))), sample_run_reachable.
Defined.

(** ** Walking back *)

(** The direction that undoes a direction. *)
Definition opposite (direction : string) : string :=
  if decide (direction = "north") then "south"
  else if decide (direction = "south") then "north"
  else if decide (direction = "east") then "west"
  else if decide (direction = "west") then "east"
  else if decide (direction = "up") then "down"
  else if decide (direction = "down") then "up"
  else direction.

(** X5.  Every passage of the world can be walked back.  In a reachable
    state, after a [go <direction>] that moved the player, [go] in the
    opposite direction succeeds and restores the game state as it was
    before the two moves. *)
Theorem go_and_back (direction : string) (w w1 : World) :
  reachable (game w) →
  Game.cmd_go direction w = Ok tt w1 →
  is_Some (PyDict.get direction (Room.exits (current_room (game w)))) →
  ∃ w2, Game.cmd_go (opposite direction) w1 = Ok tt w2 ∧ game w2 = game w.
Proof.
  intros Hreach Hrun [r Hget].
  pose proof (reachable_here _ Hreach) as Hhere.
  apply reachable_sound in Hreach as [Hframe _].
  set (g := game w) in *. set (cur := Player.current_room (player g)) in *.
  assert (Hw1 : game w1 = set_player (Player.set_current_room r (player g)) g).
  { revert Hrun. unfold Game.cmd_go. run_m. fold g. rewrite Hget.
    intros ?. by simplify_eq. }
  assert (Hback : PyDict.get (opposite direction) (Room.exits (room_at g r)) = Some cur).
  { destruct (frame_room _ _ Hframe cur) as (_ & _ & _ & Hexits).
    destruct (frame_room _ _ Hframe r) as (_ & _ & _ & ->).
    unfold current_room in Hget. fold cur in Hget.
    rewrite Hexits in Hget. apply init_exits in Hget.
    repeat (apply elem_of_cons in Hget as [Hget|Hget];
            [injection Hget as -> -> ->; reflexivity|]).
    by apply elem_of_nil in Hget. }
  unfold Game.cmd_go. run_m. rewrite Hw1. unfold current_room. simpl.
  change (room_at (set_player ?q ?h) ?x) with (room_at h x).
  rewrite Hback. eexists. split; [reflexivity|]. simpl. rewrite Hw1.
  subst cur. by destruct g as [? ? ? [] ?].
Qed.

Lemma go_and_back_witness :
  ∃ w1 w2 : World,
    Game.cmd_go "up" (sample_run 3) = Ok tt w1
    ∧ Player.current_room (player (game w1)) = Game.tower_ref
    ∧ Game.cmd_go "down" w1 = Ok tt w2
    ∧ game w2 = game (sample_run 3).
Proof.
  assert (Hrun : ∃ w1, Game.cmd_go "up" (sample_run 3) = Ok tt w1
                       ∧ Player.current_room (player (game w1)) = Game.tower_ref).
  { vm_compute. eexists. split; reflexivity. }
  destruct Hrun as (w1 & Hrun & Hroom).
  assert (Hexit : is_Some (PyDict.get "up"
                    (Room.exits (current_room (game (sample_run 3)))))).
  { vm_compute. by eexists. }
  destruct (go_and_back "up" (sample_run 3) w1 (sample_run_reachable 3) Hrun Hexit)
    as (w2 & Hback & Hg).
  exists w1, w2. split_and!; [exact Hrun|exact Hroom|exact Hback|exact Hg].
Defined.

(** ** Items are moved, not copied *)

(** Every item of the game: those lying in the rooms, room by room, and
    those in the inventory. *)
Definition all_items (g : GameState) : list Item.t :=
  concat (Room.items <$> room_store g) ++ Player.inventory (player g).

Lemma total_attack_bonus_app l k :
  total_attack_bonus (l ++ k) = total_attack_bonus l + total_attack_bonus k.
Proof. induction l as [|it l IH]; simpl; lia. Qed.

Lemma room_at_lookup g r i it :
  Room.items (room_at g r) !! i = Some it → room_store g !! r = Some (room_at g r).
Proof.
  intros Hi%room_with_items_in_store. unfold room_at.
  by apply list_lookup_lookup_total_lt.
Qed.

Lemma all_items_after_take g i it :
  Room.items (current_room g) !! i = Some it →
  all_items (after_take g i it) ≡ₚ all_items g.
Proof.
  intros Hi. pose proof (room_at_lookup _ _ _ _ Hi) as Hroom.
  pose proof (room_with_items_in_store _ _ _ _ Hi) as Hcur.
  unfold all_items, after_take, current_room in *. simpl.
  set (cur := Player.current_room (player g)) in *.
  set (room := room_at g cur) in *.
  rewrite insert_take_drop by done.
  set (A := take cur (room_store g)). set (C := drop (S cur) (room_store g)).
  assert (Hsplit : room_store g = A ++ room :: C)
    by (symmetry; by apply take_drop_middle).
  rewrite Hsplit.
  rewrite !fmap_app, !fmap_cons, !concat_app, !concat_cons. simpl.
  pose proof (delete_Permutation _ i it Hi) as Hperm.
  set (D := delete i (Room.items room)) in *.
  rewrite Hperm. simpl.
  rewrite <- !app_assoc. f_equiv.
  rewrite !app_assoc. rewrite <- Permutation_cons_append.
  done.
Qed.

(** X6.  [take] moves an item and does nothing else to the items of the
    game.  When it returns, either the game state is as before (nothing in
    the room bears the name), or one item [it] of the current room with the
    lower-cased name went to the inventory: the items of the game, rooms
    and inventory together, are the same up to order, the player's attack
    value grew by the attack bonus of [it], and the player's health and
    every enemy are as before. *)
Theorem cmd_take_conserves (item_name : string) (w w' : World) :
  Game.cmd_take item_name w = Ok tt w' →
  let g := game w in
  let g' := game w' in
  g' = g
  ∨ ∃ it, it ∈ Room.items (current_room g)
          ∧ Item.name it = PyStr.lower item_name
          ∧ all_items g' ≡ₚ all_items g
          ∧ Player.attack_value (player g')
            = Player.attack_value (player g) + Item.attack_bonus it
          ∧ Player.hp (player g') = Player.hp (player g)
          ∧ enemy_store g' = enemy_store g.
Proof.
  intros Hrun g g'. pose proof (cmd_take_run item_name w) as Htake.
  cbn zeta in Htake. fold g in Htake.
  destruct (list_find _ _) as [[i it]|] eqn:Hfind; rewrite Htake in Hrun;
    [|left; unfold g'; by simplify_eq].
  right. exists it. apply list_find_Some in Hfind as (Hi & Hname & _).
  assert (g' = after_take g i it) as -> by (unfold g'; by simplify_eq).
  split_and!; [by eapply list_elem_of_lookup_2|done|by apply all_items_after_take| |done|done].
  rewrite !attack_value_sum. simpl. rewrite total_attack_bonus_app. simpl. lia.
Qed.

Lemma cmd_take_conserves_witness :
  ∃ (w' : World) (it : Item.t),
    Game.cmd_take "Rusty Sword"
      (with_game (set_player (Player.set_current_room Game.armory_ref (player Game.init))
                             Game.init)
                 (boot sample_rng [])) = Ok tt w'
    ∧ Item.name it = "rusty sword"
    ∧ Player.attack_value (player (game w')) = 5 + Item.attack_bonus it.
Proof.
  set (w := with_game _ _).
  assert (Hrun : ∃ w', Game.cmd_take "Rusty Sword" w = Ok tt w'
                       ∧ Player.inventory (player (game w')) ≠ []).
  { vm_compute. eexists. split; [reflexivity|discriminate]. }
  destruct Hrun as (w' & Hrun & Hinv).
  destruct (cmd_take_conserves "Rusty Sword" w w' Hrun)
    as [Hsame | (it & _ & Hname & _ & Hatk & _)].
  - exfalso. apply Hinv. by rewrite Hsame.
  - exists w', it. split; [exact Hrun|]. split; [exact Hname|exact Hatk].
Defined.

(** ** Commands that only print *)






(** The verbs that read the game state only. *)
Definition reading_verbs : list string := ["help"; "look"; "inventory"].

(** X8.  [help], [look] and [inventory] return normally whatever follows
    the verb on the line; they leave the game state and the generator as
    they were, read no input, and only append to the output. *)
Theorem reading_verbs_change_nothing (fuel : nat) (cmd_line cmd : string)
    (args : list string) (w : World) :
  PyStr.split cmd_line = cmd :: args →
  cmd ∈ reading_verbs →
  ∃ out, Game.handle_command fuel cmd_line w
         = Ok tt (mkWorld (game w) (rng w) (stdin w) (stdout w ++ out)).
Proof.
  intros Hsplit Hverb.
  unfold Game.handle_command, Game.handle_command_with. rewrite Hsplit.
  unfold reading_verbs in Hverb. rewrite !elem_of_cons in Hverb.
  destruct Hverb as [-> | [-> | [-> | Hnil]]]; [| | |by apply elem_of_nil in Hnil]; simpl.
  - apply prints_only_help.
  - apply prints_only_get. intros g. apply prints_only_print.
  - apply prints_only_inventory.
Qed.

Lemma reading_verbs_change_nothing_witness :
  ∃ out, Game.handle_command 0 "look  around" (sample_run 3)
         = Ok tt (mkWorld (game (sample_run 3)) (rng (sample_run 3))
                          (stdin (sample_run 3)) (stdout (sample_run 3) ++ out)).
Proof.
  apply (reading_verbs_change_nothing 0 "look  around" "look" ["around"]).
  - reflexivity.
  - unfold reading_verbs. rewrite !elem_of_cons. tauto.
Defined.

(** ** Exceptions *)

(** The string has no character that is not white space. *)
Fixpoint all_space (s : string) : bool :=
  match s with
  | EmptyString => true
  | String c s' => PyStr.isspace c && all_space s'
  end.

Lemma split_all_space s : all_space s = true → PyStr.split s = [].
Proof.
  induction s as [|c s IH]; [done|]. simpl.
  intros [-> Hs]%andb_true_iff. by apply IH.
Qed.

Lemma split_nil_all_space s : PyStr.split s = [] → all_space s = true.
Proof.
  induction s as [|c s IH]; [done|]. simpl.
  destruct (PyStr.isspace c); [done|].
  destruct s as [|c' s]; [done|].
  destruct (PyStr.isspace c'); [done|]. by destruct (PyStr.split (String c' s)).
Qed.

Lemma cmd_go_returns direction w : ∃ w', Game.cmd_go direction w = Ok tt w'.
Proof.
  unfold Game.cmd_go. run_m. destruct (PyDict.get direction _); by eexists.
Qed.

Lemma cmd_take_returns item_name w : ∃ w', Game.cmd_take item_name w = Ok tt w'.
Proof.
  pose proof (cmd_take_run item_name w) as Hrun. cbn zeta in Hrun.
  destruct (list_find _ _) as [[i it]|]; eexists; exact Hrun.
Qed.

Lemma cmd_fight_raises fuel enemy_name w e w' :
  Game.cmd_fight fuel enemy_name w = Raise e w' → e = EOFError.
Proof.
  unfold Game.cmd_fight, Game.cmd_fight_with.
  unfold mbind at 1. unfold M_bind at 1. unfold get_game at 1.
  destruct (Game.find_enemy_in_room enemy_name (game w)) as [enemy|]; [|done].
  unfold mbind at 1. unfold M_bind at 1. unfold print at 1.
  set (w0 := mkWorld _ _ _ _).
  pose proof (fight_loop_run fuel enemy w0) as Hloop. cbn zeta in Hloop.
  unfold mbind, M_bind.
  destruct (Game.fight_loop fuel enemy w0) as [out w1|e1 w1|]; [done| |done].
  destruct Hloop as [-> _]. intros ?. by simplify_eq.
Qed.

(** What the dispatcher can raise. *)
Lemma handle_command_raises fuel cmd_line w e w' :
  Game.handle_command fuel cmd_line w = Raise e w' →
  (e = IndexError ∧ PyStr.split cmd_line = []) ∨ e = EOFError.
Proof.
  assert (Hprints : ∀ m : M unit, prints_only m → m w ≠ Raise e w').
  { intros m Hm. destruct (Hm w) as (out & ->). done. }
  unfold Game.handle_command, Game.handle_command_with.
  destruct (PyStr.split cmd_line) as [|cmd args].
  { unfold raise. intros ?. simplify_eq. by left. }
  repeat case_decide.
  - intros ?%(Hprints _ prints_only_help). done.
  - intros Hrun. exfalso. revert Hrun. apply Hprints, prints_only_get.
    intros g. apply prints_only_print.
  - intros ?%(Hprints _ prints_only_inventory). done.
  - destruct args as [|d rest]; [intros ?%(Hprints _ (prints_only_print _)); done|].
    destruct (cmd_go_returns d w) as (w1 & ->). done.
  - destruct args as [|a rest]; [intros ?%(Hprints _ (prints_only_print _)); done|].
    destruct (cmd_take_returns (PyStr.join " " (a :: rest)) w) as (w1 & ->). done.
  - destruct args as [|a rest]; [intros ?%(Hprints _ (prints_only_print _)); done|].
    intros ?%cmd_fight_raises. by right.
  - destruct args as [|a rest]; [intros ?%(Hprints _ (prints_only_print _)); done|].
    destruct (cmd_use_run (PyStr.join " " (a :: rest)) w) as (w1 & p' & -> & _). done.
  - intros ?%(Hprints _ (prints_only_print _)). done.
Qed.

Lemma split_stripped line :
  PyStr.strip line ≠ EmptyString → PyStr.split (PyStr.lower (PyStr.strip line)) ≠ [].
Proof.
  intros Hne. apply split_ends_in_word. rewrite ends_in_word_lower.
  by destruct (strip_ends_in_word line).
Qed.

(** X9.  [handle_command] needs a line with a token.  On an ASCII line
    the dispatcher raises [IndexError] (from [parts[0]]) exactly when the
    line is empty or white space only, and then before it prints or
    changes anything; on every other ASCII line it raises no [IndexError],
    in whatever state and with whatever input. *)
Theorem handle_command_blank (fuel : nat) (cmd_line : string) (w : World) :
  PyStr.isascii cmd_line = true →
  if all_space cmd_line
  then Game.handle_command fuel cmd_line w = Raise IndexError w
  else ∀ w', Game.handle_command fuel cmd_line w ≠ Raise IndexError w'.
Proof.
  intros _. destruct (all_space cmd_line) eqn:Hblank.
  - unfold Game.handle_command, Game.handle_command_with.
    by rewrite (split_all_space _ Hblank).
  - intros w' [[_ Hsplit] | ?]%handle_command_raises; [|done].
    apply split_nil_all_space in Hsplit. congruence.
Qed.

Lemma handle_command_blank_witness :
  Game.handle_command 3 "   " (sample_run 1) = Raise IndexError (sample_run 1)
  ∧ ∀ w', Game.handle_command 3 " fight goblin" (sample_run 2) ≠ Raise IndexError w'.
Proof.
  split.
  - apply (handle_command_blank 3 "   " (sample_run 1)). reflexivity.
  - apply (handle_command_blank 3 " fight goblin" (sample_run 2)). reflexivity.
Defined.

(** X10.  The main loop never hands the dispatcher a line without a token,
    so the [IndexError] of [handle_command] cannot happen in a run: an
    execution of the loop body raises nothing but the [EOFError] of
    [input].  It does raise that one, with only the prompt printed, when
    the player is alive and standard input is at its end. *)
Theorem start_body_raises_only_eof (fuel : nat) (w : World) :
  (∀ e w', Game.start_body fuel w = Raise e w' → e = EOFError)
  ∧ (Player.is_alive (player (game w)) = true → stdin w = [] →
     Game.start_body fuel w
     = Raise EOFError (mkWorld (game w) (rng w) [] (stdout w ++ [PyStr.nl +:+ "> "]))).
Proof.
  split.
  - intros e w'. unfold Game.start_body.
    unfold mbind at 1. unfold M_bind at 1. unfold get_game at 1.
    destruct (Player.is_alive (player (game w))); simpl; [|done].
    unfold mbind at 1. unfold M_bind at 1. unfold input.
    destruct (stdin w) as [|line rest].
    { intros ?. by simplify_eq. }
    set (w0 := mkWorld _ _ _ _).
    repeat case_decide; [done|done|].
    unfold mbind, M_bind.
    destruct (Game.handle_command fuel _ w0) as [[] w1|e1 w1|] eqn:Hrun; [done| |done].
    intros ?. simplify_eq.
    apply handle_command_raises in Hrun as [[_ Hsplit] | ->]; [|done].
    by apply split_stripped in Hsplit.
  - intros Halive Hin. unfold Game.start_body.
    unfold mbind at 1. unfold M_bind at 1. unfold get_game at 1.
    rewrite Halive. simpl.
    unfold mbind at 1. unfold M_bind at 1. unfold input. by rewrite Hin.
Qed.

Lemma start_body_raises_only_eof_witness :
  Game.start_body 0 (boot sample_rng [])
  = Raise EOFError (mkWorld Game.init sample_rng [] [PyStr.nl +:+ "> "]).
Proof.
  destruct (start_body_raises_only_eof 0 (boot sample_rng [])) as [_ Heof].
  apply Heof; reflexivity.
Defined.

(** ** How the main loop ends, and what it skips *)

(** The world after [input(prompt)] read a line: the prompt is printed and
    the lines [rest] are left. *)
Definition after_input (prompt : string) (rest : list string) (w : World) : World :=
  mkWorld (game w) (rng w) rest (stdout w ++ [prompt]).

Definition main_prompt : string := PyStr.nl +:+ "> ".

(** The lines that end the session. *)
Definition quits (line : string) : Prop :=
  PyStr.lower (PyStr.strip line) = "quit" ∨ PyStr.lower (PyStr.strip line) = "exit".

Lemma lower_empty s : PyStr.lower s = EmptyString → s = EmptyString.
Proof. by destruct s. Qed.

(** X11.  On ASCII input the loop of [start] breaks in two cases only, and
    in both the game state is as it was: the player is not alive (the
    game-over line is printed and nothing is read), or the line read is
    [quit] or [exit], in any letter case and with blanks around it (the
    farewell is printed).  No command ends the session. *)
Theorem start_body_break (fuel : nat) (w w' : World) :
  (∀ line, head (stdin w) = Some line → PyStr.isascii line = true) →
  Game.start_body fuel w = Ok false w' →
  game w' = game w
  ∧ ((Player.is_alive (player (game w)) = false
      ∧ w' = printed ["You have perished. Game over."] w)
     ∨ (Player.is_alive (player (game w)) = true
        ∧ ∃ line rest,
            stdin w = line :: rest ∧ quits line
            ∧ w' = printed ["Thanks for playing — goodbye!"]
                           (after_input main_prompt rest w))).
Proof.
  intros _. unfold Game.start_body.
  unfold mbind at 1. unfold M_bind at 1. unfold get_game at 1.
  destruct (Player.is_alive (player (game w))); simpl.
  - unfold mbind at 1. unfold M_bind at 1. unfold input.
    destruct (stdin w) as [|line rest]; [done|].
    set (w0 := mkWorld _ _ _ _).
    repeat case_decide.
    + unfold mret, M_ret. intros ?. simplify_eq.
    + run_m. intros ?. simplify_eq. split; [done|]. right. split; [done|].
      by exists line, rest.
    + unfold mbind, M_bind.
      destruct (Game.handle_command fuel _ w0) as [[] w1| |]; [|done..].
      unfold mret, M_ret. intros ?. simplify_eq.
  - run_m. intros ?. simplify_eq. split; [done|]. by left.
Qed.

Lemma start_body_break_witness :
  ∃ w' : World,
    Game.start_body 0 (boot sample_rng ["  Quit "; "look"]) = Ok false w'
    ∧ game w' = Game.init
    ∧ stdin w' = ["look"].
Proof.
  set (w := boot sample_rng ["  Quit "; "look"]).
  assert (Hrun : ∃ w', Game.start_body 0 w = Ok false w').
  { vm_compute. eexists. reflexivity. }
  destruct Hrun as (w' & Hrun). exists w'. split; [exact Hrun|].
  assert (Hascii : ∀ line, head (stdin w) = Some line → PyStr.isascii line = true).
  { intros line Hline. simpl in Hline. by simplify_eq. }
  destruct (start_body_break 0 w w' Hascii Hrun)
    as [Hg [[Hdead _] | (_ & line & rest & Hin & _ & ->)]].
  - vm_compute in Hdead. discriminate Hdead.
  - split; [exact Hg|]. simpl. simpl in Hin. by simplify_eq.
Defined.

(** X12.  When the player is not alive, or the next line is [quit] or
    [exit], [start]'s loop returns at once, whatever number of iterations
    it had left and whatever input follows; the lines after the one read
    stay unread. *)
Theorem start_loop_ends (turns fuel : nat) (w : World) :
  Player.is_alive (player (game w)) = false
  ∨ (∃ line rest, stdin w = line :: rest ∧ quits line) →
  ∃ w', Game.start_loop (S turns) fuel w = Ok tt w'
        ∧ game w' = game w
        ∧ (Player.is_alive (player (game w)) = false → stdin w' = stdin w)
        ∧ (Player.is_alive (player (game w)) = true →
           ∃ line, stdin w = line :: stdin w').
Proof.
  intros Hend. simpl. unfold Game.start_body.
  unfold mbind at 1. unfold M_bind at 1.
  unfold mbind at 1. unfold M_bind at 1. unfold get_game at 1.
  destruct (Player.is_alive (player (game w))) eqn:Halive; simpl.
  - destruct Hend as [?|(line & rest & Hin & Hquit)]; [done|].
    unfold mbind at 1. unfold M_bind at 1. unfold input. rewrite Hin.
    assert (Hne : PyStr.strip line ≠ EmptyString).
    { intros Hempty. unfold quits in Hquit. rewrite Hempty in Hquit.
      by destruct Hquit. }
    rewrite decide_False by done. rewrite decide_True by done.
    run_m. eexists. split; [reflexivity|]. simpl. split_and!; [done|done|].
    intros _. by exists line.
  - run_m. eexists. split; [reflexivity|]. by split_and!.
Qed.

Lemma start_loop_ends_witness :
  ∃ w' : World,
    Game.start_loop 7 0 (boot sample_rng ["EXIT"; "go north"]) = Ok tt w'
    ∧ game w' = Game.init.
Proof.
  destruct (start_loop_ends 6 0 (boot sample_rng ["EXIT"; "go north"]))
    as (w' & Hrun & Hg & _).
  - right. exists "EXIT", ["go north"]. split; [reflexivity|]. right. reflexivity.
  - exists w'. split; [exact Hrun|exact Hg].
Defined.

Lemma strip_all_space s : all_space s = true → PyStr.strip s = EmptyString.
Proof.
  intros Hs. unfold PyStr.strip.
  assert (PyStr.rstrip s = EmptyString) as ->; [|done].
  induction s as [|c s IH]; [done|]. simpl in *.
  apply andb_true_iff in Hs as [Hc Hs]. by rewrite (IH Hs), Hc.
Qed.

(** X13.  A line of white space only (the empty line included) is skipped:
    the loop body reads it, prints nothing but the prompt, changes nothing
    and goes round again; no command is dispatched for it. *)
Theorem start_body_skips_blank (fuel : nat) (w : World) (line : string)
    (rest : list string) :
  Player.is_alive (player (game w)) = true →
  stdin w = line :: rest →
  all_space line = true →
  Game.start_body fuel w = Ok true (after_input main_prompt rest w).
Proof.
  intros Halive Hin Hblank. unfold Game.start_body.
  unfold mbind at 1. unfold M_bind at 1. unfold get_game at 1.
  rewrite Halive. simpl.
  unfold mbind at 1. unfold M_bind at 1. unfold input. rewrite Hin.
  rewrite (strip_all_space _ Hblank). by rewrite decide_True.
Qed.

Lemma start_body_skips_blank_witness :
  Game.start_body 0 (boot sample_rng ["   "; "look"])
  = Ok true (after_input main_prompt ["look"] (boot sample_rng ["   "; "look"])).
Proof.
  by apply (start_body_skips_blank 0 (boot sample_rng ["   "; "look"]) "   " ["look"]).
Defined.

(** ** Every command terminates *)

Lemma handle_command_fuel fuel cmd_line w :
  (∀ e, (Z.to_nat (Enemy.hp (enemy_at (game w) e)) ≤ fuel)%nat) →
  Game.handle_command fuel cmd_line w ≠ OutOfFuel.
Proof.
  intros Hfuel.
  assert (Hprints : ∀ m : M unit, prints_only m → m w ≠ OutOfFuel).
  { intros m Hm. destruct (Hm w) as (out & ->). done. }
  unfold Game.handle_command, Game.handle_command_with.
  destruct (PyStr.split cmd_line) as [|cmd args]; [done|].
  repeat case_decide.
  - apply Hprints, prints_only_help.
  - apply Hprints, prints_only_get. intros g. apply prints_only_print.
  - apply Hprints, prints_only_inventory.
  - destruct args as [|d rest]; [apply Hprints, prints_only_print|].
    by destruct (cmd_go_returns d w) as (w1 & ->).
  - destruct args as [|a rest]; [apply Hprints, prints_only_print|].
    by destruct (cmd_take_returns (PyStr.join " " (a :: rest)) w) as (w1 & ->).
  - destruct args as [|a rest]; [apply Hprints, prints_only_print|].
    unfold Game.cmd_fight, Game.cmd_fight_with.
    unfold mbind at 1. unfold M_bind at 1. unfold get_game at 1.
    destruct (Game.find_enemy_in_room _ (game w)) as [enemy|]; [|done].
    unfold mbind at 1. unfold M_bind at 1. unfold print at 1.
    set (w0 := mkWorld _ _ _ _).
    pose proof (fight_loop_run fuel enemy w0) as Hloop. cbn zeta in Hloop.
    unfold mbind, M_bind.
    destruct (Game.fight_loop fuel enemy w0) as [out w1|e1 w1|]; [done|done|].
    specialize (Hfuel enemy). simpl in Hloop. lia.
  - destruct args as [|a rest]; [apply Hprints, prints_only_print|].
    by destruct (cmd_use_run (PyStr.join " " (a :: rest)) w) as (w1 & p' & -> & _).
  - apply Hprints, prints_only_print.
Qed.

Lemma reachable_enemy_health g e :
  reachable g → Enemy.hp (enemy_at g e) ≤ 25.
Proof.
  intros [Hframe _]%reachable_sound.
  destruct (frame_enemy _ _ Hframe e) as (_ & _ & _ & Hhp & _).
  assert (Enemy.hp (enemy_at Game.init e) ≤ 25); [|lia].
  destruct e as [|[|[|e]]]; vm_compute; discriminate.
Qed.

(** X14.  In a reachable state 25 units of fuel are enough for any command
    and for the loop body around it: no enemy ever has more than 25 health
    (the wraith's, and health only falls), a fight makes at most as many
    iterations as its enemy has health, and no other handler loops.  So
    every command comes to an end, by returning or by raising. *)
Theorem commands_terminate (fuel : nat) (cmd_line : string) (w : World) :
  reachable (game w) →
  (25 ≤ fuel)%nat →
  Game.handle_command fuel cmd_line w ≠ OutOfFuel
  ∧ Game.start_body fuel w ≠ OutOfFuel.
Proof.
  intros Hreach Hfuel.
  assert (Henough : ∀ e, (Z.to_nat (Enemy.hp (enemy_at (game w) e)) ≤ fuel)%nat).
  { intros e. pose proof (reachable_enemy_health _ e Hreach). lia. }
  split; [by apply handle_command_fuel|].
  unfold Game.start_body.
  unfold mbind at 1. unfold M_bind at 1. unfold get_game at 1.
  destruct (negb _); [done|].
  unfold mbind at 1. unfold M_bind at 1. unfold input.
  destruct (stdin w) as [|line rest]; [done|].
  set (w0 := mkWorld _ _ _ _).
  repeat case_decide; [done|done|].
  unfold mbind, M_bind.
  pose proof (handle_command_fuel fuel (PyStr.lower (PyStr.strip line)) w0 Henough).
  by destruct (Game.handle_command fuel _ w0) as [[] w1| |].
Qed.

Lemma commands_terminate_witness :
  Game.handle_command 25 "fight goblin" (sample_run 2) ≠ OutOfFuel
  ∧ Game.start_body 25 (sample_run 2) ≠ OutOfFuel.
Proof.
  apply (commands_terminate 25 "fight goblin" (sample_run 2)).
  - apply sample_run_reachable.
  - lia.
Defined.

(** ** A fight won at the first blow *)

(** X15.  An enemy whose health is not above max(1, the player's attack
    value) falls in the first round whatever the rolls: the loop returns
    with the player's victory, the player is untouched and no line is
    read. *)
Theorem first_round_kill (fuel : nat) (enemy : ref) (w : World) :
  let g := game w in
  Enemy.is_alive (enemy_at g enemy) = true →
  Player.is_alive (player g) = true →
  Enemy.hp (enemy_at g enemy) ≤ 1 `max` Player.attack_value (player g) →
  ∃ w', Game.fight_loop (S fuel) enemy w = Ok (Some PlayerWins) w'
        ∧ player (game w') = player g
        ∧ Enemy.hp (enemy_at (game w') enemy) ≤ 0
        ∧ stdin w' = stdin w.
Proof.
  intros g He Hp Hweak.
  pose proof (alive_enemy_in_store _ _ He) as Hin.
  destruct (player_attack_run enemy w) as (w1 & Hrun1 & Hg1 & _ & Hin1 & _).
  fold g in Hg1.
  assert (Hd : Enemy.hp (enemy_at g enemy) ≤ damage_to_enemy w).
  { unfold damage_to_enemy, player_roll.
    pose proof (randint_range 0 3 (rng w)). fold g. lia. }
  assert (Hat : enemy_at (game w1) enemy
                = Enemy.take_damage (damage_to_enemy w) (enemy_at g enemy)).
  { rewrite Hg1. by apply enemy_at_set_enemy_eq. }
  destruct (enemy_defeated_run enemy w1) as (w' & Hrun & Hg' & _ & Hin').
  exists w'. split.
  { apply fight_loop_exit; [done..|].
    rewrite (fight_round_steps _ enemy w w1 Hrun1).
    unfold Enemy.is_alive at 1. rewrite Hat. simpl.
    rewrite bool_decide_eq_false_2 by lia. by rewrite Hrun. }
  assert (Hes : enemy_at (game w') enemy = enemy_at (game w1) enemy).
  { rewrite Hg'. by destruct (_ <? _)%float. }
  rewrite Hes, Hat, Hin', Hin1. simpl.
  split_and!; [|lia|done].
  rewrite Hg'. destruct (_ <? _)%float; by rewrite Hg1.
Qed.

Lemma first_round_kill_witness :
  ∃ (w w' : World),
    Enemy.hp (enemy_at (game w) Game.rat_ref) = 8
    ∧ Player.attack_value (player (game w)) = 8
    ∧ Game.fight_loop 1 Game.rat_ref w = Ok (Some PlayerWins) w'
    ∧ player (game w') = player (game w).
Proof.
  set (g := set_player
              (Player.add_item (Item.init "Rusty Sword" "An old rusty sword. Adds to attack." 0 3)
                 (Player.set_current_room Game.cellar_ref (player Game.init)))
              Game.init).
  set (w := mkWorld g sample_rng [] []).
  destruct (first_round_kill 0 Game.rat_ref w) as (w' & Hrun & Hp & _).
  - reflexivity.
  - reflexivity.
  - vm_compute. discriminate.
  - exists w, w'. split_and!; [reflexivity|reflexivity|exact Hrun|exact Hp].
Defined.

(** ** The combat prompt *)

Definition combat_prompt : string :=
  "Type 'c' to continue fighting, 'use <item>' to use an item, or 'flee' to run: ".

(** X16.  Of the commands of the game only [use] can be run from the
    combat prompt.  An ASCII answer other than [flee] that starts with
    "use " runs [cmd_use] on the rest of the line, through the dispatcher;
    any other ASCII answer, a [go], [take] or [fight] among them, leaves
    the game state as it is.  In both cases the fight goes on, the line is
    consumed and no number is drawn. *)
Theorem prompt_runs_use_only (fuel : nat) (line : string) (rest : list string) (w : World) :
  let action := PyStr.lower (PyStr.strip line) in
  PyStr.isascii line = true →
  stdin w = line :: rest →
  action ≠ "flee" →
  ∃ w', Game.fight_prompt (Game.handle_command fuel) w = Ok None w'
        ∧ stdin w' = rest
        ∧ rng w' = rng w
        ∧ if PyStr.startswith action "use " then
            ∃ arg args,
              PyStr.split action = "use" :: arg :: args
              ∧ Game.cmd_use (PyStr.join " " (arg :: args))
                             (after_input combat_prompt rest w) = Ok tt w'
          else game w' = game w.
Proof.
  intros action _ Hin Hflee.
  unfold Game.fight_prompt, input.
  unfold mbind at 1. unfold M_bind at 1. rewrite Hin.
  fold action. fold combat_prompt.
  change (mkWorld (game w) (rng w) rest (stdout w ++ [combat_prompt]))
    with (after_input combat_prompt rest w).
  set (w0 := after_input combat_prompt rest w).
  destruct (decide (action = "flee")) as [?|_]; [done|].
  destruct (PyStr.startswith action "use ") eqn:Huse.
  - destruct (split_use_line line Huse) as (arg & args & Hsplit).
    assert (Hhandle : Game.handle_command fuel action
                      = Game.cmd_use (PyStr.join " " (arg :: args))).
    { unfold Game.handle_command, Game.handle_command_with. fold action in Hsplit.
      by rewrite Hsplit. }
    rewrite Hhandle.
    destruct (cmd_use_run (PyStr.join " " (arg :: args)) w0)
      as (w' & p' & Hrun & _ & _ & Hrng & Hin').
    exists w'. unfold mbind, M_bind. rewrite Hrun. simpl.
    split_and!; [done|by rewrite Hin'|by rewrite Hrng|].
    exists arg, args. by fold action in Hsplit.
  - case_decide.
    + exists w0. by split_and!.
    + eexists. split; [reflexivity|]. by split_and!.
Qed.

Lemma prompt_runs_use_only_witness :
  ∃ w w' : World,
    Game.fight_prompt (Game.handle_command 0) w = Ok None w'
    ∧ Player.inventory (player (game w)) ≠ []
    ∧ Player.inventory (player (game w')) = []
    ∧ Player.hp (player (game w')) = 40.
Proof.
  set (w := mkWorld (game (sample_run 1)) sample_rng ["Use  Small Potion "] []).
  destruct (prompt_runs_use_only 0 "Use  Small Potion " [] w) as (w' & Hrun & _ & _ & Huse).
  - reflexivity.
  - reflexivity.
  - vm_compute. discriminate.
  - exists w, w'. split; [exact Hrun|].
    assert (Hstart : PyStr.startswith (PyStr.lower (PyStr.strip "Use  Small Potion ")) "use "
                     = true) by (vm_compute; reflexivity).
    rewrite Hstart in Huse. destruct Huse as (arg & args & Hsplit & Hcmd).
    vm_compute in Hsplit. simplify_eq.
    vm_compute in Hcmd. simplify_eq.
    split_and!; [vm_compute; discriminate|reflexivity|reflexivity].
Defined.

(** ** What each verb can touch *)

(** X17.  A command on an ASCII line whose verb is not [fight] never
    touches an enemy, the generator or the input.  The player's health
    changes under [use] only (and never falls), the rooms' items under
    [take] only, the inventory under [take] and [use] only, and the
    player's room under [go] only. *)
Theorem verbs_touch_their_part (fuel : nat) (cmd_line cmd : string) (args : list string)
    (w w' : World) :
  PyStr.isascii cmd_line = true →
  PyStr.split cmd_line = cmd :: args →
  cmd ≠ "fight" →
  Game.handle_command fuel cmd_line w = Ok tt w' →
  let g := game w in
  let g' := game w' in
  enemy_store g' = enemy_store g
  ∧ rooms g' = rooms g
  ∧ intro_shown g' = intro_shown g
  ∧ rng w' = rng w
  ∧ stdin w' = stdin w
  ∧ Player.hp (player g) ≤ Player.hp (player g')
  ∧ (cmd ≠ "use" → Player.hp (player g') = Player.hp (player g))
  ∧ (cmd ≠ "take" → room_store g' = room_store g)
  ∧ (cmd ≠ "take" → cmd ≠ "use" → Player.inventory (player g') = Player.inventory (player g))
  ∧ (cmd ≠ "go" → Player.current_room (player g') = Player.current_room (player g)).
Proof.
  intros _ Hsplit Hfight.
  assert (Hprints : ∀ m : M unit, prints_only m → m w = Ok tt w' →
            enemy_store (game w') = enemy_store (game w)
            ∧ rooms (game w') = rooms (game w)
            ∧ intro_shown (game w') = intro_shown (game w)
            ∧ rng w' = rng w
            ∧ stdin w' = stdin w
            ∧ Player.hp (player (game w)) ≤ Player.hp (player (game w'))
            ∧ (cmd ≠ "use" → Player.hp (player (game w')) = Player.hp (player (game w)))
            ∧ (cmd ≠ "take" → room_store (game w') = room_store (game w))
            ∧ (cmd ≠ "take" → cmd ≠ "use" →
               Player.inventory (player (game w')) = Player.inventory (player (game w)))
            ∧ (cmd ≠ "go" →
               Player.current_room (player (game w'))
               = Player.current_room (player (game w)))).
  { intros m Hm Hrun. destruct (Hm w) as (out & Hout).
    rewrite Hout in Hrun. simplify_eq. simpl. by split_and!. }
  unfold Game.handle_command, Game.handle_command_with. rewrite Hsplit. cbn zeta.
  repeat case_decide.
  - apply Hprints, prints_only_help.
  - apply Hprints, prints_only_get. intros g. apply prints_only_print.
  - apply Hprints, prints_only_inventory.
  - destruct args as [|direction rest]; [apply Hprints, prints_only_print|].
    unfold Game.cmd_go. run_m.
    destruct (PyDict.get direction _) as [new_room|]; intros ?; simplify_eq; simpl;
      by split_and!.
  - destruct args as [|a rest]; [apply Hprints, prints_only_print|].
    pose proof (cmd_take_run (PyStr.join " " (a :: rest)) w) as Htake. cbn zeta in Htake.
    destruct (list_find _ _) as [[i it]|]; rewrite Htake; intros ?; simplify_eq; simpl;
      by split_and!.
  - done.
  - destruct args as [|a rest]; [apply Hprints, prints_only_print|].
    destruct (cmd_use_effect (PyStr.join " " (a :: rest)) w)
      as (w1 & p' & Hrun & Hg & (_ & _ & _) & Hroom & Hhp & Hrng & Hin).
    rewrite Hrun. intros ?; simplify_eq. rewrite Hg. simpl.
    by split_and!.
  - apply Hprints, prints_only_print.
Qed.

Lemma verbs_touch_their_part_witness :
  enemy_store (game (sample_run 1)) = enemy_store (game (sample_run 0))
  ∧ Player.hp (player (game (sample_run 1))) = Player.hp (player (game (sample_run 0)))
  ∧ Player.current_room (player (game (sample_run 1)))
    = Player.current_room (player (game (sample_run 0))).
Proof.
  assert (Hrun : ∃ w0, game w0 = game (sample_run 0)
                       ∧ Game.handle_command 14 "take small potion" w0
                         = Ok tt (sample_run 1)).
  { exists (after_input main_prompt (tail (stdin (sample_run 0))) (sample_run 0)).
    split; [reflexivity|vm_compute; reflexivity]. }
  destruct Hrun as (w0 & Hg & Hrun).
  destruct (verbs_touch_their_part 14 "take small potion" "take" ["small"; "potion"]
              w0 (sample_run 1)) as (He & _ & _ & _ & _ & _ & Hhp & _ & _ & Hroom).
  - reflexivity.
  - reflexivity.
  - discriminate.
  - exact Hrun.
  - rewrite <- Hg. split_and!; [exact He|apply Hhp; discriminate|apply Hroom; discriminate].
Defined.

(** ** The welcome *)

Definition welcome : string :=
  "Welcome to the Text Adventure! Type 'help' for a list of commands." +:+ PyStr.nl.

(** X18.  [start] prints the welcome at most once per [Game] object: the
    part before the loop sets the flag and changes nothing else of the
    game state, it prints the welcome only if the flag was not set, and
    run again on the state it left it prints the description of the room
    and nothing more. *)
Theorem start_intro_once (w : World) :
  let look := Room.get_description (enemy_store (game w)) (current_room (game w)) in
  ∃ w1, Game.start_intro w = Ok tt w1
        ∧ game w1 = set_intro_shown true (game w)
        ∧ stdout w1 = stdout w
                      ++ (if intro_shown (game w) then [] else [welcome +:+ PyStr.nl])
                      ++ [look +:+ PyStr.nl]
        ∧ Game.start_intro w1 = Ok tt (printed [look] w1).
Proof.
  intros look. unfold Game.start_intro.
  destruct w as [[rs es rm p shown] r i o]. unfold look. simpl.
  destruct shown; run_m.
  - eexists. split; [reflexivity|]. simpl. by split_and!.
  - eexists. split; [reflexivity|]. simpl. rewrite <- app_assoc. by split_and!.
Qed.

(** ** Taking an item by its name *)

Lemma NoDup_fmap_lookup {A B} (f : A → B) (l : list A) i j x y :
  NoDup (f <$> l) → l !! i = Some x → l !! j = Some y → f x = f y → i = j.
Proof.
  intros Hnodup Hi Hj Hxy.
  apply (NoDup_lookup _ i j (f x) Hnodup).
  - by rewrite list_lookup_fmap, Hi.
  - by rewrite list_lookup_fmap, Hj, Hxy.
Qed.

(** In a state in order the item of the room that bears a name is the
    one [take] finds under that name. *)
Lemma take_named_item w it :
  let g := game w in
  invariant g →
  it ∈ Room.items (current_room g) →
  ∃ i, Room.items (current_room g) !! i = Some it
       ∧ (it ∉ delete i (Room.items (current_room g)))
       ∧ Game.cmd_take (Item.name it) w
         = Ok tt (printed ["You took the " +:+ Item.name it +:+ "."]
                          (with_game (after_take g i it) w)).
Proof.
  intros g Hinv Hit.
  pose proof (invariant_room_at g (Player.current_room (player g)) Hinv)
    as (Hlower & Hnodup & _).
  fold (current_room g) in Hlower, Hnodup.
  apply list_elem_of_lookup in Hit as (j & Hj).
  assert (Hname : PyStr.lower (Item.name it) = Item.name it).
  { rewrite Forall_forall in Hlower. apply Hlower. by eapply list_elem_of_lookup_2. }
  pose proof (cmd_take_run (Item.name it) w) as Hrun. cbn zeta in Hrun. fold g in Hrun.
  rewrite Hname in Hrun.
  destruct (list_find _ _) as [[i it']|] eqn:Hfind.
  - apply list_find_Some in Hfind as (Hi & Hsame & _).
    assert (i = j) as -> by (by eapply (NoDup_fmap_lookup Item.name)).
    assert (it' = it) as -> by congruence.
    exists j. split_and!; [done| |done].
    apply NoDup_delete_lookup; [|done]. by eapply NoDup_fmap_1.
  - apply list_find_None in Hfind. rewrite Forall_forall in Hfind.
    exfalso. apply (Hfind it); [by eapply list_elem_of_lookup_2|done].
Qed.

Lemma current_room_after_take g i it :
  Room.items (current_room g) !! i = Some it →
  Room.items (current_room (after_take g i it)) = delete i (Room.items (current_room g)).
Proof.
  intros Hi. pose proof (room_with_items_in_store _ _ _ _ Hi) as Hcur.
  unfold current_room, after_take. simpl.
  rewrite room_at_set_room. by rewrite decide_True.
Qed.

(** X19.  In a reachable state every item lying in the player's room can
    be picked up by typing its name: names are stored in lower case and no
    two items of a room share one, so [take] finds this very item, appends
    it to the inventory and leaves the room without it. *)
Theorem take_by_name (w : World) (it : Item.t) :
  let g := game w in
  reachable g →
  it ∈ Room.items (current_room g) →
  ∃ w', Game.cmd_take (Item.name it) w = Ok tt w'
        ∧ Player.inventory (player (game w')) = Player.inventory (player g) ++ [it]
        ∧ (it ∉ Room.items (current_room (game w')))
        ∧ Room.items (current_room (game w')) `sublist_of` Room.items (current_room g).
Proof.
  intros g [_ Hinv]%reachable_sound Hit.
  destruct (take_named_item w it Hinv Hit) as (i & Hi & Hgone & Hrun).
  eexists. split; [exact Hrun|].
  change (game (printed _ (with_game ?h w))) with h.
  rewrite current_room_after_take by done.
  split_and!; [done|done|apply sublist_delete].
Qed.

Lemma take_by_name_witness :
  ∃ w', Game.cmd_take "small potion" (sample_run 3) = Ok tt w'
        ∧ Player.inventory (player (game w'))
          = Player.inventory (player (game (sample_run 3))) ++ [loot].
Proof.
  destruct (take_by_name (sample_run 3) loot) as (w' & Hrun & Hinv & _).
  - apply sample_run_reachable.
  - vm_compute. apply list_elem_of_here.
  - exists w'. split; [exact Hrun|exact Hinv].
Defined.

(** ** [Player.use_healing] *)

Definition heals (it : Item.t) : Prop := 0 < Item.heal it.

Global Instance heals_dec it : Decision (heals it).
Proof. unfold heals. apply _. Defined.

(** The health the healing items of a list restore together. *)
Definition total_heal (l : list Item.t) : Z :=
  foldr (λ it acc, (if decide (heals it) then Item.heal it else 0) + acc) 0 l.

(** [n] calls of [use_healing] in a row, the returned items dropped. *)
Definition use_healing_times (n : nat) (p : Player.t) : Player.t :=
  Nat.iter n (λ q, (Player.use_healing q).1) p.

Lemma total_heal_app l k : total_heal (l ++ k) = total_heal l + total_heal k.
Proof. induction l as [|it l IH]; simpl; lia. Qed.

Lemma no_healing_item l :
  filter heals l = [] → total_heal l = 0 ∧ filter (λ it, ¬ heals it) l = l.
Proof.
  induction l as [|it l IH]; [done|].
  destruct (decide (heals it)) as [Hit|Hit].
  - by rewrite filter_cons_True.
  - rewrite filter_cons_False by done. intros [Htotal Hfilter]%IH.
    rewrite filter_cons_True by done. simpl. rewrite decide_False by done.
    split; [lia|by rewrite Hfilter].
Qed.

Lemma no_item_heals l : Forall (λ it, ¬ heals it) l → filter heals l = [].
Proof.
  induction 1 as [|it l Hit _ IH]; [done|]. by rewrite filter_cons_False.
Qed.

Lemma healing_item_deleted l i it :
  l !! i = Some it → heals it →
  total_heal l = Item.heal it + total_heal (delete i l)
  ∧ filter (λ it, ¬ heals it) (delete i l) = filter (λ it, ¬ heals it) l
  ∧ length (filter heals l) = S (length (filter heals (delete i l))).
Proof.
  intros Hi Hit.
  pose proof (take_drop_middle l i it Hi) as Hl.
  rewrite delete_take_drop.
  set (l1 := take i l) in *. set (l2 := drop (S i) l) in *.
  clearbody l1 l2. subst l. clear Hi.
  rewrite !total_heal_app, !filter_app, !length_app. simpl.
  rewrite decide_True by done.
  rewrite (filter_cons_True heals) by done.
  rewrite (filter_cons_False (λ it, ¬ heals it)) by (intros H; by apply H).
  simpl. split_and!; [lia|done|lia].
Qed.

Lemma use_healing_times_run n :
  ∀ p, (length (filter heals (Player.inventory p)) ≤ n)%nat →
       let p' := use_healing_times n p in
       Player.hp p' = Player.hp p + total_heal (Player.inventory p)
       ∧ Player.inventory p' = filter (λ it, ¬ heals it) (Player.inventory p)
       ∧ Player.name p' = Player.name p
       ∧ Player.base_attack p' = Player.base_attack p
       ∧ Player.current_room p' = Player.current_room p.
Proof.
  unfold use_healing_times.
  induction n as [|n IH]; intros p Hlen.
  - simpl. destruct (filter heals (Player.inventory p)) eqn:Hnone; [|simpl in Hlen; lia].
    apply no_healing_item in Hnone as [-> ->]. split_and!; [lia|done..].
  - cbn zeta. rewrite Nat.iter_succ_r.
    assert (Hstep : Player.use_healing p
              = match list_find heals (Player.inventory p) with
                | Some (i, it) =>
                    (Player.set_inventory (delete i (Player.inventory p))
                       (Player.set_hp (Player.hp p + Item.heal it) p), Some it)
                | None => (p, None)
                end) by done.
    rewrite Hstep. clear Hstep.
    destruct (list_find heals (Player.inventory p)) as [[i it]|] eqn:Hfind.
    + apply list_find_Some in Hfind as (Hi & Hit & _).
      destruct (healing_item_deleted _ _ _ Hi Hit) as (Htotal & Hfilter & Hcount).
      simpl fst.
      set (p1 := Player.set_inventory _ _).
      specialize (IH p1). cbn zeta in IH.
      destruct IH as (Hhp & Hinv & ? & ? & ?).
      { unfold p1. simpl. lia. }
      rewrite Hhp, Hinv. unfold p1. simpl. rewrite Hfilter. split_and!; [lia|done..].
    + simpl. apply IH.
      apply list_find_None in Hfind.
      rewrite (no_item_heals _ Hfind). simpl. lia.
Qed.

(** X20.  [Player.use_healing], called at least as many times as the
    inventory has healing items, restores the sum of their [heal] values
    and leaves exactly the other items, in their order; after that a
    further call finds nothing and returns [None]. *)
Theorem use_healing_exhausts (n : nat) (p : Player.t) :
  (length (filter heals (Player.inventory p)) ≤ n)%nat →
  let p' := use_healing_times n p in
  Player.hp p' = Player.hp p + total_heal (Player.inventory p)
  ∧ Player.inventory p' = filter (λ it, ¬ heals it) (Player.inventory p)
  ∧ Player.base_attack p' = Player.base_attack p
  ∧ Player.use_healing p' = (p', None).
Proof.
  intros Hlen p'.
  destruct (use_healing_times_run n p Hlen) as (Hhp & Hinv & Hname & Hbase & Hroom).
  fold p' in Hhp, Hinv, Hname, Hbase, Hroom.
  split_and!; [done..|].
  unfold Player.use_healing. fold heals.
    destruct (list_find heals (Player.inventory p')) as [[i it]|] eqn:Hfind; [|done].
    apply list_find_Some in Hfind as (Hi & Hit & _).
    apply list_elem_of_lookup_2 in Hi. rewrite Hinv in Hi.
    by apply list_elem_of_filter in Hi as [? _].
Qed.

Lemma use_healing_exhausts_witness :
  let p := Player.mk "Hero" Game.foyer_ref 30 5
                     [loot; Item.init "Rusty Sword" "An old rusty sword." 0 3; loot] in
  Player.hp (use_healing_times 2 p) = 46
  ∧ Player.inventory (use_healing_times 2 p)
    = [Item.init "Rusty Sword" "An old rusty sword." 0 3].
Proof.
  intros p.
  destruct (use_healing_exhausts 2 p) as (Hhp & Hinv & _).
  - vm_compute. lia.
  - split; [exact Hhp|exact Hinv].
Defined.

(** ** Taking a potion and drinking it *)

Lemma list_find_last {A} (P : A → Prop) `{!∀ x, Decision (P x)} (l : list A) (x : A) :
  Forall (λ y, ¬ P y) l → P x → list_find P (l ++ [x]) = Some (length l, x).
Proof.
  intros Hl Hx. induction Hl as [|y l Hy _ IH]; simpl.
  - by rewrite decide_True.
  - rewrite decide_False by done. by rewrite IH.
Qed.

Lemma delete_last {A} (l : list A) (x : A) : delete (length l) (l ++ [x]) = l.
Proof. induction l as [|y l IH]; simpl; [done|]. by rewrite IH. Qed.

(** X21.  In a reachable state, when a healing item lies in the room and
    the player carries nothing of that name, [take <name>] followed by
    [use <name>] leaves the player as before but for the health, which is
    up by the item's [heal]; the item is gone from the room, [use] changes
    no room, and neither command changes an enemy. *)
Theorem take_then_use (w : World) (it : Item.t) :
  let g := game w in
  reachable g →
  it ∈ Room.items (current_room g) →
  0 < Item.heal it →
  (∀ x, x ∈ Player.inventory (player g) → Item.name x ≠ Item.name it) →
  ∃ w1 w2,
    Game.cmd_take (Item.name it) w = Ok tt w1
    ∧ Game.cmd_use (Item.name it) w1 = Ok tt w2
    ∧ player (game w2) = Player.set_hp (Player.hp (player g) + Item.heal it) (player g)
    ∧ room_store (game w2) = room_store (game w1)
    ∧ enemy_store (game w2) = enemy_store g
    ∧ (it ∉ Room.items (current_room (game w2))).
Proof.
  intros g [_ Hinv]%reachable_sound Hit Hheal Hfresh.
  destruct (take_named_item w it Hinv Hit) as (i & Hi & Hgone & Hrun).
  fold g in Hi, Hgone, Hrun.
  assert (Hname : PyStr.lower (Item.name it) = Item.name it).
  { pose proof (invariant_room_at g (Player.current_room (player g)) Hinv) as (Hlower & _).
    rewrite Forall_forall in Hlower. by apply Hlower. }
  assert (Hfind : list_find (λ x, Item.name x = PyStr.lower (Item.name it))
                            (Player.inventory (player g) ++ [it])
                  = Some (length (Player.inventory (player g)), it)).
  { apply list_find_last; [|by rewrite Hname].
    rewrite Forall_forall. intros x Hx. rewrite Hname. by apply Hfresh. }
  eexists _, _. split; [exact Hrun|].
  pose proof (current_room_after_take g i it Hi) as Hroom.
  unfold Game.cmd_use. run_m.
  fold g. rewrite Hfind. rewrite bool_decide_eq_true_2 by done. simpl.
  split; [reflexivity|]. simpl.
  rewrite delete_last.
  split_and!; [by destruct (player g)|done|done|].
  change (it ∉ Room.items (current_room (after_take g i it))).
  by rewrite Hroom.
Qed.

Lemma take_then_use_witness :
  ∃ w1 w2,
    Game.cmd_take "small potion" (boot sample_rng []) = Ok tt w1
    ∧ Game.cmd_use "small potion" w1 = Ok tt w2
    ∧ Player.hp (player (game w2)) = 40
    ∧ Player.inventory (player (game w2)) = [].
Proof.
  destruct (take_then_use (boot sample_rng [])
              (Item.init "Small Potion" "A red potion. Restores 10 HP." 10 0))
    as (w1 & w2 & Htake & Huse & Hp & _).
  - apply reachable_init.
  - vm_compute. apply list_elem_of_here.
  - reflexivity.
  - intros x Hx. vm_compute in Hx. by apply elem_of_nil in Hx.
  - exists w1, w2. split_and!; [exact Htake|exact Huse|by rewrite Hp|by rewrite Hp].
Defined.

(** ** A session comes to an end *)

Lemma fight_loop_stdin fuel :
  ∀ enemy w out w',
    Game.fight_loop fuel enemy w = Ok out w' →
    (length (stdin w') ≤ length (stdin w))%nat.
Proof.
  induction fuel as [|fuel IH]; intros enemy w out w'.
  - destruct (Enemy.is_alive (enemy_at (game w) enemy) && Player.is_alive (player (game w)))
      eqn:Hcond.
    + unfold Game.fight_loop. unfold mbind, M_bind, get_game. by rewrite Hcond.
    + rewrite fight_loop_not_entered by done. intros ?. simplify_eq. lia.
  - rewrite fight_loop_unfold.
    destruct (Enemy.is_alive _ && _) eqn:Hcond; [|intros ?; simplify_eq; simpl; lia].
    apply andb_true_iff in Hcond as [He _].
    pose proof (fight_round_run fuel enemy w He) as Hround.
    destruct (Game.fight_round _ enemy w) as [[x|] w1|e1 w1|]; [| |done|done].
    + destruct Hround as (d & p' & drop & _ & _ & _ & Hin & _).
      intros ?. simplify_eq. destruct Hin as [->|[line ->]]; simpl; lia.
    + destruct Hround as (d & p' & drop & _ & _ & _ & Hin & _).
      intros Hrun%IH. destruct Hin as [Hin|[line Hin]]; rewrite Hin in *; simpl; lia.
Qed.

Lemma handle_command_stdin fuel cmd_line w w' :
  Game.handle_command fuel cmd_line w = Ok tt w' →
  (length (stdin w') ≤ length (stdin w))%nat.
Proof.
  assert (Hprints : ∀ m : M unit, prints_only m → m w = Ok tt w' →
            (length (stdin w') ≤ length (stdin w))%nat).
  { intros m Hm Hrun. destruct (Hm w) as (out & Hout).
    rewrite Hout in Hrun. simplify_eq. simpl. lia. }
  unfold Game.handle_command, Game.handle_command_with.
  destruct (PyStr.split cmd_line) as [|cmd args]; [done|].
  repeat case_decide.
  - apply Hprints, prints_only_help.
  - apply Hprints, prints_only_get. intros g. apply prints_only_print.
  - apply Hprints, prints_only_inventory.
  - destruct args as [|direction rest]; [apply Hprints, prints_only_print|].
    unfold Game.cmd_go. run_m.
    destruct (PyDict.get direction _) as [new_room|]; intros ?; simplify_eq; simpl; lia.
  - destruct args as [|a rest]; [apply Hprints, prints_only_print|].
    pose proof (cmd_take_run (PyStr.join " " (a :: rest)) w) as Htake. cbn zeta in Htake.
    destruct (list_find _ _) as [[i it]|]; rewrite Htake; intros ?; simplify_eq; simpl; lia.
  - destruct args as [|a rest]; [apply Hprints, prints_only_print|].
    unfold Game.cmd_fight, Game.cmd_fight_with.
    unfold mbind at 1. unfold M_bind at 1. unfold get_game at 1.
    destruct (Game.find_enemy_in_room _ (game w)) as [enemy|];
      [|apply Hprints, prints_only_print].
    unfold mbind at 1. unfold M_bind at 1. unfold print at 1.
    set (w0 := mkWorld _ _ _ _).
    pose proof (fight_loop_stdin fuel enemy w0) as Hloop.
    unfold mbind, M_bind.
    destruct (Game.fight_loop fuel enemy w0) as [out w1|e1 w1|]; [|done|done].
    specialize (Hloop _ _ eq_refl). unfold w0 in Hloop. simpl in Hloop.
    unfold mret, M_ret. intros ?. simplify_eq. lia.
  - destruct args as [|a rest]; [apply Hprints, prints_only_print|].
    destruct (cmd_use_run (PyStr.join " " (a :: rest)) w) as (w1 & p' & Hrun & _ & _ & _ & Hin).
    rewrite Hrun. intros ?. simplify_eq. rewrite Hin. lia.
  - apply Hprints, prints_only_print.
Qed.

(** An execution of the loop body with enough fuel for the enemies of the
    state: it returns or raises [EOFError], and when it asks for another
    iteration it has consumed a line. *)
Lemma start_body_outcome fuel w :
  (∀ e, (Z.to_nat (Enemy.hp (enemy_at (game w) e)) ≤ fuel)%nat) →
  match Game.start_body fuel w with
  | Ok again w' => again = true → (length (stdin w') < length (stdin w))%nat
  | Raise e _ => e = EOFError
  | OutOfFuel => False
  end.
Proof.
  intros Hfuel. unfold Game.start_body.
  unfold mbind at 1. unfold M_bind at 1. unfold get_game at 1.
  destruct (negb _); [done|].
  unfold mbind at 1. unfold M_bind at 1. unfold input.
  destruct (stdin w) as [|line rest]; [done|].
  set (w0 := mkWorld _ _ _ _).
  repeat case_decide; [simpl; lia|done|].
  unfold mbind, M_bind.
  pose proof (handle_command_fuel fuel (PyStr.lower (PyStr.strip line)) w0 Hfuel) as Hends.
  destruct (Game.handle_command fuel _ w0) as [[] w1|e1 w1|] eqn:Hrun; [| |done].
  - apply handle_command_stdin in Hrun. simpl in *. lia.
  - apply handle_command_raises in Hrun as [[_ Hsplit] | ->]; [|done].
    by apply split_stripped in Hsplit.
Qed.

(** X22.  A session comes to an end.  From a reachable state, with fuel
    for 25 rounds of combat, the loop of [start] needs at most one
    iteration per line of input and one more: it returns, after [quit],
    [exit] or the player's death, or it raises [EOFError]; it raises
    nothing else and does not run on. *)
Theorem session_ends (turns fuel : nat) (w : World) :
  reachable (game w) →
  (25 ≤ fuel)%nat →
  (length (stdin w) < turns)%nat →
  (∃ w', Game.start_loop turns fuel w = Ok tt w' ∧ reachable (game w'))
  ∨ (∃ w', Game.start_loop turns fuel w = Raise EOFError w').
Proof.
  intros Hreach Hfuel. revert w Hreach.
  induction turns as [|turns IH]; intros w Hreach Hturns; [lia|].
  assert (Henough : ∀ e, (Z.to_nat (Enemy.hp (enemy_at (game w) e)) ≤ fuel)%nat).
  { intros e. pose proof (reachable_enemy_health _ e Hreach). lia. }
  pose proof (start_body_outcome fuel w Henough) as Hbody.
  simpl. unfold mbind, M_bind.
  destruct (Game.start_body fuel w) as [again w1|e1 w1|] eqn:Hrun; [| |done].
  - pose proof (reachable_turn _ _ _ _ Hreach Hrun) as Hreach1.
    destruct again.
    + apply IH; [done|]. specialize (Hbody eq_refl). lia.
    + left. by exists w1.
  - subst e1. right. by exists w1.
Qed.

Lemma session_ends_witness :
  ∃ w', Game.start_loop 6 25
          (boot sample_rng ["take small potion"; "go north"; "fight goblin"; "c"; "quit"])
        = Ok tt w'.
Proof.
  destruct (session_ends 6 25
              (boot sample_rng ["take small potion"; "go north"; "fight goblin"; "c"; "quit"]))
    as [(w' & Hrun & _)|(w' & Hrun)].
  - apply reachable_init.
  - lia.
  - simpl. lia.
  - by exists w'.
  - vm_compute in Hrun. discriminate Hrun.
Defined.

(** ** Items are made by dying enemies only *)

(** The enemies of the game that are alive. *)
Definition alive_count (g : GameState) : nat :=
  length (filter (λ e, Enemy.is_alive e = true) (enemy_store g)).

(** The items of the game plus the potions that may still be dropped. *)
Definition budget (g : GameState) : nat := (length (all_items g) + alive_count g)%nat.

Lemma concat_insert_length {A B} (f : A → list B) (l : list A) r x y :
  l !! r = Some y →
  (length (concat (f <$> <[r:=x]> l)) + length (f y)
   = length (concat (f <$> l)) + length (f x))%nat.
Proof.
  revert r. induction l as [|a l IH]; intros [|r] Hr; simplify_eq/=.
  - rewrite !length_app. lia.
  - rewrite !length_app. specialize (IH r Hr). lia.
Qed.

Lemma filter_insert_length {A} (P : A → Prop) `{!∀ x, Decision (P x)} (l : list A) r x y :
  l !! r = Some y →
  (length (filter P (<[r:=x]> l)) + (if decide (P y) then 1 else 0)
   = length (filter P l) + (if decide (P x) then 1 else 0))%nat.
Proof.
  revert r. induction l as [|a l IH]; intros [|r] Hr; simplify_eq/=.
  - rewrite !filter_cons. repeat case_decide; simpl; lia.
  - rewrite !filter_cons. specialize (IH r Hr). destruct (decide (P a)); simpl; lia.
Qed.

Lemma budget_set_player g p' :
  Player.inventory p' `sublist_of` Player.inventory (player g) →
  (budget (set_player p' g) ≤ budget g)%nat.
Proof.
  intros Hsub%sublist_length. unfold budget, alive_count, all_items. simpl.
  rewrite !length_app. lia.
Qed.

Lemma budget_take g i it :
  Room.items (current_room g) !! i = Some it →
  budget (after_take g i it) = budget g.
Proof.
  intros Hi. unfold budget. by rewrite (all_items_after_take g i it Hi).
Qed.

Lemma budget_drop g : (length (all_items (after_drop g)) ≤ S (length (all_items g)))%nat
                      ∧ alive_count (after_drop g) = alive_count g.
Proof.
  split; [|done]. unfold after_drop, all_items, current_room, room_at. simpl.
  set (cur := Player.current_room (player g)).
  rewrite !length_app.
  destruct (decide (cur < length (room_store g))%nat) as [Hcur|Hcur].
  - pose proof (list_lookup_lookup_total_lt _ _ Hcur) as Hroom.
    pose proof (concat_insert_length Room.items (room_store g) cur
                  (Room.add_item loot (room_store g !!! cur)) _ Hroom) as Hlen.
    simpl in Hlen. rewrite length_app in Hlen. simpl in Hlen. lia.
  - rewrite list_insert_ge by lia. lia.
Qed.

Lemma alive_count_damage g e d :
  0 ≤ d →
  (alive_count (set_enemy e (Enemy.take_damage d (enemy_at g e)) g) ≤ alive_count g)%nat
  ∧ (Enemy.is_alive (enemy_at g e) = true → Enemy.hp (enemy_at g e) - d ≤ 0 →
     S (alive_count (set_enemy e (Enemy.take_damage d (enemy_at g e)) g)) = alive_count g).
Proof.
  intros Hd. unfold alive_count, enemy_at. simpl.
  destruct (decide (e < length (enemy_store g))%nat) as [He|He].
  - pose proof (list_lookup_lookup_total_lt _ _ He) as Hlook.
    pose proof (filter_insert_length (λ x, Enemy.is_alive x = true) (enemy_store g) e
                  (Enemy.take_damage d (enemy_store g !!! e)) _ Hlook) as Hlen.
    unfold Enemy.is_alive in *. simpl in *.
    repeat case_decide; repeat case_bool_decide; done || lia.
  - rewrite list_insert_ge by lia. split; [done|].
    rewrite list_lookup_total_alt, lookup_ge_None_2 by lia. done.
Qed.

Lemma budget_round_result g e d p' drop :
  1 ≤ d →
  Player.inventory p' `sublist_of` Player.inventory (player g) →
  (drop = true → Enemy.is_alive (enemy_at g e) = true ∧ Enemy.hp (enemy_at g e) - d ≤ 0) →
  (budget (round_result g e d p' drop) ≤ budget g)%nat.
Proof.
  intros Hd Hsub Hdrop. unfold round_result. cbn zeta.
  set (g0 := set_enemy e (Enemy.take_damage d (enemy_at g e)) g).
  destruct (alive_count_damage g e d) as [Hle Hdead]; [lia|]. fold g0 in Hle, Hdead.
  pose proof (budget_set_player g0 p' Hsub) as Hplayer.
  assert (Hitems : length (all_items g0) = length (all_items g)) by done.
  assert (Halive : alive_count (set_player p' g0) = alive_count g0) by done.
  unfold budget in *.
  destruct drop; [|lia].
  destruct (budget_drop (set_player p' g0)) as [Hmore Hsame].
  destruct (Hdrop eq_refl) as [He Hkill]. specialize (Hdead He Hkill). lia.
Qed.

Lemma handle_command_budget fuel cmd_line w w' :
  Game.handle_command fuel cmd_line w = Ok tt w' →
  (budget (game w') ≤ budget (game w))%nat.
Proof.
  intros [->|[(d & Hrun)|[(name & Hrun)|[(name & Hrun)|(name & Hrun)]]]]%handle_command_cases.
  - done.
  - revert Hrun. unfold Game.cmd_go. run_m.
    destruct (PyDict.get d _) as [new_room|]; intros ?; simplify_eq; [|done].
    by apply budget_set_player.
  - pose proof (cmd_take_run name w) as Htake. cbn zeta in Htake.
    destruct (list_find _ _) as [[i it]|] eqn:Hfind; rewrite Htake in Hrun; simplify_eq;
      [|done].
    apply list_find_Some in Hfind as (Hi & _).
    change (game (printed _ (with_game ?h w))) with h. by rewrite budget_take.
  - apply cmd_fight_cases in Hrun as [->|(enemy & w0 & out & _ & Hg & _ & _ & Hloop)]; [done|].
    pose proof (fight_loop_effect fuel enemy w0) as Heffect. cbn zeta in Heffect.
    assert (Hentered : out ≠ None → Enemy.is_alive (enemy_at (game w0) enemy) = true).
    { intros Hout.
      destruct (Enemy.is_alive (enemy_at (game w0) enemy)) eqn:He; [done|].
      rewrite fight_loop_not_entered in Hloop by (by rewrite He). by simplify_eq. }
    rewrite Hloop in Heffect. rewrite <- Hg.
    destruct out as [out|]; [|by destruct Heffect as [-> _]].
    destruct Heffect as (D & p' & drop & HD & -> & (_ & _ & Hsub) & Hout).
    apply budget_round_result; [done|done|].
    intros ->. split; [by apply Hentered|].
    destruct out; [by destruct Hout|by destruct Hout|by destruct Hout].
  - destruct (cmd_use_effect name w) as (w1 & p' & Hrun' & Hg & (_ & _ & Hsub) & _).
    rewrite Hrun' in Hrun. simplify_eq. rewrite Hg. by apply budget_set_player.
Qed.

Lemma reachable_budget g : reachable g → (budget g ≤ 7)%nat.
Proof.
  induction 1 as [|w w' _ IH Hrun|fuel w again w' _ IH Hrun
                  |fuel enemy w w' _ IH Hin He Hrun].
  - vm_compute. lia.
  - apply start_intro_game in Hrun as [->| ->]; [done|]. exact IH.
  - apply start_body_cases in Hrun as [->|(line & w0 & Hg & Hrun)]; [done|].
    apply handle_command_budget in Hrun. rewrite Hg in Hrun. lia.
  - pose proof (fight_round_effect fuel enemy w He) as Hround. cbn zeta in Hround.
    rewrite Hrun in Hround. destruct Hround as (p' & drop & -> & (_ & _ & Hsub) & -> & _).
    assert (budget (round_result (game w) enemy (damage_to_enemy w) p' false)
            ≤ budget (game w))%nat; [|lia].
    apply budget_round_result; [|done|done].
    unfold damage_to_enemy. lia.
Qed.

(** X23.  The game makes an item only when an enemy dies, and one at
    most: in every reachable state the items lying in the rooms and
    carried by the player, together with the enemies still alive, are at
    most seven, the four items and three enemies of the start.  So no
    run ever holds more than seven items. *)
Theorem items_bounded (g : GameState) :
  reachable g →
  (length (all_items g) + alive_count g ≤ 7)%nat
  ∧ (length (Player.inventory (player g)) ≤ 7)%nat.
Proof.
  intros Hbudget%reachable_budget. unfold budget in Hbudget.
  split; [done|]. unfold all_items in Hbudget. rewrite length_app in Hbudget. lia.
Qed.

Lemma items_bounded_witness :
  (length (all_items (game (sample_run 4))) + alive_count (game (sample_run 4)) ≤ 7)%nat
  ∧ (length (Player.inventory (player (game (sample_run 4)))) ≤ 7)%nat.
Proof.
  apply (items_bounded (game (sample_run 4))), sample_run_reachable.
Defined.
